(** * traefik-umami-feeder: the asynchronous event pipeline

    A shallow embedding of the Go plugin (umami_worker.go, umami_websites.go
    and the helpers next to them) and the properties of its matcher, site
    resolver, event queue, batch dispatcher and connection/retry loop.

    Go values are modelled as follows.
    - [string] is a Go string, i.e. a sequence of bytes.
    - [int], [int64] and [time.Duration] are [Z]; where the source multiplies
      durations the 64-bit wrap-around is written out with [wrap64].
    - [map[string]string] is a [gmap string string].
    - A buffered channel is a record with its buffer, its capacity and the
      number of receivers parked on it, as in the Go runtime ([hchan]).
    - Calls that leave the process (HTTP requests) and the standard-library
      packages net/netip, regexp and unicode are inputs: outcomes of remote
      calls are arguments, library functions are fields of a type class. *)

From Stdlib Require Import ZArith List String Ascii Bool Lia.
From stdpp Require Import base gmap strings list.
Import ListNotations.

(** ** Results of fallible Go calls: [(value, error)] pairs. *)

Inductive result (A : Type) : Type :=
| Ok (a : A)
| Err (e : string).
Arguments Ok {A} a.
Arguments Err {A} e.

Definition is_err {A} (r : result A) : bool :=
  match r with Ok _ => false | Err _ => true end.

(** ** Package time *)

Module Time.

(** [time.Duration] is an [int64] counting nanoseconds. *)
Definition wrap64 (z : Z) : Z := ((z + 2 ^ 63) mod 2 ^ 64 - 2 ^ 63)%Z.

Definition Second : Z := 1000000000.
Definition Hour : Z := (3600 * Second)%Z.

(** The conversion [time.Duration(15 * math.Pow(2, float64(n)))].  For every
    [int] [n] below 8 the product [15 * 2^n] is computed without rounding by
    IEEE-754 doubles (a four-bit mantissa scaled by a power of two), and the
    conversion to [int64] truncates towards zero; so the value is [15 * 2^n]
    for [0 <= n] and the integer part of [15 / 2^(-n)] for [n < 0]. *)
Definition Duration_15_Pow2 (n : Z) : Z :=
  if (0 <=? n)%Z then (15 * 2 ^ n)%Z else (15 / 2 ^ (- n))%Z.

End Time.

(** ** The retry delay of [retryConnection] (umami_worker.go) *)

Definition maxRetryInterval : Z := Time.Hour.

(** The first statements of the loop body of [retryConnection]: the delay
    waited before the attempt, from the attempt counter. *)
Definition currentDelay (retryAttempt : Z) : Z :=
  if (retryAttempt =? 0)%Z then 0%Z
  else if (retryAttempt <? 8)%Z
       then Time.wrap64 (Time.Duration_15_Pow2 retryAttempt * Time.Second)
       else maxRetryInterval.

(** ** Standard-library packages the plugin calls

    net/netip, regexp, the Unicode tables behind package strings, and
    net.SplitHostPort are not part of the repository; the plugin is
    modelled over any implementation of them. *)

Class GoStd : Type := {
  (** net/netip *)
  netip_Addr : Type;
  netip_Prefix : Type;
  netip_ParseAddr : string -> result netip_Addr;
  netip_ParsePrefix : string -> result netip_Prefix;
  Prefix_IsValid : netip_Prefix -> bool;
  Prefix_Contains : netip_Prefix -> netip_Addr -> bool;
  (** regexp *)
  regexp_Regexp : Type;
  regexp_Compile : string -> result regexp_Regexp;
  Regexp_MatchString : regexp_Regexp -> string -> bool;
  (** unicode: whether the [unicode.SimpleFold] orbit of the smaller rune
      reaches the larger one (the "general case" of [strings.EqualFold]) *)
  unicode_foldReaches : Z -> Z -> bool;
  (** strings: [strings.Map(unicode.ToLower, s)], the path [strings.ToLower]
      takes for a string with a non-ASCII byte *)
  strings_MapToLower : string -> string;
  strings_TrimSpace : string -> string;
  (** net *)
  net_SplitHostPort : string -> result (string * string)
}.

(** ** Packages unicode/utf8, strings and path, on byte strings *)

Module GoStrings.

Definition byte_val (c : ascii) : Z := Z.of_N (N_of_ascii c).

Definition RuneError : Z := 0xFFFD.
Definition RuneSelf : Z := 0x80.

Fixpoint skip (n : nat) (s : string) : string :=
  match n, s with
  | O, _ => s
  | S n', String _ s' => skip n' s'
  | S _, EmptyString => EmptyString
  end.

Fixpoint string_map (f : ascii -> ascii) (s : string) : string :=
  match s with
  | EmptyString => EmptyString
  | String c s' => String (f c) (string_map f s')
  end.

Fixpoint string_forallb (p : ascii -> bool) (s : string) : bool :=
  match s with
  | EmptyString => true
  | String c s' => p c && string_forallb p s'
  end.

(** utf8.go: the table [first] and the accept ranges, by first byte. *)
Inductive firstInfo : Type :=
| FirstAS                                   (* ASCII, size 1 *)
| FirstXX                                   (* invalid, size 1 *)
| FirstSeq (sz : nat) (lo hi : Z).          (* lead byte: size, range of the second byte *)

Definition locb : Z := 0x80.
Definition hicb : Z := 0xBF.

Definition first (b : Z) : firstInfo :=
  if (b <? 0x80)%Z then FirstAS
  else if (b <? 0xC2)%Z then FirstXX
  else if (b <? 0xE0)%Z then FirstSeq 2 locb hicb
  else if (b =? 0xE0)%Z then FirstSeq 3 0xA0%Z hicb
  else if (b <? 0xED)%Z then FirstSeq 3 locb hicb
  else if (b =? 0xED)%Z then FirstSeq 3 locb 0x9F%Z
  else if (b <? 0xF0)%Z then FirstSeq 3 locb hicb
  else if (b =? 0xF0)%Z then FirstSeq 4 0x90%Z hicb
  else if (b <? 0xF4)%Z then FirstSeq 4 locb hicb
  else if (b =? 0xF4)%Z then FirstSeq 4 locb 0x8F%Z
  else FirstXX.

Definition cont_ok (lo hi b : Z) : bool := negb ((b <? lo)%Z || (hi <? b)%Z).

(** [utf8.DecodeRuneInString]: the first rune of [s] and its width in bytes;
    [(RuneError, 1)] for an invalid or truncated encoding, [(RuneError, 0)]
    for the empty string. *)
Definition DecodeRuneInString (s : string) : Z * nat :=
  match s with
  | EmptyString => (RuneError, 0)
  | String c0 s1 =>
    let b0 := byte_val c0 in
    match first b0 with
    | FirstAS => (b0, 1)
    | FirstXX => (RuneError, 1)
    | FirstSeq sz lo hi =>
      if String.length s <? sz then (RuneError, 1) else
      match s1 with
      | EmptyString => (RuneError, 1)
      | String c1 s2 =>
        let b1 := byte_val c1 in
        if negb (cont_ok lo hi b1) then (RuneError, 1) else
        if sz <=? 2
        then (Z.lor (Z.shiftl (Z.land b0 0x1F) 6) (Z.land b1 0x3F), 2)
        else
        match s2 with
        | EmptyString => (RuneError, 1)
        | String c2 s3 =>
          let b2 := byte_val c2 in
          if negb (cont_ok locb hicb b2) then (RuneError, 1) else
          if sz <=? 3
          then (Z.lor (Z.lor (Z.shiftl (Z.land b0 0x0F) 12)
                             (Z.shiftl (Z.land b1 0x3F) 6))
                      (Z.land b2 0x3F), 3)
          else
          match s3 with
          | EmptyString => (RuneError, 1)
          | String c3 _ =>
            let b3 := byte_val c3 in
            if negb (cont_ok locb hicb b3) then (RuneError, 1) else
            (Z.lor (Z.lor (Z.lor (Z.shiftl (Z.land b0 0x07) 18)
                                 (Z.shiftl (Z.land b1 0x3F) 12))
                          (Z.shiftl (Z.land b2 0x3F) 6))
                   (Z.land b3 0x3F), 4)
          end
        end
      end
    end
  end.

Definition is_upper (r : Z) : bool := (0x41 <=? r)%Z && (r <=? 0x5A)%Z.

(** One comparison of [strings.EqualFold] once the two runes differ: order
    them, then the ASCII check or the SimpleFold orbit. *)
Definition foldMatch `{GoStd} (sr tr : Z) : bool :=
  let lo := if (tr <? sr)%Z then tr else sr in
  let hi := if (tr <? sr)%Z then sr else tr in
  if (hi <? RuneSelf)%Z
  then is_upper lo && (hi =? lo + 0x20)%Z
  else unicode_foldReaches lo hi.

(** The loop after the label [hasUnicode] of [strings.EqualFold]:
    [for _, sr := range s].  Every iteration consumes at least one byte of
    [s], so [String.length s] iterations are enough; [fuel] counts them. *)
Fixpoint equalFoldUnicode `{GoStd} (fuel : nat) (s t : string) : bool :=
  match s with
  | EmptyString => String.length t =? 0
  | String _ _ =>
    match fuel with
    | O => false
    | S fuel' =>
      let '(sr, ssz) := DecodeRuneInString s in
      match t with
      | EmptyString => false
      | String c t1 =>
        let '(tr, t') :=
          if (byte_val c <? RuneSelf)%Z then (byte_val c, t1)
          else (fst (DecodeRuneInString t), skip (snd (DecodeRuneInString t)) t) in
        if (tr =? sr)%Z then equalFoldUnicode fuel' (skip ssz s) t'
        else if foldMatch sr tr then equalFoldUnicode fuel' (skip ssz s) t'
        else false
      end
    end
  end.

(** [strings.EqualFold]: the ASCII fast path, byte by byte, leaving for the
    rune loop at the first byte that is not ASCII. *)
Fixpoint EqualFold `{GoStd} (s t : string) : bool :=
  match s, t with
  | String a s', String b t' =>
    let sr := byte_val a in
    let tr := byte_val b in
    if (RuneSelf <=? Z.lor sr tr)%Z
    then equalFoldUnicode (String.length s) s t
    else if (tr =? sr)%Z then EqualFold s' t'
    else if foldMatch sr tr then EqualFold s' t'
    else false
  | _, _ => String.length s =? String.length t
  end.

Fixpoint HasPrefix (s p : string) {struct p} : bool :=
  match p, s with
  | EmptyString, _ => true
  | String _ _, EmptyString => false
  | String b p', String a s' => Ascii.eqb a b && HasPrefix s' p'
  end.

Definition HasSuffix (s suffix : string) : bool :=
  (String.length suffix <=? String.length s)
  && String.eqb (skip (String.length s - String.length suffix) s) suffix.

(** [strings.Contains(s, substr)] *)
Fixpoint Contains (s substr : string) : bool :=
  HasPrefix s substr
  || match s with
     | EmptyString => false
     | String _ s' => Contains s' substr
     end.

(** [strings.TrimSuffix] *)
Definition TrimSuffix (s suffix : string) : string :=
  if HasSuffix s suffix
  then String.substring 0 (String.length s - String.length suffix) s
  else s.

(** [strings.Split(s, sep)] for a separator of one byte. *)
Fixpoint SplitByte (s : string) (sep : ascii) : list string :=
  match s with
  | EmptyString => [EmptyString]
  | String c s' =>
    if Ascii.eqb c sep then EmptyString :: SplitByte s' sep
    else match SplitByte s' sep with
         | x :: xs => String c x :: xs
         | [] => [String c EmptyString]
         end
  end.

Definition lowerByte (c : ascii) : ascii :=
  if is_upper (byte_val c) then ascii_of_N (N_of_ascii c + 32) else c.

(** [strings.ToLower]: bytewise on an ASCII string, [strings.Map] with
    [unicode.ToLower] otherwise. *)
Definition ToLower `{GoStd} (s : string) : string :=
  let isASCII := string_forallb (fun c => (byte_val c <? RuneSelf)%Z) s in
  let hasUpper := negb (string_forallb (fun c => negb (is_upper (byte_val c))) s) in
  if isASCII
  then (if hasUpper then string_map lowerByte s else s)
  else strings_MapToLower s.

(** [path.Ext]: the loop [for i := len(path) - 1; i >= 0 && path[i] != '/'; i--],
    with [k = i + 1]. *)
Fixpoint Ext_from (path : string) (k : nat) : string :=
  match k with
  | O => EmptyString
  | S i =>
    match String.get i path with
    | Some c =>
      if Ascii.eqb c "/" then EmptyString
      else if Ascii.eqb c "."
           then String.substring i (String.length path - i) path
           else Ext_from path i
    | None => EmptyString
    end
  end.

Definition Ext (path : string) : string := Ext_from path (String.length path).

End GoStrings.

(** ** Channels (runtime/chan.go), as far as the plugin uses them *)

Module Chan.

(** A channel made by [make(chan A, dataqsiz)]: the buffered elements, oldest
    first, the capacity, and the number of goroutines parked in a receive on
    it.  [handoff] records, oldest first, the elements a sender passed
    directly to a parked receiver.  The runtime keeps [recvq = 0] whenever
    the buffer is not empty. *)
Record chan (A : Type) : Type := mkChan {
  buf : list A;
  dataqsiz : nat;
  recvq : nat;
  handoff : list A
}.
Arguments mkChan {A} _ _ _ _.
Arguments buf {A} _.
Arguments dataqsiz {A} _.
Arguments recvq {A} _.
Arguments handoff {A} _.

Definition make {A} (size : nat) : chan A := mkChan [] size 0 [].

(** [full(c)] of the runtime: an unbuffered channel is full when no receiver
    waits, a buffered one when the buffer holds [dataqsiz] elements. *)
Definition full {A} (c : chan A) : bool :=
  if dataqsiz c =? 0 then recvq c =? 0
  else length (buf c) =? dataqsiz c.

Inductive sendResult (A : Type) : Type :=
| Sent (c' : chan A)       (* the element was taken, the send returned true *)
| NotSent                   (* non-blocking send on a full channel: false *)
| Parked.                   (* blocking send on a full channel: the goroutine sleeps *)
Arguments Sent {A} c'.
Arguments NotSent {A}.
Arguments Parked {A}.

(** [chansend(c, ep, block)] on an open channel: a parked receiver takes the
    element directly; otherwise it goes to the buffer if there is room;
    otherwise the caller gives up or parks, by [block]. *)
Definition chansend {A} (c : chan A) (ep : A) (block : bool) : sendResult A :=
  if negb block && full c then NotSent
  else if 0 <? recvq c
       then Sent (mkChan (buf c) (dataqsiz c) (recvq c - 1) (handoff c ++ [ep]))
       else if length (buf c) <? dataqsiz c
            then Sent (mkChan (buf c ++ [ep]) (dataqsiz c) (recvq c) (handoff c))
            else if block then Parked else NotSent.

(** A [select] with one send case and a [default] compiles to
    [selectnbsend], a send with [block = false]. *)
Definition selectnbsend {A} (c : chan A) (ep : A) : sendResult A :=
  chansend c ep false.

(** [chanrecv(c, ep, block = true)] as the worker's [select] uses it: take
    the oldest buffered element, or park on the channel when there is none.
    A parked receiver that is woken by another case of its [select] leaves
    the channel again ([unpark]). *)
Definition chanrecv {A} (c : chan A) : option A * chan A :=
  match buf c with
  | x :: rest => (Some x, mkChan rest (dataqsiz c) (recvq c) (handoff c))
  | [] => (None, mkChan [] (dataqsiz c) (S (recvq c)) (handoff c))
  end.

Definition unpark {A} (c : chan A) : chan A :=
  mkChan (buf c) (dataqsiz c) (recvq c - 1) (handoff c).

(** The runtime's invariant on a channel. *)
Definition wf {A} (c : chan A) : Prop :=
  length (buf c) <= dataqsiz c /\ (0 < recvq c -> buf c = []).

End Chan.

(** ** Data model (umami_worker.go) *)

Inductive DataValue : Type :=
| DString (s : string)
| DInt (n : Z).

Record UmamiEvent : Type := mkUmamiEvent {
  Website : string;
  Hostname : string;
  Language : string;
  Referrer : string;
  Url : string;
  Ip : string;
  UserAgent : string;
  Timestamp : Z;
  Data : option (gmap string DataValue)     (* [None] is the nil map *)
}.

Record SendBody : Type := mkSendBody {
  Payload : UmamiEvent;
  Type_ : string
}.

(** What the plugin reads of an [*http.Request]. *)
Record Request : Type := mkRequest {
  Host : string;
  RemoteAddr : string;
  Header_Get : string -> string;        (* [req.Header.Get] *)
  URL_String : string;                  (* [req.URL.String()] *)
  URL_Path : string                     (* [req.URL.Path] *)
}.

Definition Request_Referer (req : Request) : string := Header_Get req "Referer".
Definition Request_UserAgent (req : Request) : string := Header_Get req "User-Agent".

Record Website_ : Type := mkWebsite {
  ID : string;
  Name : string;
  TeamId : string;
  Domain : string
}.

Record Config : Type := mkConfig {
  Enabled : bool;
  Disabled : bool;
  Debug : bool;
  QueueSize : Z;
  BatchSize : Z;
  BatchMaxWait : Z;
  UmamiHost : string;
  UmamiToken : string;
  UmamiUsername : string;
  UmamiPassword : string;
  UmamiTeamId : string;
  Websites : gmap string string;
  CreateNewWebsites : bool;
  TrackErrors : bool;
  TrackAllResources : bool;
  TrackExtensions : list string;
  IgnoreUserAgents : list string;
  IgnoreURLs : list string;
  IgnoreHosts : list string;
  IgnoreIPs : list string;
  HeaderIp : string;
  CaptureHeaders : gmap string string
}.

Definition CreateConfig : Config :=
  {| Enabled := true; Disabled := false; Debug := false;
     QueueSize := 1000; BatchSize := 20; BatchMaxWait := 5 * Time.Second;
     UmamiHost := ""; UmamiToken := ""; UmamiUsername := "";
     UmamiPassword := ""; UmamiTeamId := "";
     Websites := ∅; CreateNewWebsites := false;
     TrackErrors := false; TrackAllResources := false; TrackExtensions := [];
     IgnoreUserAgents := []; IgnoreURLs := []; IgnoreHosts := [];
     IgnoreIPs := []; HeaderIp := "X-Real-IP"; CaptureHeaders := ∅ |}.

(** A line written through [h.error] or [h.debugf]; the timestamp and the
    middleware name of the printed line are left out, and a debug line keeps
    its format string only. *)
Inductive LogEntry : Type :=
| ERR (message : string)
| DBG (format : string).

(** The plugin instance.  [logHandler] is [None] for a nil logger, otherwise
    the lines printed so far. *)
Record UmamiFeeder `{GoStd} : Type := mkUmamiFeeder {
  name : string;
  isDebug : bool;
  isEnabled : bool;
  logHandler : option (list LogEntry);
  queue : Chan.chan UmamiEvent;
  batchSize : Z;
  batchMaxWait : Z;
  umamiHost : string;
  umamiToken : string;
  umamiTeamId : string;
  websites : gmap string string;
  createNewWebsites : bool;
  trackErrors : bool;
  trackAllResources : bool;
  trackExtensions : list string;
  ignoreHosts : list string;
  ignoreUserAgents : list string;
  ignoreRegexps : list regexp_Regexp;
  ignorePrefixes : list netip_Prefix;
  headerIp : string;
  captureHeaders : gmap string string
}.

(** Field updates of the plugin instance. *)
Definition set_logHandler `{GoStd} (h : UmamiFeeder) (l : option (list LogEntry)) : UmamiFeeder :=
  mkUmamiFeeder _ (name h) (isDebug h) (isEnabled h) l (queue h) (batchSize h)
    (batchMaxWait h) (umamiHost h) (umamiToken h) (umamiTeamId h) (websites h)
    (createNewWebsites h) (trackErrors h) (trackAllResources h) (trackExtensions h)
    (ignoreHosts h) (ignoreUserAgents h) (ignoreRegexps h) (ignorePrefixes h)
    (headerIp h) (captureHeaders h).

Definition set_isEnabled `{GoStd} (h : UmamiFeeder) (b : bool) : UmamiFeeder :=
  mkUmamiFeeder _ (name h) (isDebug h) b (logHandler h) (queue h) (batchSize h)
    (batchMaxWait h) (umamiHost h) (umamiToken h) (umamiTeamId h) (websites h)
    (createNewWebsites h) (trackErrors h) (trackAllResources h) (trackExtensions h)
    (ignoreHosts h) (ignoreUserAgents h) (ignoreRegexps h) (ignorePrefixes h)
    (headerIp h) (captureHeaders h).

Definition set_queue `{GoStd} (h : UmamiFeeder) (q : Chan.chan UmamiEvent) : UmamiFeeder :=
  mkUmamiFeeder _ (name h) (isDebug h) (isEnabled h) (logHandler h) q (batchSize h)
    (batchMaxWait h) (umamiHost h) (umamiToken h) (umamiTeamId h) (websites h)
    (createNewWebsites h) (trackErrors h) (trackAllResources h) (trackExtensions h)
    (ignoreHosts h) (ignoreUserAgents h) (ignoreRegexps h) (ignorePrefixes h)
    (headerIp h) (captureHeaders h).

Definition set_umamiToken `{GoStd} (h : UmamiFeeder) (t : string) : UmamiFeeder :=
  mkUmamiFeeder _ (name h) (isDebug h) (isEnabled h) (logHandler h) (queue h) (batchSize h)
    (batchMaxWait h) (umamiHost h) t (umamiTeamId h) (websites h)
    (createNewWebsites h) (trackErrors h) (trackAllResources h) (trackExtensions h)
    (ignoreHosts h) (ignoreUserAgents h) (ignoreRegexps h) (ignorePrefixes h)
    (headerIp h) (captureHeaders h).

Definition set_websites `{GoStd} (h : UmamiFeeder) (w : gmap string string) : UmamiFeeder :=
  mkUmamiFeeder _ (name h) (isDebug h) (isEnabled h) (logHandler h) (queue h) (batchSize h)
    (batchMaxWait h) (umamiHost h) (umamiToken h) (umamiTeamId h) w
    (createNewWebsites h) (trackErrors h) (trackAllResources h) (trackExtensions h)
    (ignoreHosts h) (ignoreUserAgents h) (ignoreRegexps h) (ignorePrefixes h)
    (headerIp h) (captureHeaders h).

Definition set_ignoreRegexps `{GoStd} (h : UmamiFeeder) (r : list regexp_Regexp) : UmamiFeeder :=
  mkUmamiFeeder _ (name h) (isDebug h) (isEnabled h) (logHandler h) (queue h) (batchSize h)
    (batchMaxWait h) (umamiHost h) (umamiToken h) (umamiTeamId h) (websites h)
    (createNewWebsites h) (trackErrors h) (trackAllResources h) (trackExtensions h)
    (ignoreHosts h) (ignoreUserAgents h) r (ignorePrefixes h)
    (headerIp h) (captureHeaders h).

Definition set_ignorePrefixes `{GoStd} (h : UmamiFeeder) (p : list netip_Prefix) : UmamiFeeder :=
  mkUmamiFeeder _ (name h) (isDebug h) (isEnabled h) (logHandler h) (queue h) (batchSize h)
    (batchMaxWait h) (umamiHost h) (umamiToken h) (umamiTeamId h) (websites h)
    (createNewWebsites h) (trackErrors h) (trackAllResources h) (trackExtensions h)
    (ignoreHosts h) (ignoreUserAgents h) (ignoreRegexps h) p
    (headerIp h) (captureHeaders h).

(** [h.error(message)] and [h.debugf(format, ...)]. *)
Definition error `{GoStd} (h : UmamiFeeder) (message : string) : UmamiFeeder :=
  match logHandler h with
  | Some out => set_logHandler h (Some (out ++ [ERR message]))
  | None => h
  end.

Definition debugf `{GoStd} (h : UmamiFeeder) (format : string) : UmamiFeeder :=
  match logHandler h with
  | Some out => if isDebug h then set_logHandler h (Some (out ++ [DBG format])) else h
  | None => h
  end.

(** The lines printed so far (none through a nil logger). *)
Definition printed `{GoStd} (h : UmamiFeeder) : list LogEntry :=
  match logHandler h with Some out => out | None => [] end.

(** ** Request helpers (the file of [sendRequest], [parseDomainFromHost], ...) *)

Definition parseDomainFromHost `{GoStd} (host : string) : string :=
  let host1 :=
    if GoStrings.Contains host ":"
    then match GoStrings.SplitByte host ":" with
         | x :: _ => x
         | [] => EmptyString      (* Split with a non-empty separator never returns an empty slice *)
         end
    else host in
  let host2 := GoStrings.TrimSuffix host1 "." in
  GoStrings.ToLower host2.

(** [parseAcceptLanguage]: group 1 of the leftmost match of
    [([a-zA-Z\-]+)(?:;q=\d\.\d)?(?:,\s)?], i.e. the first maximal run of
    letters and hyphens, or the empty string when there is none. *)
Definition is_lang_byte (c : ascii) : bool :=
  let b := GoStrings.byte_val c in
  ((0x61 <=? b)%Z && (b <=? 0x7A)%Z) || GoStrings.is_upper b || (b =? 0x2D)%Z.

Fixpoint lang_run (s : string) : string :=
  match s with
  | EmptyString => EmptyString
  | String c s' => if is_lang_byte c then String c (lang_run s') else EmptyString
  end.

Fixpoint parseAcceptLanguage (acceptLanguage : string) : string :=
  match acceptLanguage with
  | EmptyString => EmptyString
  | String c s' =>
    if is_lang_byte c then lang_run acceptLanguage else parseAcceptLanguage s'
  end.

Definition nonempty (s : string) : bool := negb (String.eqb s EmptyString).

Definition extractRemoteIP `{GoStd} (req : Request) : string :=
  if nonempty (Header_Get req "Cf-Connecting-Ip") then Header_Get req "Cf-Connecting-Ip"
  else if nonempty (Header_Get req "X-Vercel-Ip") then Header_Get req "X-Vercel-Ip"
  else
    let xff := Header_Get req "X-Forwarded-For" in
    match (if nonempty xff then GoStrings.SplitByte xff "," else []) with
    | ip0 :: _ => strings_TrimSpace ip0
    | [] =>
      if nonempty (Header_Get req "X-Real-IP") then Header_Get req "X-Real-IP"
      else if nonempty (RemoteAddr req)
           then match net_SplitHostPort (RemoteAddr req) with
                | Ok (ip, _) => ip
                | Err _ => RemoteAddr req
                end
           else EmptyString
    end.

(** ** Matcher (umami_worker.go)

    The matcher's [h.debugf] calls only print; the predicates are given as
    pure functions of the instance and the request. *)

(** The client-IP string [shouldTrackRequest] parses. *)
Definition requestIp `{GoStd} (h : UmamiFeeder) (req : Request) : string :=
  if String.eqb (Header_Get req (headerIp h)) EmptyString
  then RemoteAddr req
  else Header_Get req (headerIp h).

(** The four blocks of [shouldTrackRequest], each [true] when the block
    executes [return false]. *)
Definition hostIgnored `{GoStd} (h : UmamiFeeder) (req : Request) : bool :=
  (0 <? length (ignoreHosts h))
  && existsb (fun disabledHost => GoStrings.EqualFold (Host req) disabledHost)
             (ignoreHosts h).

Definition ipIgnored `{GoStd} (h : UmamiFeeder) (req : Request) : bool :=
  if 0 <? length (ignorePrefixes h) then
    match netip_ParseAddr (requestIp h req) with
    | Err _ => true                                        (* invalid IP *)
    | Ok ip => existsb (fun prefix => Prefix_Contains prefix ip) (ignorePrefixes h)
    end
  else false.

Definition userAgentIgnored `{GoStd} (h : UmamiFeeder) (req : Request) : bool :=
  (0 <? length (ignoreUserAgents h))
  && existsb (fun disabledUserAgent =>
                GoStrings.Contains (Request_UserAgent req) disabledUserAgent)
             (ignoreUserAgents h).

Definition urlIgnored `{GoStd} (h : UmamiFeeder) (req : Request) : bool :=
  (0 <? length (ignoreRegexps h))
  && existsb (fun r => Regexp_MatchString r (URL_String req)) (ignoreRegexps h).

Definition shouldTrackRequest `{GoStd} (h : UmamiFeeder) (req : Request) : bool :=
  if hostIgnored h req then false
  else if ipIgnored h req then false
  else if userAgentIgnored h req then false
  else if urlIgnored h req then false
  else true.

Definition contentExtensions : list string :=
  [""; ".htm"; ".html"; ".xhtml"; ".jsf"; ".md"; ".php"; ".rss"; ".rtf"; ".txt"; ".xml"; ".pdf"].

Definition shouldTrackResource `{GoStd} (h : UmamiFeeder) (url : string) : bool :=
  if trackAllResources h then true
  else
    let pathExt := GoStrings.Ext url in
    if 0 <? length (trackExtensions h)
    then existsb (String.eqb pathExt) (trackExtensions h)
    else existsb (String.eqb pathExt) contentExtensions.

Definition shouldTrack `{GoStd} (h : UmamiFeeder) (req : Request) : bool :=
  if negb (shouldTrackRequest h req) then false
  else if negb (shouldTrackResource h (URL_Path req)) then false
  else if createNewWebsites h then true
  else
    let hostname := parseDomainFromHost (Host req) in
    match websites h !! hostname with
    | Some _ => true
    | None => false
    end.

Definition shouldTrackStatus `{GoStd} (h : UmamiFeeder) (statusCode : Z) : bool :=
  if (400 <=? statusCode)%Z then trackErrors h else true.

(** ** Bootstrap: [verifyConfig], [connect], [retryConnection], [New] *)

(** One entry of [config.IgnoreIPs]: parse it as a prefix, on failure as a
    single address with "/32" appended, then check the result. *)
Definition parseIgnoreIP `{GoStd} (ignoreIP : string) : result netip_Prefix :=
  let r := match netip_ParsePrefix ignoreIP with
           | Ok network => Ok network
           | Err _ => netip_ParsePrefix (ignoreIP +:+ "/32")
           end in
  match r with
  | Err e => Err ("invalid ignoreIP given " +:+ ignoreIP +:+ ": " +:+ e)
  | Ok network =>
    if Prefix_IsValid network then Ok network
    else Err ("invalid ignoreIP given " +:+ ignoreIP +:+ ": %!w(<nil>)")
  end.

Fixpoint verifyIgnoreIPs `{GoStd} (h : UmamiFeeder) (ips : list string)
  : UmamiFeeder * option string :=
  match ips with
  | [] => (h, None)
  | ignoreIP :: rest =>
    match parseIgnoreIP ignoreIP with
    | Err e => (h, Some e)
    | Ok network => verifyIgnoreIPs (set_ignorePrefixes h (ignorePrefixes h ++ [network])) rest
    end
  end.

Fixpoint verifyIgnoreURLs `{GoStd} (h : UmamiFeeder) (urls : list string)
  : UmamiFeeder * option string :=
  match urls with
  | [] => (h, None)
  | location :: rest =>
    match regexp_Compile location with
    | Err e => (h, Some ("failed to compile ignoreURL " +:+ location +:+ ": " +:+ e))
    | Ok r => verifyIgnoreURLs (set_ignoreRegexps h (ignoreRegexps h ++ [r])) rest
    end
  end.

(** [verifyConfig]: the instance as the call leaves it, and the error
    ([None] is nil). *)
Definition verifyConfig `{GoStd} (h : UmamiFeeder) (config : Config)
  : UmamiFeeder * option string :=
  match verifyIgnoreIPs h (IgnoreIPs config) with
  | (h1, Some e) => (h1, Some e)
  | (h1, None) => verifyIgnoreURLs h1 (IgnoreURLs config)
  end.

(** The loop of [connect] over the fetched sites: a hostname already in the
    cache keeps its identifier. *)
Fixpoint mergeWebsites (cache : gmap string string) (fetched : list Website_)
  : gmap string string :=
  match fetched with
  | [] => cache
  | website :: rest =>
    match cache !! Domain website with
    | Some _ => mergeWebsites cache rest
    | None => mergeWebsites (<[Domain website := ID website]> cache) rest
    end
  end.

(** [connect].  [token] is what [getToken] answers and [fetched] what
    [fetchWebsites] answers, should the call be made. *)
Definition connect `{GoStd} (h : UmamiFeeder) (config : Config)
    (token : result string) (fetched : result (list Website_))
  : UmamiFeeder * option string :=
  if String.eqb (umamiHost h) "" then (h, Some "umamiHost is not set")
  else
    let login : UmamiFeeder * option string :=
      if nonempty (UmamiUsername config) && nonempty (UmamiPassword config) then
        match token with
        | Err e => (h, Some ("failed to get token: " +:+ e))
        | Ok tok =>
          if String.eqb tok "" then (h, Some "retrieved token is empty")
          else (set_umamiToken (debugf h "token received %s") tok, None)
        end
      else (h, None) in
    match login with
    | (h1, Some e) => (h1, Some e)
    | (h1, None) =>
      if String.eqb (umamiToken h1) "" && (size (websites h1) =? 0)
      then (h1, Some "either umamiToken or websites must be set")
      else if String.eqb (umamiToken h1) "" && createNewWebsites h1
      then (h1, Some "umamiToken is required to create new websites")
      else if nonempty (umamiToken h1) then
        match fetched with
        | Err e => (h1, Some ("failed to fetch websites: " +:+ e))
        | Ok sites =>
          (debugf (set_websites h1 (mergeWebsites (websites h1) sites))
                  "websites fetched: %v", None)
        end
      else (h1, None)
    end.

(** What one pass of the [select] of [retryConnection] receives: the timer of
    [time.After(currentDelay)] together with the answers the collector gives
    to this attempt, or the cancellation of the context. *)
Inductive RetryInput : Type :=
| TimerElapsed (token : result string) (fetched : result (list Website_))
| RetryCtxDone.

Inductive RetryStatus : Type :=
| RetryWaiting        (* still in the [select], the inputs are used up *)
| RetryExited.        (* the goroutine returned *)

(** A run of [retryConnection]: the instance at its end, whether the
    goroutine returned, the delays handed to [time.After] in order, the
    number of calls of [connect], whether [verifyConfig] was called, whether
    [go h.startWorker(ctx)] was executed, and the inputs not consumed. *)
Record RetryRun `{GoStd} : Type := mkRetryRun {
  r_h : UmamiFeeder;
  r_status : RetryStatus;
  r_delays : list Z;
  r_attempts : nat;
  r_verified : bool;
  r_workerStarted : bool;
  r_rest : list RetryInput
}.

Definition retry_step `{GoStd} (d : Z) (r : RetryRun) : RetryRun :=
  mkRetryRun _ (r_h r) (r_status r) (d :: r_delays r) (S (r_attempts r))
             (r_verified r) (r_workerStarted r) (r_rest r).

Definition with_rest `{GoStd} (r : RetryRun) (rest : list RetryInput) : RetryRun :=
  mkRetryRun _ (r_h r) (r_status r) (r_delays r) (r_attempts r)
             (r_verified r) (r_workerStarted r) rest.

(** The loop of [retryConnection], entered with the attempt counter
    [retryAttempt]. *)
Fixpoint retryLoop `{GoStd} (h : UmamiFeeder) (config : Config)
    (retryAttempt : Z) (inputs : list RetryInput) : RetryRun :=
  let delay := currentDelay retryAttempt in
  let h0 := if (0 <? retryAttempt)%Z
            then debugf h "Next connection attempt in %v (attempt #%d)." else h in
  match inputs with
  | [] => mkRetryRun _ h0 RetryWaiting [delay] 0 false false []
  | RetryCtxDone :: rest =>
    mkRetryRun _
      (debugf h0 "Context canceled during retryConnection, stopping connection retries.")
      RetryExited [delay] 0 false false rest
  | TimerElapsed token fetched :: rest =>
    let retryAttempt' := Time.wrap64 (retryAttempt + 1) in
    let h1 := debugf h0 "Attempting to connect to Umami (attempt #%d)" in
    match connect h1 config token fetched with
    | (h2, None) =>
      let h3 := debugf h2 "Successfully connected to Umami. Verifying configuration..." in
      match verifyConfig h3 config with
      | (h4, None) =>
        let h5 := debugf h4 "Configuration verified. Enabling plugin and starting worker." in
        mkRetryRun _ (set_isEnabled h5 true) RetryExited [delay] 1 true true rest
      | (h4, Some e) =>
        let h5 := error h4 ("Configuration error, the plugin is disabled: " +:+ e) in
        mkRetryRun _ (set_isEnabled h5 false) RetryExited [delay] 1 true false rest
      end
    | (h2, Some e) =>
      retry_step delay
        (retryLoop (error h2 ("Failed to reconnect to Umami: " +:+ e))
                   config retryAttempt' rest)
    end
  end.

(** [retryConnection]: [retryAttempt := 0], then the loop. *)
Definition retryConnection `{GoStd} (h : UmamiFeeder) (config : Config)
    (inputs : list RetryInput) : RetryRun :=
  retryLoop h config 0 inputs.

(** A Go call that either returns or panics. *)
Inductive outcome (A : Type) : Type :=
| Returns (a : A)
| Panics (v : string).
Arguments Returns {A} a.
Arguments Panics {A} v.

(** [New]: the instance, and whether [go h.retryConnection(ctx, config)] was
    started.  [make(chan *UmamiEvent, n)] panics for a negative [n]. *)
Definition New `{GoStd} (config : Config) (name_ : string) : outcome (UmamiFeeder * bool) :=
  if (QueueSize config <? 0)%Z then Panics "makechan: size out of range"
  else
    let h := mkUmamiFeeder _ name_ (Debug config)
               (Enabled config && negb (Disabled config)) (Some [])
               (Chan.make (Z.to_nat (QueueSize config)))
               (BatchSize config) (BatchMaxWait config)
               (UmamiHost config) (UmamiToken config) (UmamiTeamId config)
               (Websites config) (CreateNewWebsites config)
               (TrackErrors config) (TrackAllResources config) (TrackExtensions config)
               (IgnoreHosts config) (IgnoreUserAgents config) [] []
               (HeaderIp config) (CaptureHeaders config) in
    if isEnabled h then Returns (set_isEnabled h false, true)
    else Returns (h, false).

(** ** Site resolver, one caller at a time (umami_websites.go)

    [created] is what [createWebsite] answers, should the call be made.  The
    result is the identifier, the instance afterwards, and whether the
    remote call was made. *)
Definition getWebsiteId `{GoStd} (h : UmamiFeeder) (hostname : string)
    (created : result Website_) : string * UmamiFeeder * bool :=
  match websites h !! hostname with                (* under the read lock *)
  | Some websiteId => (websiteId, h, false)
  | None =>
    match websites h !! hostname with              (* again, under the write lock *)
    | Some websiteId => (websiteId, h, false)
    | None =>
      match created with
      | Err e => (EmptyString, error h ("failed to create website: " +:+ e), true)
      | Ok website =>
        let h1 := set_websites h (<[Domain website := ID website]> (websites h)) in
        (ID website, debugf h1 "website created '%s': %s", true)
      end
    end
  end.

(** ** Producer: [submitToFeed] *)

(** [event.Data[key] = v]; on the nil map Go panics, which [submitToFeed]
    never reaches because it makes the map whenever it is going to write. *)
Definition data_set (d : option (gmap string DataValue)) (key : string) (v : DataValue)
  : option (gmap string DataValue) :=
  match d with
  | Some m => Some (<[key := v]> m)
  | None => None
  end.

(** The loop over [h.captureHeaders].  Go visits the map in an unspecified
    order; the order of [map_to_list] stands for the one taken. *)
Definition captureInto `{GoStd} (req : Request)
    (acc : UmamiFeeder * option (gmap string DataValue)) (kv : string * string)
  : UmamiFeeder * option (gmap string DataValue) :=
  let headerValue := Header_Get req (fst kv) in
  if nonempty headerValue
  then (debugf (fst acc) "captured header %s=%s as %s",
        data_set (snd acc) (snd kv) (DString headerValue))
  else acc.

(** [submitToFeed(req, statusCode)]; [unixNow] is [time.Now().Unix()] and
    [created] the answer of the collector to a "create site" call. *)
Definition submitToFeed `{GoStd} (h : UmamiFeeder) (req : Request) (statusCode : Z)
    (unixNow : Z) (created : result Website_) : UmamiFeeder :=
  let hostname := parseDomainFromHost (Host req) in
  let '(websiteId, h1, _) := getWebsiteId h hostname created in
  if String.eqb websiteId "" then
    error h1 ("tracking skipped, websiteId is unknown: " +:+ hostname)
  else
    let hasData := (400 <=? statusCode)%Z || (0 <? size (captureHeaders h1)) in
    let data0 : option (gmap string DataValue) := if hasData then Some ∅ else None in
    let '(h2, data1) :=
      fold_left (captureInto req) (map_to_list (captureHeaders h1)) (h1, data0) in
    let data2 := if (400 <=? statusCode)%Z
                 then data_set data1 "status_code" (DInt statusCode) else data1 in
    let event :=
      {| Hostname := hostname;
         Language := parseAcceptLanguage (Header_Get req "Accept-Language");
         Referrer := Request_Referer req;
         Url := URL_String req;
         Ip := extractRemoteIP req;
         UserAgent := Header_Get req "User-Agent";
         Timestamp := unixNow;
         Website := websiteId;
         Data := data2 |} in
    match Chan.selectnbsend (queue h2) event with
    | Chan.Sent q' => set_queue h2 q'
    | Chan.NotSent => error h2 "failed to submit event: queue full"
    | Chan.Parked => h2      (* a send under [select] with [default] never parks *)
    end.

(** ** Consumer: [reportEventsToUmami], [umamiEventFeeder], [startWorker] *)

(** What the [select] of the worker loop receives in one pass. *)
Inductive Select : Type :=
| SelCtxDone                       (* [<-ctx.Done()] *)
| SelRecv (event : UmamiEvent)     (* [event := <-h.queue] *)
| SelTimeout.                      (* [<-timeout.C] *)

(** What [sendRequest] does with a batch: answer, fail, or fault. *)
Inductive SendOutcome : Type :=
| SendOk (status body : string)
| SendErr (err : string)
| SendPanic (v : string).

(** One pass of the loop as the environment drives it: the wall-clock time
    at which the [select] fires, the case taken, and the behaviour of the
    collector should this pass flush. *)
Record Tick : Type := mkTick {
  now : Z;
  sel : Select;
  send : SendOutcome
}.

(** A call of [reportEventsToUmami]: when, to which URL, and the batch, each
    element still tagged with the time it was appended to the batch (the tag
    is bookkeeping of the model; the request body is [rp_body]). *)
Record Report : Type := mkReport {
  rp_at : Z;
  rp_url : string;
  rp_events : list (Z * SendBody)
}.

Definition rp_body (r : Report) : list SendBody := map snd (rp_events r).

(** The worker: the instance (for its log), the calls of
    [reportEventsToUmami] so far, and the locals of [umamiEventFeeder]:
    the batch, each element tagged with the time it was appended, and the
    time at which the timer was last armed ([NewTimer] or [Reset]); the
    timer fires [batchMaxWait] later. *)
Record Worker `{GoStd} : Type := mkWorker {
  w_h : UmamiFeeder;
  w_reports : list Report;
  w_batch : list (Z * SendBody);
  w_armed : Z
}.

Definition timer_deadline `{GoStd} (w : Worker) : Z := (w_armed w + batchMaxWait (w_h w))%Z.

(** [reportEventsToUmami]: the panic value if the call faults ([None] when
    it returns), the instance and the calls made afterwards. *)
Definition reportEventsToUmami `{GoStd} (h : UmamiFeeder) (reports : list Report)
    (at_ : Z) (events : list (Z * SendBody)) (o : SendOutcome)
  : option string * UmamiFeeder * list Report :=
  let h1 := debugf h "reporting %d events" in
  let reports1 := reports ++ [mkReport at_ (umamiHost h +:+ "/api/batch") events] in
  match o with
  | SendPanic v => (Some v, h1, reports1)
  | SendErr e => (None, error h1 ("failed to send tracking: " +:+ e), reports1)
  | SendOk _ _ => (None, if isDebug h1 then debugf h1 "%v: %s" else h1, reports1)
  end.

(** How one pass of the loop ends. *)
Inductive IterResult `{GoStd} : Type :=
| Continue (w : Worker)                (* back to the [select] *)
| ReturnNil (w : Worker)               (* [return nil] *)
| Panic (v : string) (w : Worker).     (* a fault unwinds the function *)

(** The body of the [for] loop of [umamiEventFeeder]. *)
Definition feeder_iter `{GoStd} (w : Worker) (t : Tick) : IterResult :=
  let h := w_h w in
  match sel t with
  | SelCtxDone =>
    let h1 := debugf h "worker shutting down (canceled)" in
    if 0 <? length (w_batch w) then
      match reportEventsToUmami h1 (w_reports w) (now t) (w_batch w) (send t) with
      | (Some v, h2, reports) => Panic v (mkWorker _ h2 reports (w_batch w) (w_armed w))
      | (None, h2, reports) => ReturnNil (mkWorker _ h2 reports (w_batch w) (w_armed w))
      end
    else ReturnNil (mkWorker _ h1 (w_reports w) (w_batch w) (w_armed w))
  | SelRecv event =>
    let batch := w_batch w ++ [(now t, mkSendBody event "event")] in
    if (batchSize h <=? Z.of_nat (length batch))%Z then
      match reportEventsToUmami h (w_reports w) (now t) batch (send t) with
      | (Some v, h2, reports) => Panic v (mkWorker _ h2 reports batch (w_armed w))
      | (None, h2, reports) => Continue (mkWorker _ h2 reports [] (now t))
      end
    else Continue (mkWorker _ h (w_reports w) batch (w_armed w))
  | SelTimeout =>
    if 0 <? length (w_batch w) then
      match reportEventsToUmami h (w_reports w) (now t) (w_batch w) (send t) with
      | (Some v, h2, reports) => Panic v (mkWorker _ h2 reports (w_batch w) (w_armed w))
      | (None, h2, reports) => Continue (mkWorker _ h2 reports [] (now t))
      end
    else Continue (mkWorker _ h (w_reports w) (w_batch w) (now t))
  end.

(** The [for] loop over the passes the environment offers; with the passes
    used up the worker sits in its [select] ([Continue]). *)
Fixpoint feeder_loop `{GoStd} (w : Worker) (ticks : list Tick) : IterResult * list Tick :=
  match ticks with
  | [] => (Continue w, [])
  | t :: rest =>
    match feeder_iter w t with
    | Continue w' => feeder_loop w' rest
    | r => (r, rest)
    end
  end.

(** How a call of [umamiEventFeeder] stands: still in its loop, or returned
    with an [error] ([None] is nil). *)
Inductive FeederStatus : Type :=
| Blocked
| Returned (err : option string).

(** [umamiEventFeeder], entered at time [start].  [make([]*SendBody, 0, n)]
    panics for a negative [n].  The deferred function recovers a panic and
    prints it; the function has an unnamed result, so after the recovery it
    returns the zero value of [error], nil. *)
Definition umamiEventFeeder `{GoStd} (h : UmamiFeeder) (reports : list Report)
    (start : Z) (ticks : list Tick) : FeederStatus * Worker * list Tick :=
  if (batchSize h <? 0)%Z then
    (Returned None,
     mkWorker _ (error h "panic: runtime error: makeslice: cap out of range") reports [] start,
     ticks)
  else
    match feeder_loop (mkWorker _ h reports [] start) ticks with
    | (Continue w, rest) => (Blocked, w, rest)
    | (ReturnNil w, rest) => (Returned None, w, rest)
    | (Panic v w, rest) =>
      (Returned None,
       mkWorker _ (error (w_h w) ("panic: " +:+ v)) (w_reports w) (w_batch w) (w_armed w),
       rest)
    end.

(** How [startWorker] stands after the passes offered. *)
Inductive WorkerRun `{GoStd} : Type :=
| WorkerRunning (w : Worker)                        (* inside [umamiEventFeeder] *)
| WorkerExited (w : Worker) (rest : list Tick)      (* [startWorker] returned *)
| WorkerSpinning (w : Worker).                      (* more restarts than [fuel] *)

(** [startWorker]: call [umamiEventFeeder] again while it returns an error.
    [fuel] bounds the number of calls; [start] is the time of entry. *)
Fixpoint startWorker `{GoStd} (fuel : nat) (h : UmamiFeeder) (reports : list Report)
    (start : Z) (ticks : list Tick) : WorkerRun :=
  match fuel with
  | O => WorkerSpinning (mkWorker _ h reports [] start)
  | S fuel' =>
    match umamiEventFeeder h reports start ticks with
    | (Blocked, w, _) => WorkerRunning w
    | (Returned (Some e), w, rest) =>
      startWorker fuel' (error (w_h w) ("worker failed: " +:+ e)) (w_reports w)
                  (match rest with t :: _ => now t | [] => start end) rest
    | (Returned None, w, rest) => WorkerExited w rest
    end
  end.

(** ** Site resolver under concurrency

    [getWebsiteId(h, hostname)] called by several goroutines at once, for one
    hostname.  Each goroutine is at a program point; a step runs one
    goroutine up to its next operation on the mutex, the cache or the
    collector.  The collector's answer to the [k]-th "create site" call
    (counting from 0) is [remote k hostname].  [sync.RWMutex] also holds new
    readers back while a writer waits; that removes interleavings and adds
    none, so the model admits every run of the code. *)

Module Resolver.

Inductive PC : Type :=
| AtRLock                          (* before [h.websitesMutex.RLock()] *)
| AtLookup                         (* read lock held, before [h.websites[hostname]] *)
| AtRUnlock (r : option string)    (* read lock held, before [RUnlock()] *)
| AtLock                           (* the lookup missed, before [Lock()] *)
| AtRecheck                        (* write lock held, before the second lookup *)
| AtCreate                         (* write lock held, before [createWebsite] *)
| AtUnlock (ret : string)          (* write lock held, returning through the deferred [Unlock()] *)
| Done (ret : string).             (* returned [ret] *)

(** The shared part of the instance and the goroutines. *)
Record State : Type := mkState {
  cache : gmap string string;        (* [h.websites] *)
  readers : nat;                     (* holders of the read lock *)
  writer : bool;                     (* the write lock is held *)
  creates : list string;             (* hostnames sent to [createWebsite], in order *)
  errors : list string;              (* messages passed to [h.error] *)
  pcs : list PC
}.

Definition init (websites0 : gmap string string) (n : nat) : State :=
  mkState websites0 0 false [] [] (replicate n AtRLock).

Definition set_pc (st : State) (tid : nat) (pc : PC) : list PC := <[tid := pc]> (pcs st).

(** One step of goroutine [tid]; [None] when it is blocked on the mutex, has
    returned, or does not exist. *)
Definition step (remote : nat -> string -> result Website_) (hostname : string)
    (st : State) (tid : nat) : option State :=
  match pcs st !! tid with
  | None => None
  | Some pc =>
    match pc with
    | AtRLock =>
      if writer st then None
      else Some (mkState (cache st) (S (readers st)) (writer st) (creates st) (errors st)
                         (set_pc st tid AtLookup))
    | AtLookup =>
      Some (mkState (cache st) (readers st) (writer st) (creates st) (errors st)
                    (set_pc st tid (AtRUnlock (cache st !! hostname))))
    | AtRUnlock r =>
      Some (mkState (cache st) (readers st - 1) (writer st) (creates st) (errors st)
                    (set_pc st tid (match r with
                                    | Some websiteId => Done websiteId
                                    | None => AtLock
                                    end)))
    | AtLock =>
      if writer st || (0 <? readers st) then None
      else Some (mkState (cache st) (readers st) true (creates st) (errors st)
                         (set_pc st tid AtRecheck))
    | AtRecheck =>
      Some (mkState (cache st) (readers st) (writer st) (creates st) (errors st)
                    (set_pc st tid (match cache st !! hostname with
                                    | Some websiteId => AtUnlock websiteId
                                    | None => AtCreate
                                    end)))
    | AtCreate =>
      match remote (length (creates st)) hostname with
      | Err e =>
        Some (mkState (cache st) (readers st) (writer st) (creates st ++ [hostname])
                      (errors st ++ ["failed to create website: " +:+ e])
                      (set_pc st tid (AtUnlock EmptyString)))
      | Ok website =>
        Some (mkState (<[Domain website := ID website]> (cache st)) (readers st) (writer st)
                      (creates st ++ [hostname]) (errors st)
                      (set_pc st tid (AtUnlock (ID website))))
      end
    | AtUnlock ret =>
      Some (mkState (cache st) (readers st) false (creates st) (errors st)
                    (set_pc st tid (Done ret)))
    | Done _ => None
    end
  end.

(** A schedule names the goroutine to run at each step; a goroutine that
    cannot move when named leaves the state as it is. *)
Fixpoint run (remote : nat -> string -> result Website_) (hostname : string)
    (st : State) (schedule : list nat) : State :=
  match schedule with
  | [] => st
  | tid :: rest =>
    match step remote hostname st tid with
    | Some st' => run remote hostname st' rest
    | None => run remote hostname st rest
    end
  end.

Definition holdsWrite (pc : PC) : bool :=
  match pc with
  | AtRecheck | AtCreate | AtUnlock _ => true
  | _ => false
  end.

Definition holdsRead (pc : PC) : bool :=
  match pc with
  | AtLookup | AtRUnlock _ => true
  | _ => false
  end.

(** The identifier a goroutine has settled on, if any. *)
Definition settled (pc : PC) : option string :=
  match pc with
  | AtRUnlock (Some websiteId) => Some websiteId
  | AtUnlock ret => Some ret
  | Done ret => Some ret
  | _ => None
  end.

Definition all_returned (st : State) : bool :=
  forallb (fun pc => match pc with Done _ => true | _ => false end) (pcs st).

End Resolver.

(** ** An implementation of [GoStd] for running the model on examples

    IPv4 in dotted decimal, patterns that are a literal with an optional
    leading [^] and trailing [$], ASCII case folding, ASCII blanks. *)

Module ExampleStd.

Definition is_digit (c : ascii) : bool :=
  let b := GoStrings.byte_val c in (0x30 <=? b)%Z && (b <=? 0x39)%Z.

Fixpoint parse_digits (s : string) (acc : Z) : option Z :=
  match s with
  | EmptyString => Some acc
  | String c s' =>
    if is_digit c then parse_digits s' (acc * 10 + (GoStrings.byte_val c - 0x30))%Z
    else None
  end.

(** A decimal field: digits only, not empty, no leading zero, at most three
    digits, at most [max]. *)
Definition parse_field (max : Z) (s : string) : option Z :=
  match s with
  | EmptyString => None
  | String c s' =>
    if Ascii.eqb c "0" && negb (String.eqb s' "") then None
    else if 3 <? String.length s then None
    else match parse_digits s 0 with
         | Some v => if (v <=? max)%Z then Some v else None
         | None => None
         end
  end.

Definition ParseAddr (s : string) : result Z :=
  match map (parse_field 255) (GoStrings.SplitByte s ".") with
  | [Some a; Some b; Some c; Some d] => Ok (((a * 256 + b) * 256 + c) * 256 + d)%Z
  | _ => Err ("ParseAddr(" +:+ s +:+ "): unable to parse IP")
  end.

(** Cut at the last occurrence of [sep]. *)
Fixpoint cut_last (s : string) (sep : ascii) : option (string * string) :=
  match s with
  | EmptyString => None
  | String a s' =>
    match cut_last s' sep with
    | Some (l, r) => Some (String a l, r)
    | None => if Ascii.eqb a sep then Some (EmptyString, s') else None
    end
  end.

Definition ParsePrefix (s : string) : result (Z * Z) :=
  match cut_last s "/" with
  | None => Err ("netip.ParsePrefix(" +:+ s +:+ "): no '/'")
  | Some (ip, bits) =>
    match ParseAddr ip, parse_field 32 bits with
    | Ok a, Some n => Ok (a, n)
    | Err e, _ => Err ("netip.ParsePrefix(" +:+ s +:+ "): " +:+ e)
    | _, None => Err ("netip.ParsePrefix(" +:+ s +:+ "): bad bits after slash")
    end
  end.

Definition Contains (p : Z * Z) (ip : Z) : bool :=
  (Z.shiftr ip (32 - snd p) =? Z.shiftr (fst p) (32 - snd p))%Z.

Definition Compile (pattern : string) : result string :=
  if GoStrings.Contains pattern "(" && negb (GoStrings.Contains pattern ")")
  then Err "error parsing regexp: missing closing )"
  else Ok pattern.

Definition MatchString (pattern s : string) : bool :=
  match pattern with
  | String "^" lit =>
    if GoStrings.HasSuffix lit "$"
    then String.eqb s (GoStrings.TrimSuffix lit "$")
    else GoStrings.HasPrefix s lit
  | _ =>
    if GoStrings.HasSuffix pattern "$"
    then GoStrings.HasSuffix s (GoStrings.TrimSuffix pattern "$")
    else GoStrings.Contains s pattern
  end.

Definition is_blank (c : ascii) : bool :=
  Ascii.eqb c " " || Ascii.eqb c "009".

Fixpoint trim_left (s : string) : string :=
  match s with
  | String c s' => if is_blank c then trim_left s' else s
  | EmptyString => EmptyString
  end.

Fixpoint trim_right (s : string) : string :=
  match s with
  | EmptyString => EmptyString
  | String c s' =>
    match trim_right s' with
    | EmptyString => if is_blank c then EmptyString else String c EmptyString
    | r => String c r
    end
  end.

Definition TrimSpace (s : string) : string := trim_right (trim_left s).

Definition SplitHostPort (hostport : string) : result (string * string) :=
  match cut_last hostport ":" with
  | Some (host, port) => Ok (host, port)
  | None => Err ("address " +:+ hostport +:+ ": missing port in address")
  end.

#[global] Instance std : GoStd := {|
  netip_Addr := Z;
  netip_Prefix := Z * Z;
  netip_ParseAddr := ParseAddr;
  netip_ParsePrefix := ParsePrefix;
  Prefix_IsValid := fun _ => true;
  Prefix_Contains := Contains;
  regexp_Regexp := string;
  regexp_Compile := Compile;
  Regexp_MatchString := MatchString;
  unicode_foldReaches := fun _ _ => false;
  strings_MapToLower := fun s => s;
  strings_TrimSpace := TrimSpace;
  net_SplitHostPort := SplitHostPort
|}.

(** A request for [path] on [host] without headers, and an event for a site. *)
Definition no_headers : string -> string := fun _ => EmptyString.

Definition request (host path : string) : Request :=
  mkRequest host "192.0.2.7:51324" no_headers path path.

Definition event0 (website : string) : UmamiEvent :=
  mkUmamiEvent website "example.org" "" "" "/" "" "" 0 None.

End ExampleStd.

(** ** Predicates used in the statements *)

(** An entry of [ignoreIPs] that [verifyConfig] rejects: neither a prefix nor,
    with "/32" appended, an address; and an entry of [ignoreURLs] that does
    not compile. *)
Definition badIgnoreIP `{GoStd} (s : string) : bool := is_err (parseIgnoreIP s).
Definition badIgnoreURL `{GoStd} (s : string) : bool := is_err (regexp_Compile s).

Definition config_invalid `{GoStd} (config : Config) : Prop :=
  Exists (fun s => badIgnoreIP s = true) (IgnoreIPs config)
  \/ Exists (fun s => badIgnoreURL s = true) (IgnoreURLs config).

(** The default configuration with credentials, one static site mapping and
    the [ignoreIPs] entry of the repository's test [TestShouldTrackInvalidIp]. *)
Definition config_bad_ip : Config :=
  mkConfig true false false 1000 20 (5 * Time.Second) "http://umami:3000" ""
    "admin" "umami" ""
    {[ "example.org" := "site-1" ]} false false false [] [] [] []
    ["127.0.0.1-127.0.0.10"] "X-Real-IP" ∅.

(** A host name without a colon. *)
Definition no_colon (h : string) : bool :=
  GoStrings.string_forallb (fun c => negb (Ascii.eqb c ":")) h.

(** A plugin instance with one static site, and variants of it with an
    ignore rule. *)
Definition feeder_site : UmamiFeeder :=
  mkUmamiFeeder ExampleStd.std "umami-feeder" false true (Some [])
    (Chan.make 1000) 20 (5 * Time.Second) "http://umami:3000" "" ""
    {[ "example.org" := "site-1" ]} false
    false false [] [] [] [] [] "X-Real-IP" ∅.

Definition feeder_ignore_ip : UmamiFeeder :=
  set_ignorePrefixes feeder_site [(167772161, 24)%Z].

Definition feeder_ignore_localhost : UmamiFeeder :=
  mkUmamiFeeder ExampleStd.std "umami-feeder" false true (Some [])
    (Chan.make 1000) 20 (5 * Time.Second) "http://umami:3000" "" ""
    {[ "localhost" := "site-1" ]} false
    false false [] ["localhost"] [] [] [] "X-Real-IP" ∅.

(** [h'] has the queue of [h], and a logger if [h] has one: what the steps
    of a producer before its send leave untouched. *)
Definition same_queue `{GoStd} (h h' : UmamiFeeder) : Prop :=
  queue h' = queue h /\ (logHandler h <> None -> logHandler h' <> None).

(** Two states of the queue of [feeder_site]: a buffer of two that is full,
    and no buffer ([queueSize = 0]) with the worker parked in its receive. *)
Definition feeder_full : UmamiFeeder :=
  set_queue feeder_site
    (Chan.mkChan [ExampleStd.event0 "site-1"; ExampleStd.event0 "site-1"] 2 0 []).

Definition feeder_unbuffered : UmamiFeeder :=
  set_queue feeder_site (Chan.mkChan [] 0 1 []).

(** The worker an [IterResult] carries. *)
Definition worker_of `{GoStd} (r : IterResult) : Worker :=
  match r with
  | Continue w => w
  | ReturnNil w => w
  | Panic _ w => w
  end.

(** Every element of the batch was appended after the timer was last armed,
    and not after [last]. *)
Definition batch_fresh `{GoStd} (w : Worker) (last : Z) : Prop :=
  (w_armed w <= last)%Z
  /\ Forall (fun te => (w_armed w <= fst te <= last)%Z) (w_batch w).

(** A flush whose elements all waited at most [maxWait] in the batch. *)
Definition report_in_time (maxWait : Z) (r : Report) : Prop :=
  Forall (fun te => (fst te <= rp_at r <= fst te + maxWait)%Z) (rp_events r).

(** The report a flush of [batch] at time [at_] adds. *)
Definition flush_of `{GoStd} (w : Worker) (at_ : Z) (batch : list (Z * SendBody)) : Report :=
  mkReport at_ (umamiHost (w_h w) +:+ "/api/batch") batch.

(** A worker with a batch size of one and of three, and passes of its loop:
    an event arrives and the outbound call faults; an event arrives; the
    timer fires; the context is cancelled. *)
Definition feeder_batch (n : Z) : UmamiFeeder :=
  mkUmamiFeeder ExampleStd.std "umami-feeder" false true (Some [])
    (Chan.make 1000) n (5 * Time.Second) "http://umami:3000" "" ""
    {[ "example.org" := "site-1" ]} false
    false false [] [] [] [] [] "X-Real-IP" ∅.

Definition tick_recv_panic (at_ : Z) : Tick :=
  mkTick at_ (SelRecv (ExampleStd.event0 "site-1"))
         (SendPanic "runtime error: invalid memory address or nil pointer dereference").

Definition tick_recv (at_ : Z) : Tick :=
  mkTick at_ (SelRecv (ExampleStd.event0 "site-1")) (SendOk "200 OK" "{}").

Definition tick_timeout (at_ : Z) : Tick :=
  mkTick at_ SelTimeout (SendOk "200 OK" "{}").


(** The settings the worker reads are the same in [h] and [h']. *)
Definition same_settings `{GoStd} (h h' : UmamiFeeder) : Prop :=
  batchSize h' = batchSize h /\ batchMaxWait h' = batchMaxWait h
  /\ umamiHost h' = umamiHost h.

(** Statements about the resolver under concurrency. *)

Module ResolverSpec.
Import Resolver.

(** The collector creates the site and answers with the hostname it was
    given. *)
Definition creates_site (remote : nat -> string -> result Website_) (hostname : string) : Prop :=
  forall k, exists website, remote k hostname = Ok website /\ Domain website = hostname.

(** The invariant of the resolver for one hostname. *)
Record Inv (hostname : string) (st : State) : Prop := mkInv {
  inv_writer : forall i pc, pcs st !! i = Some pc -> holdsWrite pc = true -> writer st = true;
  inv_single : forall i j pci pcj, pcs st !! i = Some pci -> pcs st !! j = Some pcj ->
               holdsWrite pci = true -> holdsWrite pcj = true -> i = j;
  inv_create : forall i, pcs st !! i = Some AtCreate -> cache st !! hostname = None;
  inv_miss : cache st !! hostname = None ->
             creates st = [] /\ forall i pc, pcs st !! i = Some pc -> settled pc = None;
  inv_hit : forall websiteId, cache st !! hostname = Some websiteId ->
            length (creates st) <= 1
            /\ forall i pc x, pcs st !! i = Some pc -> settled pc = Some x -> x = websiteId
}.

(** Lock accounting: [readers] counts the goroutines between [RLock] and
    [RUnlock], and the write lock is held by some goroutine whenever it is
    held at all. *)
Definition LockInv (st : State) : Prop :=
  readers st = length (List.filter holdsRead (pcs st))
  /\ (writer st = true -> exists i pc, pcs st !! i = Some pc /\ holdsWrite pc = true).

(** The number of steps a goroutine at [pc] still has to make. *)
Definition rank (pc : PC) : nat :=
  match pc with
  | AtRLock => 7
  | AtLookup => 6
  | AtRUnlock _ => 5
  | AtLock => 4
  | AtRecheck => 3
  | AtCreate => 2
  | AtUnlock _ => 1
  | Done _ => 0
  end.

Definition measure (st : State) : nat := list_sum (map rank (pcs st)).

(** Two collectors: one that creates every site it is asked for, and one
    whose first call times out. *)
Definition remote_ok : nat -> string -> result Website_ :=
  fun _ hostname => Ok (mkWebsite "site-1" hostname "" hostname).

Definition remote_flaky : nat -> string -> result Website_ :=
  fun k hostname =>
    if k =? 0 then Err "context deadline exceeded"
    else Ok (mkWebsite "site-2" hostname "" hostname).

End ResolverSpec.

(** The instances and requests of the repository's tests: the zero instance
    [&UmamiFeeder{}] with some fields set, [verifyConfig] applied to it, and
    a request built from a URL or carrying one header. *)
Definition feeder_zero : UmamiFeeder :=
  mkUmamiFeeder ExampleStd.std "" false false None (Chan.make 0) 0 0 "" "" "" ∅ false
    false false [] [] [] [] [] "" ∅.

Definition feeder_test_hosts : UmamiFeeder :=
  mkUmamiFeeder ExampleStd.std "" false false None (Chan.make 0) 0 0 "" "" "" ∅ true
    false false [] ["localhost"; "internal.example.com"] [] [] [] "" ∅.

Definition feeder_test_agents : UmamiFeeder :=
  mkUmamiFeeder ExampleStd.std "" false false None (Chan.make 0) 0 0 "" "" "" ∅ true
    false false [] [] ["Googlebot"; "Uptime-Kuma"] [] [] "" ∅.

Definition config_ignore (ips urls : list string) : Config :=
  mkConfig false false false 0 0 0 "" "" "" "" "" ∅ false false false [] [] urls [] ips "" ∅.

Definition feeder_test_ips : UmamiFeeder :=
  fst (verifyConfig feeder_zero (config_ignore ["127.0.0.1"; "10.0.0.1/24"] [])).

Definition feeder_test_urls : UmamiFeeder :=
  fst (verifyConfig feeder_zero (config_ignore [] ["/about"; "^/admin"; "world$"])).

Definition request_from (clientIP : string) : Request :=
  mkRequest "localhost" "" (fun key => if String.eqb key "" then clientIP else "") "" "".

Definition request_agent (ua : string) : Request :=
  mkRequest "localhost" ""
            (fun key => if String.eqb key "User-Agent" then ua else "") "/" "/".

(** ** The worker with its timer and its inputs

    What reaches the worker from outside: an event that becomes available on
    the queue, or the cancellation of the context, each at a time.  The
    third case of the [select] is not an input: [timeout.C] delivers when
    the timer of the loop is due, [batchMaxWait] after it was last armed by
    [time.NewTimer] or [timeout.Reset]. *)
Inductive Input : Type :=
| InEvent (at_ : Z) (event : UmamiEvent)
| InCancel (at_ : Z).

Definition input_time (i : Input) : Z :=
  match i with
  | InEvent at_ _ => at_
  | InCancel at_ => at_
  end.

(** Inputs in order of time, none earlier than [last]. *)
Fixpoint in_order (last : Z) (inputs : list Input) : Prop :=
  match inputs with
  | [] => True
  | i :: rest => (last <= input_time i)%Z /\ in_order (input_time i) rest
  end.

(** The events among the inputs, as the worker appends them to its batch. *)
Definition input_events (inputs : list Input) : list (Z * SendBody) :=
  flat_map (fun i => match i with
                     | InEvent at_ event => [(at_, mkSendBody event "event")]
                     | InCancel _ => []
                     end) inputs.

(** The pass the [select] takes on the timer case, and on an input.  The
    collector answers the [k]-th outbound call with [collector k]. *)
Definition timer_tick `{GoStd} (collector : nat -> SendOutcome) (w : Worker) : Tick :=
  mkTick (timer_deadline w) SelTimeout (collector (length (w_reports w))).

Definition input_tick `{GoStd} (collector : nat -> SendOutcome) (w : Worker) (i : Input)
  : Tick :=
  mkTick (input_time i)
         (match i with
          | InEvent _ event => SelRecv event
          | InCancel _ => SelCtxDone
          end)
         (collector (length (w_reports w))).

(** The number of times the timer is due up to the time [upto], for a
    positive [batchMaxWait]: it is due at [timer_deadline w] and, re-armed
    in the pass that serves it, every [batchMaxWait] from then on. *)
Definition expiries `{GoStd} (w : Worker) (upto : Z) : nat :=
  Z.to_nat ((upto - timer_deadline w) / batchMaxWait (w_h w) + 1).

(** The worker alone with its timer: [n] passes on the timer case, each at
    the moment the timer is due. *)
Fixpoint serve_timer `{GoStd} (n : nat) (collector : nat -> SendOutcome) (w : Worker)
  : IterResult :=
  match n with
  | O => Continue w
  | S n' =>
    match feeder_iter w (timer_tick collector w) with
    | Continue w' => serve_timer n' collector w'
    | r => r
    end
  end.

(** The worker, its timer and its inputs, watched up to the time [until].
    The worker is not kept waiting: each pass of its loop is taken at the
    moment its case becomes ready and, its outbound call included, takes no
    time, so the timer is served whenever it is due before the next input.
    The delay of the scheduler and the duration of a call are not part of
    the model.  When the timer and an input are ready at
    the same moment [t] the [select] may take either; [prefer_timer t]
    says which.  The result is how the loop stands and the inputs it has
    not taken. *)
Fixpoint serve `{GoStd} (collector : nat -> SendOutcome) (prefer_timer : Z -> bool)
    (w : Worker) (inputs : list Input) (until : Z) : IterResult * list Input :=
  match inputs with
  | [] => (serve_timer (expiries w until) collector w, [])
  | i :: rest =>
    let upto := if prefer_timer (input_time i) then input_time i
                else (input_time i - 1)%Z in
    match serve_timer (expiries w upto) collector w with
    | Continue w1 =>
      match feeder_iter w1 (input_tick collector w1 i) with
      | Continue w2 => serve collector prefer_timer w2 rest until
      | r => (r, rest)
      end
    | r => (r, inputs)
    end
  end.

(** What the worker has taken is in its reports or in its batch, every
    report was made in time, the batch is younger than the timer, and the
    timer is not overdue at [last], the time of the last pass. *)
Definition on_time `{GoStd} (maxWait : Z) (w : Worker) (last : Z)
    (taken : list (Z * SendBody)) : Prop :=
  batchMaxWait (w_h w) = maxWait
  /\ batch_fresh w last
  /\ (last <= timer_deadline w)%Z
  /\ Forall (report_in_time maxWait) (w_reports w)
  /\ concat (map rp_events (w_reports w)) ++ w_batch w = taken.

(** The same of a worker whose loop has ended: its last call carried the
    batch. *)
Definition handed_over `{GoStd} (maxWait : Z) (w : Worker) (taken : list (Z * SendBody))
  : Prop :=
  Forall (report_in_time maxWait) (w_reports w)
  /\ concat (map rp_events (w_reports w)) = taken.

(** The element a pass appends to the batch. *)
Definition appended (t : Tick) : list (Z * SendBody) :=
  match sel t with
  | SelRecv event => [(now t, mkSendBody event "event")]
  | _ => []
  end.



(** ** Further definitions: bootstrap *)

(** The instance after the login step of [connect], when that step does not
    fail: the token is the one received, or the configured one. *)
Definition after_login `{GoStd} (h : UmamiFeeder) (config : Config) (token : result string)
  : UmamiFeeder :=
  if nonempty (UmamiUsername config) && nonempty (UmamiPassword config)
  then match token with
       | Ok tok => set_umamiToken (debugf h "token received %s") tok
       | Err _ => h
       end
  else h.

(** [h'] carries the compiled ignore rules of [h]. *)
Definition same_rules `{GoStd} (h h' : UmamiFeeder) : Prop :=
  ignorePrefixes h' = ignorePrefixes h /\ ignoreRegexps h' = ignoreRegexps h.

(** ** Further definitions: the worker's traffic *)

(** The envelopes of the events the worker receives in [ticks], in order. *)
Definition received (ticks : list Tick) : list SendBody :=
  flat_map (fun t => match sel t with
                     | SelRecv event => [mkSendBody event "event"]
                     | _ => []
                     end) ticks.

(** Everything handed to [reportEventsToUmami] so far, in order. *)
Definition reported `{GoStd} (w : Worker) : list SendBody :=
  concat (map rp_body (w_reports w)).

(** What a worker has taken from the queue and not lost: after a pass that
    goes back to the [select], the reported envelopes followed by the
    pending batch; after the pass that ends the loop, the reported ones
    (the last call carried the batch). *)
Definition accounted `{GoStd} (r : IterResult) : list SendBody :=
  match r with
  | Continue w => reported w ++ map snd (w_batch w)
  | ReturnNil w => reported w
  | Panic _ w => reported w
  end.

(** Two passes that differ at most in how the collector answers, and a
    pass in which the outbound call does not fault. *)
Definition same_pass (t t' : Tick) : Prop := now t = now t' /\ sel t = sel t'.

Definition calm (t : Tick) : Prop :=
  match send t with SendPanic _ => False | _ => True end.

(** Two workers that agree on what they have sent, hold and wait for. *)
Definition same_traffic `{GoStd} (w w' : Worker) : Prop :=
  w_reports w' = w_reports w /\ w_batch w' = w_batch w /\ w_armed w' = w_armed w
  /\ same_settings (w_h w) (w_h w').

(** The largest batch the worker sends. *)
Definition batch_limit `{GoStd} (h : UmamiFeeder) : Z := Z.max 1 (batchSize h).

(** ** The request path: [ServeHTTP] and [ResponseWrapper] (response_wrapper.go) *)

(** A call received by the [http.ResponseWriter] of the server. *)
Inductive WriterCall : Type :=
| CallWriteHeader (statusCode : Z)
| CallWrite (b : string)
| CallFlush
| CallHijack.

(** The server's writer: the calls it has received, oldest first, and
    whether it implements [http.Flusher] and [http.Hijacker]. *)
Record ResponseWriter : Type := mkResponseWriter {
  rw_calls : list WriterCall;
  rw_flusher : bool;
  rw_hijacker : bool
}.

Definition rw_call (rw : ResponseWriter) (c : WriterCall) : ResponseWriter :=
  mkResponseWriter (rw_calls rw ++ [c]) (rw_flusher rw) (rw_hijacker rw).

(** [ResponseWrapper]; its [feeder] is the shared plugin instance, passed
    along with it. *)
Record ResponseWrapper : Type := mkResponseWrapper {
  wr_inner : ResponseWriter;
  wr_request : Request;
  wr_written : bool
}.

(** [shouldTrackStatus] with its debug line. *)
Definition shouldTrackStatus_logged `{GoStd} (h : UmamiFeeder) (statusCode : Z)
  : bool * UmamiFeeder :=
  if (400 <=? statusCode)%Z then
    if trackErrors h then (true, h)
    else (false, debugf h "not reporting %d error")
  else (true, h).

(** [ResponseWrapper.WriteHeader] *)
Definition Wrapper_WriteHeader `{GoStd} (h : UmamiFeeder) (wr : ResponseWrapper)
    (statusCode unixNow : Z) (created : result Website_) : UmamiFeeder * ResponseWrapper :=
  if wr_written wr then (h, wr)
  else
    let '(track, h1) := shouldTrackStatus_logged h statusCode in
    let h2 := if track then submitToFeed h1 (wr_request wr) statusCode unixNow created
              else h1 in
    (h2, mkResponseWrapper (rw_call (wr_inner wr) (CallWriteHeader statusCode))
                           (wr_request wr) true).

(** [ResponseWrapper.Flush] *)
Definition Wrapper_Flush (wr : ResponseWrapper) : ResponseWrapper :=
  if rw_flusher (wr_inner wr)
  then mkResponseWrapper (rw_call (wr_inner wr) CallFlush) (wr_request wr) (wr_written wr)
  else wr.

(** [ResponseWrapper.Write]; [http.StatusOK] is 200. *)
Definition Wrapper_Write `{GoStd} (h : UmamiFeeder) (wr : ResponseWrapper) (b : string)
    (unixNow : Z) (created : result Website_) : UmamiFeeder * ResponseWrapper :=
  let '(h1, wr1) := Wrapper_WriteHeader h wr 200 unixNow created in
  let wr2 := mkResponseWrapper (rw_call (wr_inner wr1) (CallWrite b))
                               (wr_request wr1) (wr_written wr1) in
  (h1, Wrapper_Flush wr2).

(** [ResponseWrapper.Hijack]: the wrapper afterwards and the error. *)
Definition Wrapper_Hijack (wr : ResponseWrapper) : ResponseWrapper * option string :=
  if rw_hijacker (wr_inner wr)
  then (mkResponseWrapper (rw_call (wr_inner wr) CallHijack) (wr_request wr) (wr_written wr),
        None)
  else (wr, Some "%T is not a http.Hijacker").

(** What the next handler does with the writer it is given. *)
Inductive HandlerOp : Type :=
| OpWriteHeader (statusCode : Z)
| OpWrite (b : string)
| OpFlush
| OpHijack.

(** The next handler running on the wrapper. *)
Definition wrapped_op `{GoStd} (unixNow : Z) (created : result Website_)
    (st : UmamiFeeder * ResponseWrapper) (op : HandlerOp) : UmamiFeeder * ResponseWrapper :=
  match op with
  | OpWriteHeader statusCode => Wrapper_WriteHeader (fst st) (snd st) statusCode unixNow created
  | OpWrite b => Wrapper_Write (fst st) (snd st) b unixNow created
  | OpFlush => (fst st, Wrapper_Flush (snd st))
  | OpHijack => (fst st, fst (Wrapper_Hijack (snd st)))
  end.

(** The next handler running on the server's writer itself; it reaches
    [Flush] and [Hijack] through a type assertion. *)
Definition direct_op (rw : ResponseWriter) (op : HandlerOp) : ResponseWriter :=
  match op with
  | OpWriteHeader statusCode => rw_call rw (CallWriteHeader statusCode)
  | OpWrite b => rw_call rw (CallWrite b)
  | OpFlush => if rw_flusher rw then rw_call rw CallFlush else rw
  | OpHijack => if rw_hijacker rw then rw_call rw CallHijack else rw
  end.

(** [shouldTrackRequest] and [shouldTrack] with the debug line each
    rejection prints. *)
Definition shouldTrackRequest_logged `{GoStd} (h : UmamiFeeder) (req : Request)
  : bool * UmamiFeeder :=
  if hostIgnored h req then (false, debugf h "ignoring host %s")
  else if ipIgnored h req then
    (false, debugf h (if is_err (netip_ParseAddr (requestIp h req))
                      then "invalid IP %s" else "ignoring IP %s"))
  else if userAgentIgnored h req then (false, debugf h "ignoring user-agent %s")
  else if urlIgnored h req then (false, debugf h "ignoring location %s")
  else (true, h).

Definition shouldTrack_logged `{GoStd} (h : UmamiFeeder) (req : Request)
  : bool * UmamiFeeder :=
  let '(ok, h1) := shouldTrackRequest_logged h req in
  if negb ok then (false, h1)
  else if negb (shouldTrackResource h1 (URL_Path req))
  then (false, debugf h1 "ignoring resource %s")
  else if createNewWebsites h1 then (true, h1)
  else
    let hostname := parseDomainFromHost (Host req) in
    match websites h1 !! hostname with
    | Some _ => (true, h1)
    | None => (false, debugf h1 "ignoring domain %s")
    end.

(** [ServeHTTP]: [ops] is what [h.next.ServeHTTP] does with its writer. *)
Definition ServeHTTP `{GoStd} (h : UmamiFeeder) (rw : ResponseWriter) (req : Request)
    (ops : list HandlerOp) (unixNow : Z) (created : result Website_)
  : UmamiFeeder * ResponseWriter :=
  let '(track, h0) := if isEnabled h then shouldTrack_logged h req else (false, h) in
  if track then
    let '(h', wr) := fold_left (wrapped_op unixNow created) ops
                               (h0, mkResponseWrapper rw req false) in
    (h', wr_inner wr)
  else (h0, fold_left direct_op ops rw).

(** The instance after the check of [ServeHTTP] turned a request down. *)
Definition turned_down `{GoStd} (h : UmamiFeeder) (req : Request) : UmamiFeeder :=
  if isEnabled h then snd (shouldTrack_logged h req) else h.

(** The status the handler sets first: that of its first [WriteHeader], or
    200 when it writes before setting one. *)
Fixpoint first_status (ops : list HandlerOp) : option Z :=
  match ops with
  | [] => None
  | OpWriteHeader statusCode :: _ => Some statusCode
  | OpWrite _ :: _ => Some 200%Z
  | _ :: rest => first_status rest
  end.

(** The body bytes among calls, and among the handler's operations. *)
Definition written_bytes (calls : list WriterCall) : list string :=
  flat_map (fun c => match c with CallWrite b => [b] | _ => [] end) calls.

Definition body_of (ops : list HandlerOp) : list string :=
  flat_map (fun op => match op with OpWrite b => [b] | _ => [] end) ops.

Definition status_calls (calls : list WriterCall) : list Z :=
  flat_map (fun c => match c with CallWriteHeader s => [s] | _ => [] end) calls.

(** What the first status does to the plugin instance. *)
Definition report_status `{GoStd} (h : UmamiFeeder) (req : Request) (statusCode unixNow : Z)
    (created : result Website_) : UmamiFeeder :=
  fst (Wrapper_WriteHeader h (mkResponseWrapper (mkResponseWriter [] false false) req false)
                           statusCode unixNow created).

(** ** Further statements about the resolver *)

Module ResolverMore.
Import Resolver.

(** A goroutine on the read path with the identifier [websiteId] in hand. *)
Definition on_read_path (websiteId : string) (pc : PC) : bool :=
  match pc with
  | AtRLock | AtLookup => true
  | AtRUnlock (Some x) | Done x => String.eqb x websiteId
  | _ => false
  end.

(** A goroutine that has made its "create site" call. *)
Definition has_called (pc : PC) : bool :=
  match pc with
  | AtUnlock _ | Done _ => true
  | _ => false
  end.

(** The collector never makes [hostname] known: each call fails or answers
    with another domain. *)
Definition never_resolves (remote : nat -> string -> result Website_) (hostname : string)
  : Prop :=
  forall k, match remote k hostname with
            | Ok website => Domain website <> hostname
            | Err _ => True
            end.

(** Exclusion on the mutex: the write lock has one holder at most, its
    holder is recorded in [writer], and while it is held nobody holds the
    read lock. *)
Record Exclusion (st : State) : Prop := mkExclusion {
  ex_readers : readers st = length (List.filter holdsRead (pcs st));
  ex_alone : writer st = true -> readers st = 0;
  ex_writer : forall i pc, pcs st !! i = Some pc -> holdsWrite pc = true -> writer st = true;
  ex_single : forall i j pci pcj, pcs st !! i = Some pci -> pcs st !! j = Some pcj ->
              holdsWrite pci = true -> holdsWrite pcj = true -> i = j
}.

(** The hostname is unknown, nobody has read it from the cache, and there
    are as many "create site" calls as goroutines past their call. *)
Definition Unresolved (hostname : string) (st : State) : Prop :=
  cache st !! hostname = None
  /\ length (creates st) = length (List.filter has_called (pcs st))
  /\ Forall (fun pc => match pc with AtRUnlock (Some _) => False | _ => True end) (pcs st).

End ResolverMore.

(** ** Further definitions: host names, events, resources *)

(** A string of ASCII bytes, one without an upper-case ASCII letter, and
    the bytewise lower-casing of [strings.ToLower]. *)
Definition isASCII (s : string) : bool :=
  GoStrings.string_forallb (fun c => (GoStrings.byte_val c <? GoStrings.RuneSelf)%Z) s.

Definition no_upper (s : string) : bool :=
  GoStrings.string_forallb (fun c => negb (GoStrings.is_upper (GoStrings.byte_val c))) s.

Definition lower_ascii (s : string) : string := GoStrings.string_map GoStrings.lowerByte s.

(** [event] is what a send added to the queue [q], giving [q']: it is the
    newest element of the buffer, or was handed to a parked receiver. *)
Definition enqueued {A} (q q' : Chan.chan A) (event : A) : Prop :=
  (Chan.buf q' = Chan.buf q ++ [event] /\ Chan.handoff q' = Chan.handoff q)
  \/ (Chan.buf q' = Chan.buf q /\ Chan.handoff q' = Chan.handoff q ++ [event]).

(** A file name without a slash or a dot, and the extensions that are
    reported: the configured ones, or the content extensions. *)
Definition plain_name (s : string) : bool :=
  GoStrings.string_forallb (fun c => negb (Ascii.eqb c "/") && negb (Ascii.eqb c ".")) s.

Definition reported_extensions `{GoStd} (h : UmamiFeeder) : list string :=
  if 0 <? length (trackExtensions h) then trackExtensions h else contentExtensions.

(** Further instances and requests for the examples: [feeder_site] before
    it is enabled, the instance [New] returns for the default configuration,
    two fetched sites for one domain, and a request that came through a
    proxy. *)
Definition feeder_site_off : UmamiFeeder := set_isEnabled feeder_site false.

Definition feeder_new : UmamiFeeder :=
  match New CreateConfig "umami-feeder" with
  | Returns (h, _) => h
  | Panics _ => feeder_zero
  end.

Definition sites_shop : list Website_ :=
  [mkWebsite "site-2" "shop" "" "shop.example.org";
   mkWebsite "site-3" "shop (old)" "" "shop.example.org"].

Definition request_forwarded (xff : string) : Request :=
  mkRequest "example.org" "192.0.2.7:51324"
            (fun key => if String.eqb key "X-Forwarded-For" then xff
                        else if String.eqb key "X-Real-IP" then "198.51.100.4" else "")
            "/about" "/about".

(** * Properties *)

(** ** Retry delay *)

Lemma currentDelay_table (n : Z) :
  (0 <= n < 8)%Z ->
  currentDelay n = (if (n =? 0)%Z then 0 else 15 * 2 ^ n * Time.Second)%Z.
Proof.
  intros Hn.
  assert (Hcases : (n = 0 \/ n = 1 \/ n = 2 \/ n = 3 \/ n = 4 \/ n = 5 \/ n = 6 \/ n = 7)%Z)
    by lia.
  repeat destruct Hcases as [-> | Hcases]; try subst n; reflexivity.
Qed.

Lemma currentDelay_capped (n : Z) : (8 <= n)%Z -> currentDelay n = Time.Hour.
Proof.
  intros Hn. unfold currentDelay.
  destruct (Z.eqb_spec n 0); [lia |].
  destruct (Z.ltb_spec n 8); [lia | reflexivity].
Qed.

Lemma currentDelay_value (n : Z) :
  (0 <= n)%Z ->
  currentDelay n =
  (if n =? 0 then 0 else if n <? 8 then 15 * 2 ^ n * Time.Second else Time.Hour)%Z.
Proof.
  intros Hn. destruct (Z.ltb_spec n 8) as [Hlt | Hge].
  - rewrite currentDelay_table by lia. reflexivity.
  - rewrite currentDelay_capped by lia.
    destruct (Z.eqb_spec n 0); [lia | reflexivity].
Qed.

Lemma doubling_below_hour (n m : Z) :
  (1 <= n)%Z -> (n <= m)%Z -> (m <= 7)%Z ->
  (0 < 15 * 2 ^ n * Time.Second <= 15 * 2 ^ m * Time.Second
   /\ 15 * 2 ^ m * Time.Second < Time.Hour)%Z.
Proof.
  intros H1 H2 H3.
  assert (Hpos : (0 < 2 ^ n)%Z) by (apply Z.pow_pos_nonneg; lia).
  assert (Hmono : (2 ^ n <= 2 ^ m)%Z) by (apply Z.pow_le_mono_r; lia).
  assert (Hmax : (2 ^ m <= 2 ^ 7)%Z) by (apply Z.pow_le_mono_r; lia).
  change (2 ^ 7)%Z with 128%Z in Hmax.
  unfold Time.Hour, Time.Second. lia.
Qed.

(** C5.  The delay before an attempt, as a function of the attempt counter
    [n >= 0]: zero for [n = 0]; [15 * 2^n] seconds for [1 <= n <= 7], which
    starts at 30 seconds and doubles with each attempt; one hour for every
    [n >= 8].  The delay never decreases as [n] grows and never exceeds one
    hour. *)
Theorem retry_delay_schedule (n : Z) (Hn : (0 <= n)%Z) :
  (n = 0%Z -> currentDelay n = 0%Z)
  /\ (n = 1%Z -> currentDelay n = (30 * Time.Second)%Z)
  /\ ((1 <= n <= 7)%Z -> currentDelay n = (15 * 2 ^ n * Time.Second)%Z)
  /\ ((1 <= n < 7)%Z -> currentDelay (n + 1) = (2 * currentDelay n)%Z)
  /\ ((8 <= n)%Z -> currentDelay n = Time.Hour)
  /\ (forall m : Z, (n <= m)%Z -> (currentDelay n <= currentDelay m)%Z)
  /\ (currentDelay n <= Time.Hour)%Z.
Proof.
  repeat split.
  - intros ->. reflexivity.
  - intros ->. reflexivity.
  - intros H. rewrite currentDelay_table by lia.
    destruct (Z.eqb_spec n 0); [lia | reflexivity].
  - intros H. rewrite !currentDelay_table by lia.
    destruct (Z.eqb_spec n 0); [lia |].
    destruct (Z.eqb_spec (n + 1) 0); [lia |].
    rewrite Z.pow_add_r by lia. lia.
  - intros H. apply currentDelay_capped. exact H.
  - intros m Hm. rewrite (currentDelay_value n), (currentDelay_value m) by lia.
    destruct (Z.eqb_spec n 0) as [-> | Hn0].
    + destruct (Z.eqb_spec m 0); [lia |].
      destruct (Z.ltb_spec m 8).
      * pose proof (doubling_below_hour m m). lia.
      * unfold Time.Hour, Time.Second. lia.
    + destruct (Z.eqb_spec m 0); [lia |].
      destruct (Z.ltb_spec n 8), (Z.ltb_spec m 8); try lia.
      * pose proof (doubling_below_hour n m). lia.
      * pose proof (doubling_below_hour n n). lia.
  - rewrite currentDelay_value by lia.
    destruct (Z.eqb_spec n 0).
    + unfold Time.Hour, Time.Second. lia.
    + destruct (Z.ltb_spec n 8); [| lia].
      pose proof (doubling_below_hour n n). lia.
Qed.

Lemma retry_delay_schedule_witness :
  currentDelay 3 = (15 * 2 ^ 3 * Time.Second)%Z
  /\ (currentDelay 3 <= currentDelay 11)%Z.
Proof.
  pose proof (retry_delay_schedule 3 ltac:(lia)) as (_ & _ & H3 & _ & _ & Hmono & _).
  split; [apply H3; lia | apply Hmono; lia].
Defined.

(** ** Bootstrap with an invalid ignore rule *)

Section Bootstrap.
Context `{GoStd}.

Lemma isEnabled_debugf (h : UmamiFeeder) (f : string) : isEnabled (debugf h f) = isEnabled h.
Proof. unfold debugf. destruct (logHandler h), (isDebug h); reflexivity. Qed.

Lemma isEnabled_error (h : UmamiFeeder) (m : string) : isEnabled (error h m) = isEnabled h.
Proof. unfold error. destruct (logHandler h); reflexivity. Qed.

Lemma verifyIgnoreIPs_bad (ips : list string) :
  Exists (fun s => badIgnoreIP s = true) ips ->
  forall h, exists h' e, verifyIgnoreIPs h ips = (h', Some e).
Proof.
  induction ips as [| ip ips IH]; intros Hbad h.
  - inversion Hbad.
  - simpl. destruct (parseIgnoreIP ip) as [network | e] eqn:Hp.
    + apply IH. inversion Hbad as [? ? Hhd | ? ? Htl]; subst; [| exact Htl].
      unfold badIgnoreIP in Hhd. rewrite Hp in Hhd. discriminate.
    + eauto.
Qed.

Lemma verifyIgnoreIPs_error (ips : list string) :
  forall h h' e, verifyIgnoreIPs h ips = (h', Some e) ->
  Exists (fun s => badIgnoreIP s = true) ips.
Proof.
  induction ips as [| ip ips IH]; intros h h' e Hv; simpl in Hv.
  - discriminate.
  - destruct (parseIgnoreIP ip) as [network | e'] eqn:Hp.
    + apply Exists_cons_tl. eapply IH. exact Hv.
    + apply Exists_cons_hd. unfold badIgnoreIP. rewrite Hp. reflexivity.
Qed.

Lemma verifyIgnoreURLs_bad (urls : list string) :
  Exists (fun s => badIgnoreURL s = true) urls ->
  forall h, exists h' e, verifyIgnoreURLs h urls = (h', Some e).
Proof.
  induction urls as [| u urls IH]; intros Hbad h.
  - inversion Hbad.
  - simpl. destruct (regexp_Compile u) as [r | e] eqn:Hc.
    + apply IH. inversion Hbad as [? ? Hhd | ? ? Htl]; subst; [| exact Htl].
      unfold badIgnoreURL in Hhd. rewrite Hc in Hhd. discriminate.
    + eauto.
Qed.

Lemma verifyIgnoreURLs_error (urls : list string) :
  forall h h' e, verifyIgnoreURLs h urls = (h', Some e) ->
  Exists (fun s => badIgnoreURL s = true) urls.
Proof.
  induction urls as [| u urls IH]; intros h h' e Hv; simpl in Hv.
  - discriminate.
  - destruct (regexp_Compile u) as [r | e'] eqn:Hc.
    + apply Exists_cons_tl. eapply IH. exact Hv.
    + apply Exists_cons_hd. unfold badIgnoreURL. rewrite Hc. reflexivity.
Qed.

(** [verifyConfig] returns an error exactly for an invalid configuration. *)
Lemma verifyConfig_error_iff (config : Config) (h : UmamiFeeder) :
  config_invalid config <-> exists h' e, verifyConfig h config = (h', Some e).
Proof.
  unfold verifyConfig, config_invalid. split.
  - intros [Hip | Hurl].
    + destruct (verifyIgnoreIPs_bad _ Hip h) as (h' & e & ->). eauto.
    + destruct (verifyIgnoreIPs h (IgnoreIPs config)) as [h1 [e |]]; [eauto |].
      apply verifyIgnoreURLs_bad. exact Hurl.
  - intros (h' & e & Hv).
    destruct (verifyIgnoreIPs h (IgnoreIPs config)) as [h1 [e1 |]] eqn:Hips.
    + left. eapply verifyIgnoreIPs_error. exact Hips.
    + right. eapply verifyIgnoreURLs_error. exact Hv.
Qed.

Lemma isEnabled_verifyIgnoreIPs (ips : list string) :
  forall h, isEnabled (fst (verifyIgnoreIPs h ips)) = isEnabled h.
Proof.
  induction ips as [| ip ips IH]; intros h; simpl; [reflexivity |].
  destruct (parseIgnoreIP ip); [rewrite IH |]; reflexivity.
Qed.

(** Once the goroutine has returned, inputs that arrive later change
    nothing: no further attempt is made. *)
Lemma retryLoop_exited_ignores (config : Config) (inputs more : list RetryInput) :
  forall h n,
  r_status (retryLoop h config n inputs) = RetryExited ->
  retryLoop h config n (inputs ++ more)
  = with_rest (retryLoop h config n inputs) (r_rest (retryLoop h config n inputs) ++ more).
Proof.
  induction inputs as [| i inputs IH]; intros h n Hex.
  - simpl in Hex. discriminate.
  - destruct i as [token fetched |]; simpl in *; [| reflexivity].
    destruct (connect _ config token fetched) as [h2 [e |]].
    + simpl in Hex. rewrite IH by exact Hex. reflexivity.
    + destruct (verifyConfig _ config) as [h4 [e |]]; reflexivity.
Qed.

Lemma retryLoop_verified_exits (config : Config) (inputs : list RetryInput) :
  forall h n,
  r_verified (retryLoop h config n inputs) = true ->
  r_status (retryLoop h config n inputs) = RetryExited.
Proof.
  induction inputs as [| i inputs IH]; intros h n Hv.
  - simpl in Hv. discriminate.
  - destruct i as [token fetched |]; simpl in *; [| discriminate].
    destruct (connect _ config token fetched) as [h2 [e |]].
    + simpl in *. apply IH. exact Hv.
    + destruct (verifyConfig _ config) as [h4 [e |]]; reflexivity.
Qed.

End Bootstrap.

Section BootstrapDisabled.
Context `{GoStd}.

Lemma isEnabled_connect (h : UmamiFeeder) (config : Config)
    (token : result string) (fetched : result (list Website_)) :
  isEnabled (fst (connect h config token fetched)) = isEnabled h.
Proof.
  unfold connect.
  repeat match goal with
         | |- context [if ?b then _ else _] => destruct b
         | |- context [match ?r with Ok _ => _ | Err _ => _ end] => destruct r
         end;
    unfold set_websites, set_umamiToken; simpl; rewrite ?isEnabled_debugf; reflexivity.
Qed.

Lemma retryLoop_never_active (config : Config) (inputs : list RetryInput) :
  config_invalid config ->
  forall h n,
  isEnabled h = false ->
  isEnabled (r_h (retryLoop h config n inputs)) = false
  /\ r_workerStarted (retryLoop h config n inputs) = false.
Proof.
  intros Hbad. induction inputs as [| i inputs IH]; intros h n Hoff.
  - simpl. split; [| reflexivity].
    destruct (0 <? n)%Z; rewrite ?isEnabled_debugf; exact Hoff.
  - destruct i as [token fetched |]; simpl.
    + destruct (connect _ config token fetched) as [h2 [e |]] eqn:Hc.
      * simpl. apply IH. rewrite isEnabled_error.
        change h2 with (fst (h2, Some e)). rewrite <- Hc, isEnabled_connect.
        rewrite isEnabled_debugf.
        destruct (0 <? n)%Z; rewrite ?isEnabled_debugf; exact Hoff.
      * destruct (proj1 (verifyConfig_error_iff config
                           (debugf h2 "Successfully connected to Umami. Verifying configuration..."))
                        Hbad) as (h' & e & ->).
        simpl. split; reflexivity.
    + split; [| reflexivity].
      rewrite isEnabled_debugf.
      destruct (0 <? n)%Z; rewrite ?isEnabled_debugf; exact Hoff.
Qed.

(** C4.  When the configuration carries an [ignoreIPs] entry that is neither
    a prefix nor an address, or an [ignoreURLs] entry that does not compile,
    [verifyConfig] returns an error whenever it is called, and the plugin
    made by [New] stays disabled: whatever the collector answers and however
    long the retry goroutine runs, the activation flag is false and the
    worker is never started; and once an attempt has reached the
    verification the goroutine has returned, so that later timer or
    cancellation events cause no further attempt. *)
Theorem invalid_config_disables_permanently
    (config : Config) (name_ : string) (h : UmamiFeeder) (inputs : list RetryInput) :
  config_invalid config ->
  New config name_ = Returns (h, true) ->
  let r := retryConnection h config inputs in
  (forall h0, exists h' e, verifyConfig h0 config = (h', Some e))
  /\ isEnabled h = false
  /\ isEnabled (r_h r) = false
  /\ r_workerStarted r = false
  /\ (r_verified r = true ->
      r_status r = RetryExited
      /\ forall more, retryConnection h config (inputs ++ more)
                      = with_rest r (r_rest r ++ more)).
Proof.
  intros Hbad Hnew r.
  assert (Hoff : isEnabled h = false).
  { unfold New in Hnew. destruct (QueueSize config <? 0)%Z; [discriminate |].
    simpl in Hnew. destruct (Enabled config && negb (Disabled config));
      inversion Hnew; reflexivity. }
  split; [intros h0; apply verifyConfig_error_iff; exact Hbad |].
  split; [exact Hoff |].
  destruct (retryLoop_never_active config inputs Hbad h 0 Hoff) as [Hflag Hworker].
  split; [exact Hflag |]. split; [exact Hworker |].
  intros Hv. pose proof (retryLoop_verified_exits config inputs h 0 Hv) as Hex.
  split; [exact Hex |].
  intros more. apply retryLoop_exited_ignores. exact Hex.
Qed.

End BootstrapDisabled.

Lemma invalid_config_disables_permanently_witness :
  let inputs := [TimerElapsed (Err "connection refused") (Err "connection refused");
                 TimerElapsed (Ok "token-1") (Ok []);
                 TimerElapsed (Ok "token-2") (Ok [])] in
  let h := mkUmamiFeeder ExampleStd.std "umami-feeder" false false (Some [])
             (Chan.make 1000) 20 (5 * Time.Second) "http://umami:3000" "" ""
             {[ "example.org" := "site-1" ]} false false false [] [] [] [] []
             "X-Real-IP" ∅ in
  let r := retryConnection h config_bad_ip inputs in
  isEnabled (r_h r) = false
  /\ r_workerStarted r = false
  /\ r_verified r = true
  /\ r_status r = RetryExited
  /\ r_attempts r = 2
  /\ r_rest r = [TimerElapsed (Ok "token-2") (Ok [])].
Proof.
  intros inputs h r.
  assert (Hbad : config_invalid config_bad_ip).
  { left. apply Exists_cons_hd. vm_compute. reflexivity. }
  assert (Hnew : New config_bad_ip "umami-feeder" = Returns (h, true)) by reflexivity.
  destruct (invalid_config_disables_permanently config_bad_ip "umami-feeder" h inputs
              Hbad Hnew) as (_ & _ & Hflag & Hworker & Hexit).
  assert (Hv : r_verified r = true) by (vm_compute; reflexivity).
  split; [exact Hflag |]. split; [exact Hworker |]. split; [exact Hv |].
  split; [apply Hexit; exact Hv |].
  split; vm_compute; reflexivity.
Defined.

(** ** Matcher: the host rule and the IP rule *)

Section HostRule.
Import GoStrings.

Lemma first_seq_inv (b : Z) (sz : nat) (lo hi : Z) :
  first b = FirstSeq sz lo hi -> (sz = 2 \/ sz = 3 \/ sz = 4) /\ (0x80 <= lo)%Z.
Proof.
  unfold first, locb.
  repeat match goal with
         | |- context [if ?c then _ else _] => destruct c
         end; intros [= <- <- <-]; split; auto; lia.
Qed.

Lemma colon_not_cont (lo hi : Z) : (0x80 <= lo)%Z -> cont_ok lo hi (byte_val ":") = false.
Proof.
  intros Hlo. unfold cont_ok. change (byte_val ":") with 58%Z.
  destruct (Z.ltb_spec 58 lo); [reflexivity | lia].
Qed.

Lemma append_nil_l (y : string) : EmptyString +:+ y = y.
Proof. reflexivity. Qed.

Lemma append_cons (c : ascii) (s y : string) : String c s +:+ y = String c (s +:+ y).
Proof. reflexivity. Qed.

Ltac dec_finish :=
  simpl;
  repeat match goal with
         | |- context [Nat.ltb ?a ?b] => destruct (Nat.ltb a b)
         end;
  reflexivity.

Lemma Decode_append_colon (h x : string) :
  h <> EmptyString ->
  DecodeRuneInString (h +:+ String ":" x) = DecodeRuneInString h.
Proof.
  destruct h as [| c0 h1]; [congruence | intros _].
  change (String c0 h1 +:+ String ":" x) with (String c0 (h1 +:+ String ":" x)). unfold DecodeRuneInString.
  destruct (first (byte_val c0)) as [| | sz lo hi] eqn:F; try reflexivity.
  apply first_seq_inv in F as [Hsz Hlo].
  pose proof (colon_not_cont lo hi Hlo) as Hc1.
  pose proof (colon_not_cont locb hicb ltac:(unfold locb; lia)) as Hc2.
  destruct h1 as [| c1 h2]; rewrite ?append_cons, ?append_nil_l.
  { rewrite Hc1. destruct Hsz as [-> | [-> | ->]]; dec_finish. }
  destruct (cont_ok lo hi (byte_val c1)) eqn:K1.
  2:{ destruct Hsz as [-> | [-> | ->]]; dec_finish. }
  destruct h2 as [| c2 h3]; rewrite ?append_cons, ?append_nil_l.
  { rewrite Hc2. destruct Hsz as [-> | [-> | ->]]; dec_finish. }
  destruct (cont_ok locb hicb (byte_val c2)) eqn:K2.
  2:{ destruct Hsz as [-> | [-> | ->]]; dec_finish. }
  destruct h3 as [| c3 h4]; rewrite ?append_cons, ?append_nil_l.
  { rewrite Hc2. destruct Hsz as [-> | [-> | ->]]; dec_finish. }
  destruct Hsz as [-> | [-> | ->]]; dec_finish.
Qed.

Lemma Decode_size (h : string) :
  h <> EmptyString ->
  1 <= snd (DecodeRuneInString h) <= String.length h.
Proof.
  destruct h as [| c0 h1]; [congruence | intros _].
  unfold DecodeRuneInString.
  destruct (first (byte_val c0)) as [| | sz lo hi] eqn:F; simpl; try lia.
  apply first_seq_inv in F as [Hsz _].
  destruct (Nat.ltb_spec (S (String.length h1)) sz); simpl; [lia |].
  destruct h1 as [| c1 h2]; simpl in *; [lia |].
  destruct (cont_ok lo hi (byte_val c1)); simpl; [| lia].
  destruct (Nat.leb_spec sz 2); simpl; [lia |].
  destruct h2 as [| c2 h3]; simpl in *; [lia |].
  destruct (cont_ok locb hicb (byte_val c2)); simpl; [| lia].
  destruct (Nat.leb_spec sz 3); simpl; [lia |].
  destruct h3 as [| c3 h4]; simpl in *; [lia |].
  destruct (cont_ok locb hicb (byte_val c3)); simpl; lia.
Qed.

Lemma skip_append (n : nat) (h y : string) :
  n <= String.length h -> skip n (h +:+ y) = skip n h +:+ y.
Proof.
  revert h. induction n as [| n IH]; intros h Hn; [reflexivity |].
  destruct h as [| c h']; simpl in *; [lia |].
  apply IH. lia.
Qed.

Section Fold.
Context `{GoStd}.

Lemma equalFoldUnicode_port (fuel : nat) :
  forall h port, equalFoldUnicode fuel (h +:+ String ":" port) h = false.
Proof.
  induction fuel as [| fuel IH]; intros h port.
  - destruct h; reflexivity.
  - destruct h as [| c t1] eqn:Hh; [reflexivity |].
    rewrite <- Hh.
    assert (Hne : h <> EmptyString) by (subst h; discriminate).
    pose proof (Decode_append_colon h port Hne) as Hdec.
    pose proof (Decode_size h Hne) as Hsize.
    replace (equalFoldUnicode (S fuel) (h +:+ String ":" port) h)
      with (let '(sr, ssz) := DecodeRuneInString (h +:+ String ":" port) in
            let '(tr, t') :=
              if (byte_val c <? RuneSelf)%Z then (byte_val c, t1)
              else (fst (DecodeRuneInString h), skip (snd (DecodeRuneInString h)) h) in
            if (tr =? sr)%Z then equalFoldUnicode fuel (skip ssz (h +:+ String ":" port)) t'
            else if foldMatch sr tr
                 then equalFoldUnicode fuel (skip ssz (h +:+ String ":" port)) t'
                 else false)
      by (subst h; reflexivity).
    rewrite Hdec.
    destruct (DecodeRuneInString h) as [r size] eqn:Hd. simpl in Hsize. simpl fst. simpl snd.
    rewrite skip_append by lia.
    destruct (Z.ltb_spec (byte_val c) RuneSelf) as [Hascii | Hnon].
    + assert (Hone : (r, size) = (byte_val c, 1)).
      { rewrite <- Hd. subst h. unfold DecodeRuneInString.
        unfold first. unfold RuneSelf in Hascii.
        destruct (Z.ltb_spec (byte_val c) 128); [reflexivity | lia]. }
      inversion Hone; subst r size.
      rewrite Z.eqb_refl. subst h. simpl skip. apply IH.
    + rewrite Z.eqb_refl. apply IH.
Qed.

Lemma EqualFold_port (h port : string) :
  EqualFold (h +:+ String ":" port) h = false.
Proof.
  induction h as [| a h IH]; [reflexivity |].
  rewrite append_cons. cbn [EqualFold].
  destruct (RuneSelf <=? Z.lor (byte_val a) (byte_val a))%Z.
  - rewrite <- append_cons. apply equalFoldUnicode_port.
  - rewrite Z.eqb_refl. exact IH.
Qed.
End Fold.

End HostRule.

Section MatcherRules.
Context `{GoStd}.

Lemma Contains_colon (h port : string) :
  GoStrings.Contains (h +:+ String ":" port) ":" = true.
Proof.
  induction h as [| a h IH].
  - reflexivity.
  - rewrite append_cons. cbn [GoStrings.Contains]. rewrite IH. apply orb_true_r.
Qed.

Lemma Contains_no_colon (h : string) :
  no_colon h = true -> GoStrings.Contains h ":" = false.
Proof.
  induction h as [| a h IH]; intros Hn; [reflexivity |].
  unfold no_colon in Hn. simpl in Hn. apply andb_true_iff in Hn as [Ha Hrest].
  cbn [GoStrings.Contains GoStrings.HasPrefix].
  apply negb_true_iff in Ha. rewrite Ha. simpl. apply IH. exact Hrest.
Qed.

Lemma SplitByte_no_colon (h port : string) :
  no_colon h = true ->
  GoStrings.SplitByte (h +:+ String ":" port) ":" = h :: GoStrings.SplitByte port ":".
Proof.
  induction h as [| a h IH]; intros Hn.
  - reflexivity.
  - unfold no_colon in Hn. simpl in Hn. apply andb_true_iff in Hn as [Ha Hrest].
    rewrite append_cons. cbn [GoStrings.SplitByte].
    apply negb_true_iff in Ha. rewrite Ha. rewrite (IH Hrest). reflexivity.
Qed.

(** Site resolution drops the port: for a host name [h] without a colon,
    "h:port" and "h" resolve alike. *)
Lemma parseDomainFromHost_port (h port : string) :
  no_colon h = true ->
  parseDomainFromHost (h +:+ String ":" port) = parseDomainFromHost h.
Proof.
  intros Hn. unfold parseDomainFromHost.
  rewrite Contains_colon, (SplitByte_no_colon h port Hn), (Contains_no_colon h Hn).
  reflexivity.
Qed.

(** C10.  The host rule compares the raw [Host] value of the request with
    each configured entry by [strings.EqualFold]; the port is not removed
    first.  So for a request whose [Host] is "h:port" an entry equal to [h]
    never matches: if such a request is ignored by the host rule, some other
    entry matched it, and with [h] as the only ignore rule the request
    passes [shouldTrackRequest].  Site resolution, in contrast, goes through
    [parseDomainFromHost], which maps "h:port" and "h" to the same name. *)
Theorem ignore_host_keeps_port (feeder : UmamiFeeder) (req : Request) (h port : string) :
  Host req = h +:+ String ":" port ->
  hostIgnored feeder req
  = (0 <? length (ignoreHosts feeder))
    && existsb (fun entry => GoStrings.EqualFold (h +:+ String ":" port) entry)
               (ignoreHosts feeder)
  /\ GoStrings.EqualFold (Host req) h = false
  /\ (hostIgnored feeder req = true ->
      exists entry, In entry (ignoreHosts feeder) /\ entry <> h
                    /\ GoStrings.EqualFold (Host req) entry = true)
  /\ (ignoreHosts feeder = [h] -> hostIgnored feeder req = false)
  /\ (ignoreHosts feeder = [h] -> ignorePrefixes feeder = [] ->
      ignoreUserAgents feeder = [] -> ignoreRegexps feeder = [] ->
      shouldTrackRequest feeder req = true)
  /\ (no_colon h = true -> parseDomainFromHost (Host req) = parseDomainFromHost h).
Proof.
  intros Hhost.
  assert (Hfold : GoStrings.EqualFold (Host req) h = false)
    by (rewrite Hhost; apply EqualFold_port).
  assert (Hsingle : ignoreHosts feeder = [h] -> hostIgnored feeder req = false).
  { intros Hlist. unfold hostIgnored. rewrite Hlist. simpl. rewrite Hfold. reflexivity. }
  split; [unfold hostIgnored; rewrite Hhost; reflexivity |].
  split; [exact Hfold |].
  split.
  { unfold hostIgnored. intros Hign. apply andb_true_iff in Hign as [_ Hex].
    apply existsb_exists in Hex as (entry & Hin & Hmatch).
    exists entry. split; [exact Hin |]. split; [| exact Hmatch].
    intros ->. rewrite Hfold in Hmatch. discriminate. }
  split; [exact Hsingle |].
  split.
  { intros Hlist Hp Hua Hre. unfold shouldTrackRequest.
    rewrite (Hsingle Hlist).
    unfold ipIgnored, userAgentIgnored, urlIgnored. rewrite Hp, Hua, Hre. reflexivity. }
  intros Hn. rewrite Hhost. apply parseDomainFromHost_port. exact Hn.
Qed.

(** C9, as the code has it.  When at least one ignore prefix is configured
    and the client-IP string (the configured header, or the remote address
    when that header is empty) does not parse, the request is not tracked. *)
Theorem unparseable_ip_not_tracked (h : UmamiFeeder) (req : Request) :
  ignorePrefixes h <> [] ->
  is_err (netip_ParseAddr (requestIp h req)) = true ->
  requestIp h req
  = (if String.eqb (Header_Get req (headerIp h)) "" then RemoteAddr req
     else Header_Get req (headerIp h))
  /\ shouldTrackRequest h req = false
  /\ shouldTrack h req = false.
Proof.
  intros Hne Herr.
  assert (Hreq : shouldTrackRequest h req = false).
  { unfold shouldTrackRequest. destruct (hostIgnored h req); [reflexivity |].
    unfold ipIgnored. destruct (ignorePrefixes h) as [| p ps]; [congruence |].
    simpl. destruct (netip_ParseAddr (requestIp h req)); [discriminate | reflexivity]. }
  split; [reflexivity |]. split; [exact Hreq |].
  unfold shouldTrack. rewrite Hreq. reflexivity.
Qed.

End MatcherRules.

Lemma ignore_host_keeps_port_witness :
  let req := ExampleStd.request "localhost:8080" "/about" in
  hostIgnored feeder_ignore_localhost req = false
  /\ shouldTrackRequest feeder_ignore_localhost req = true
  /\ shouldTrack feeder_ignore_localhost req = true
  /\ shouldTrack feeder_ignore_localhost (ExampleStd.request "localhost" "/about") = false.
Proof.
  intros req.
  destruct (ignore_host_keeps_port feeder_ignore_localhost req "localhost" "8080"
              eq_refl) as (_ & _ & _ & Hhost & Hreq & _).
  split; [apply Hhost; reflexivity |].
  split; [apply Hreq; reflexivity |].
  split; vm_compute; reflexivity.
Defined.

Lemma unparseable_ip_not_tracked_witness :
  shouldTrack feeder_ignore_ip (ExampleStd.request "example.org" "/about") = false.
Proof.
  apply (unparseable_ip_not_tracked feeder_ignore_ip
           (ExampleStd.request "example.org" "/about")).
  - discriminate.
  - vm_compute. reflexivity.
Defined.

(** C9 as stated fails: with no ignore prefix configured the client IP is
    never parsed.  The remote address "192.0.2.7:51324" carries a port and
    does not parse as an IP address, yet the request is tracked. *)
Lemma unparseable_ip_tracked_without_prefixes :
  let req := ExampleStd.request "example.org" "/about" in
  Header_Get req (headerIp feeder_site) = EmptyString
  /\ requestIp feeder_site req = "192.0.2.7:51324"
  /\ is_err (netip_ParseAddr (requestIp feeder_site req)) = true
  /\ shouldTrack feeder_site req = true.
Proof.
  vm_compute. repeat split; reflexivity.
Qed.

(** ** Producer: the non-blocking, bounded send *)

Section Producer.
Context `{GoStd}.

Lemma same_queue_refl (h : UmamiFeeder) : same_queue h h.
Proof. split; auto. Qed.

Lemma same_queue_trans (h1 h2 h3 : UmamiFeeder) :
  same_queue h1 h2 -> same_queue h2 h3 -> same_queue h1 h3.
Proof. intros [Q1 L1] [Q2 L2]. split; [congruence | auto]. Qed.

Lemma same_queue_debugf (h : UmamiFeeder) (f : string) : same_queue h (debugf h f).
Proof.
  unfold debugf, same_queue. destruct (logHandler h) eqn:L; [| rewrite L; auto].
  destruct (isDebug h); simpl; [split; [reflexivity | discriminate] | rewrite L; auto].
Qed.

Lemma same_queue_error (h : UmamiFeeder) (m : string) : same_queue h (error h m).
Proof.
  unfold error, same_queue. destruct (logHandler h) eqn:L; [| rewrite L; auto].
  simpl. split; [reflexivity | discriminate].
Qed.

Lemma printed_error (h : UmamiFeeder) (m : string) :
  logHandler h <> None -> printed (error h m) = printed h ++ [ERR m].
Proof.
  unfold error, printed. destruct (logHandler h); [reflexivity | congruence].
Qed.

Lemma same_queue_getWebsiteId (h : UmamiFeeder) (hostname : string) (created : result Website_) :
  same_queue h (snd (fst (getWebsiteId h hostname created))).
Proof.
  unfold getWebsiteId. destruct (websites h !! hostname); [apply same_queue_refl |].
  destruct created as [website | e]; simpl.
  - eapply same_queue_trans; [| apply same_queue_debugf]. split; auto.
  - apply same_queue_error.
Qed.

Lemma same_queue_capture (req : Request) (l : list (string * string)) :
  forall h d, same_queue h (fst (fold_left (captureInto req) l (h, d))).
Proof.
  induction l as [| kv l IH]; intros h d; [apply same_queue_refl |].
  simpl. unfold captureInto at 2. simpl.
  destruct (nonempty (Header_Get req (fst kv))).
  - eapply same_queue_trans; [apply same_queue_debugf | apply IH].
  - apply IH.
Qed.

(** A send under [select] with [default] returns at once. *)
Lemma selectnbsend_returns {A} (c : Chan.chan A) (ep : A) :
  Chan.selectnbsend c ep <> Chan.Parked.
Proof.
  unfold Chan.selectnbsend, Chan.chansend. simpl.
  destruct (Chan.full c), (0 <? Chan.recvq c), (length (Chan.buf c) <? Chan.dataqsiz c);
    discriminate.
Qed.

Lemma selectnbsend_full {A} (c : Chan.chan A) (ep : A) :
  Chan.full c = true -> Chan.selectnbsend c ep = Chan.NotSent.
Proof. intros Hf. unfold Chan.selectnbsend, Chan.chansend. rewrite Hf. reflexivity. Qed.

Lemma selectnbsend_sent {A} (c c' : Chan.chan A) (ep : A) :
  Chan.selectnbsend c ep = Chan.Sent c' ->
  Chan.dataqsiz c' = Chan.dataqsiz c
  /\ ((0 < Chan.recvq c /\ Chan.recvq c' = Chan.recvq c - 1
       /\ Chan.buf c' = Chan.buf c /\ Chan.handoff c' = Chan.handoff c ++ [ep])
      \/ (Chan.recvq c = 0 /\ Chan.recvq c' = 0 /\ length (Chan.buf c) < Chan.dataqsiz c
          /\ Chan.buf c' = Chan.buf c ++ [ep] /\ Chan.handoff c' = Chan.handoff c)).
Proof.
  unfold Chan.selectnbsend, Chan.chansend. simpl.
  destruct (Chan.full c); [discriminate |].
  destruct (Nat.ltb_spec 0 (Chan.recvq c)) as [Hr | Hr].
  - intros [= <-]. simpl. split; [reflexivity |]. left. auto.
  - destruct (Nat.ltb_spec (length (Chan.buf c)) (Chan.dataqsiz c)) as [Hroom | Hroom];
      [| discriminate].
    intros [= <-]. simpl. split; [reflexivity |]. right.
    repeat split; try lia; reflexivity.
Qed.

Lemma selectnbsend_wf {A} (c c' : Chan.chan A) (ep : A) :
  Chan.wf c -> Chan.selectnbsend c ep = Chan.Sent c' -> Chan.wf c'.
Proof.
  intros [Hlen Hrecv] Hs.
  apply selectnbsend_sent in Hs
    as (Hcap & [(Hr & Hr' & Hb & _) | (Hr & Hr' & Hroom & Hb & _)]).
  - split; rewrite Hb, ?Hcap; [exact Hlen | intros _; apply Hrecv; exact Hr].
  - split; [rewrite Hb, Hcap, length_app; simpl; lia | rewrite Hr'; lia].
Qed.

(** For a well-formed channel the runtime's [full] says: the buffer holds
    [dataqsiz] elements and no receiver is parked. *)
Lemma full_iff {A} (c : Chan.chan A) :
  Chan.wf c ->
  Chan.full c = true <-> length (Chan.buf c) = Chan.dataqsiz c /\ Chan.recvq c = 0.
Proof.
  intros [Hlen Hrecv]. unfold Chan.full.
  destruct (Nat.eqb_spec (Chan.dataqsiz c) 0) as [Hz | Hnz].
  - rewrite Nat.eqb_eq. split; [intros Hr; split; [lia | exact Hr] | intros [_ Hr]; exact Hr].
  - rewrite Nat.eqb_eq. split; [| intros [Hl _]; exact Hl].
    intros Hl. split; [exact Hl |].
    destruct (Chan.recvq c) as [| k] eqn:Hk; [reflexivity |].
    assert (Hb : Chan.buf c = []) by (apply Hrecv; lia).
    rewrite Hb in Hl. simpl in Hl. lia.
Qed.

(** The other channel operations keep the invariant as well. *)
Lemma wf_make {A} (size : nat) : Chan.wf (Chan.make (A := A) size).
Proof. split; simpl; [lia | reflexivity]. Qed.

Lemma wf_chanrecv {A} (c : Chan.chan A) :
  Chan.wf c -> Chan.wf (snd (Chan.chanrecv c)).
Proof.
  intros [Hlen Hrecv]. unfold Chan.chanrecv.
  destruct (Chan.buf c) as [| x rest] eqn:Hb; simpl.
  - split; simpl; [lia | reflexivity].
  - split; simpl; [simpl in Hlen; lia |].
    intros Hr. specialize (Hrecv Hr). discriminate Hrecv.
Qed.

Lemma wf_unpark {A} (c : Chan.chan A) : Chan.wf c -> Chan.wf (Chan.unpark c).
Proof.
  intros [Hlen Hrecv]. split; simpl; [exact Hlen |].
  intros Hr. apply Hrecv. lia.
Qed.

(** The shape of every run of [submitToFeed]: either the identifier is
    empty and only the log changes, or an event carrying the identifier is
    offered to the queue by a non-blocking send. *)
Lemma submitToFeed_cases (h : UmamiFeeder) (req : Request) (statusCode unixNow : Z)
    (created : result Website_) :
  let hostname := parseDomainFromHost (Host req) in
  let websiteId := fst (fst (getWebsiteId h hostname created)) in
  let h' := submitToFeed h req statusCode unixNow created in
  (websiteId = EmptyString
   /\ exists h1, same_queue h h1
      /\ h' = error h1 ("tracking skipped, websiteId is unknown: " +:+ hostname))
  \/ (websiteId <> EmptyString
      /\ exists h2 event, same_queue h h2 /\ Website event = websiteId
         /\ Hostname event = hostname
         /\ match Chan.selectnbsend (queue h) event with
            | Chan.Sent q' => h' = set_queue h2 q'
            | Chan.NotSent => h' = error h2 "failed to submit event: queue full"
            | Chan.Parked => False
            end).
Proof.
  intros hostname websiteId h'. subst h' websiteId. unfold submitToFeed. fold hostname.
  pose proof (same_queue_getWebsiteId h hostname created) as Hq1.
  destruct (getWebsiteId h hostname created) as [[websiteId h1] called]. simpl in *.
  destruct (String.eqb_spec websiteId "") as [-> | Hne].
  - left. split; [reflexivity |]. exists h1. split; [exact Hq1 | reflexivity].
  - right. split; [exact Hne |].
    match goal with
    | |- context [fold_left (captureInto req) ?l (h1, ?d)] =>
      pose proof (same_queue_capture req l h1 d) as Hq2;
      destruct (fold_left (captureInto req) l (h1, d)) as [h2 data1]
    end.
    simpl in Hq2.
    pose proof (same_queue_trans _ _ _ Hq1 Hq2) as Hq.
    match goal with
    | |- context [Chan.selectnbsend (queue h2) ?ev] =>
      exists h2, ev; pose proof (selectnbsend_returns (queue h2) ev) as Hnp
    end.
    split; [exact Hq |]. split; [reflexivity |]. split; [reflexivity |].
    destruct Hq as [Hqueue _]. rewrite <- Hqueue.
    destruct (Chan.selectnbsend (queue h2) _); [reflexivity | reflexivity | congruence].
Qed.

(** C2, as the code has it.  The send of [submitToFeed] never parks the
    caller; the channel stays well formed with the same capacity, so the
    buffer never holds more than [queueSize] events; and when the buffer
    already holds [queueSize] events and no receiver is parked on the channel
    (no receiver can be when [queueSize > 0]) the queue is left as it was
    and, for a resolved site, the error "queue full" is printed. *)
Theorem enqueue_never_blocks_bounded (h : UmamiFeeder) (req : Request)
    (statusCode unixNow : Z) (created : result Website_) :
  Chan.wf (queue h) ->
  let websiteId := fst (fst (getWebsiteId h (parseDomainFromHost (Host req)) created)) in
  let h' := submitToFeed h req statusCode unixNow created in
  (forall event, Chan.selectnbsend (queue h) event <> Chan.Parked)
  /\ Chan.wf (queue h')
  /\ Chan.dataqsiz (queue h') = Chan.dataqsiz (queue h)
  /\ length (Chan.buf (queue h')) <= Chan.dataqsiz (queue h)
  /\ (length (Chan.buf (queue h)) = Chan.dataqsiz (queue h) ->
      Chan.recvq (queue h) = 0 \/ 0 < Chan.dataqsiz (queue h) ->
      queue h' = queue h
      /\ (websiteId <> EmptyString -> logHandler h <> None ->
          exists out, printed h' = out ++ [ERR "failed to submit event: queue full"])).
Proof.
  intros Hwf websiteId h'.
  assert (Hshape : queue h' = queue h
                   \/ exists event, Chan.selectnbsend (queue h) event = Chan.Sent (queue h')).
  { destruct (submitToFeed_cases h req statusCode unixNow created)
      as [(_ & h1 & [Hq _] & Heq) | (_ & h2 & event & [Hq _] & _ & _ & Hsend)].
    - left. fold h' in Heq. rewrite Heq. rewrite (proj1 (same_queue_error h1 _)). exact Hq.
    - fold h' in Hsend. destruct (Chan.selectnbsend (queue h) event) as [q' | |] eqn:Hs.
      + right. exists event. rewrite Hs, Hsend. reflexivity.
      + left. rewrite Hsend, (proj1 (same_queue_error h2 _)). exact Hq.
      + contradiction. }
  assert (Hwf' : Chan.wf (queue h') /\ Chan.dataqsiz (queue h') = Chan.dataqsiz (queue h)).
  { destruct Hshape as [-> | (event & Hs)]; [auto |].
    split; [eapply selectnbsend_wf; eauto | apply (selectnbsend_sent _ _ _ Hs)]. }
  split; [intros event; apply selectnbsend_returns |].
  split; [apply Hwf' |]. split; [apply Hwf' |].
  split; [destruct Hwf' as [[Hlen _] Hcap]; lia |].
  intros Hfill Hnorecv.
  assert (Hfull : Chan.full (queue h) = true).
  { apply full_iff; [exact Hwf |]. split; [exact Hfill |].
    destruct Hnorecv as [Hr | Hpos]; [exact Hr |].
    destruct Hwf as [_ Hrecv]. destruct (Chan.recvq (queue h)) as [| k] eqn:Hk; [reflexivity |].
    assert (Hb : Chan.buf (queue h) = []) by (apply Hrecv; lia).
    rewrite Hb in Hfill. simpl in Hfill. lia. }
  destruct (submitToFeed_cases h req statusCode unixNow created)
    as [(Hid & h1 & [Hq _] & Heq) | (_ & h2 & event & [Hq Hlog] & _ & _ & Hsend)].
  - fold h' in Heq. split; [rewrite Heq, (proj1 (same_queue_error h1 _)); exact Hq |].
    intros Hne. fold websiteId in Hid. congruence.
  - fold h' in Hsend. rewrite (selectnbsend_full _ event Hfull) in Hsend.
    split; [rewrite Hsend, (proj1 (same_queue_error h2 _)); exact Hq |].
    intros _ Hlogger. exists (printed h2). rewrite Hsend. apply printed_error. auto.
Qed.

(** C8.  If every event that went through the queue so far carries a
    non-empty site identifier, so does every event after [submitToFeed]: the
    identifier is resolved first; when it is empty the queue is left
    untouched and the request is reported as skipped; otherwise the one
    event offered to the queue carries the resolved identifier. *)
Theorem enqueued_events_have_website (h : UmamiFeeder) (req : Request)
    (statusCode unixNow : Z) (created : result Website_) :
  Forall (fun e => Website e <> EmptyString) (Chan.buf (queue h) ++ Chan.handoff (queue h)) ->
  let hostname := parseDomainFromHost (Host req) in
  let websiteId := fst (fst (getWebsiteId h hostname created)) in
  let h' := submitToFeed h req statusCode unixNow created in
  Forall (fun e => Website e <> EmptyString) (Chan.buf (queue h') ++ Chan.handoff (queue h'))
  /\ (websiteId = EmptyString ->
      queue h' = queue h
      /\ (logHandler h <> None ->
          exists out, printed h'
                      = out ++ [ERR ("tracking skipped, websiteId is unknown: " +:+ hostname)]))
  /\ (queue h' <> queue h ->
      exists event, Website event = websiteId /\ websiteId <> EmptyString
                    /\ Chan.selectnbsend (queue h) event = Chan.Sent (queue h')).
Proof.
  intros Hinv hostname websiteId h'.
  destruct (submitToFeed_cases h req statusCode unixNow created)
    as [(Hid & h1 & [Hq Hlog] & Heq) | (Hid & h2 & event & [Hq Hlog] & Hweb & _ & Hsend)];
    fold hostname in Hid, Heq || fold hostname in Hid, Hweb; fold websiteId in Hid.
  - fold h' in Heq.
    assert (Hsame : queue h' = queue h)
      by (rewrite Heq, (proj1 (same_queue_error h1 _)); exact Hq).
    split; [rewrite Hsame; exact Hinv |]. split.
    + intros _. split; [exact Hsame |]. intros Hlogger.
      exists (printed h1). rewrite Heq. apply printed_error. auto.
    + intros Hne. contradiction.
  - fold h' in Hsend. fold websiteId in Hweb.
    destruct (Chan.selectnbsend (queue h) event) as [q' | |] eqn:Hs; [| | contradiction].
    + assert (Hq' : queue h' = q') by (rewrite Hsend; reflexivity).
      split; [| split; [intros Hempty; congruence |]].
      * rewrite Hq'.
        apply selectnbsend_sent in Hs
          as (_ & [(_ & _ & -> & ->) | (_ & _ & _ & -> & ->)]).
        -- rewrite app_assoc. apply Forall_app. split; [exact Hinv |].
           constructor; [congruence | constructor].
        -- apply Forall_app in Hinv as [Hb Hh].
           rewrite <- app_assoc. simpl. apply Forall_app. split; [exact Hb |].
           constructor; [congruence | exact Hh].
      * intros _. exists event. rewrite Hq'. auto.
    + assert (Hsame : queue h' = queue h)
        by (rewrite Hsend, (proj1 (same_queue_error h2 _)); exact Hq).
      split; [rewrite Hsame; exact Hinv |].
      split; [intros Hempty; congruence | intros Hne; contradiction].
Qed.

End Producer.

Lemma enqueue_never_blocks_bounded_witness :
  let h' := submitToFeed feeder_full (ExampleStd.request "example.org" "/about")
              200 1700000000 (Err "not called") in
  queue h' = queue feeder_full
  /\ exists out, printed h' = out ++ [ERR "failed to submit event: queue full"].
Proof.
  intros h'.
  assert (Hwf : Chan.wf (queue feeder_full)).
  { split; simpl; [lia | intros Hr; inversion Hr]. }
  destruct (enqueue_never_blocks_bounded feeder_full
              (ExampleStd.request "example.org" "/about") 200 1700000000
              (Err "not called") Hwf) as (_ & _ & _ & _ & Hdrop).
  destruct (Hdrop eq_refl (or_introl eq_refl)) as [Hsame Hlog].
  split; [exact Hsame |].
  apply Hlog; [vm_compute; discriminate | discriminate].
Defined.

(** C2 as stated fails for [queueSize = 0]: the queue holds as many events
    as its capacity, none, but the worker is parked in its receive; the
    event is handed to the worker, nothing is dropped and nothing printed. *)
Lemma unbuffered_queue_hands_over :
  let h' := submitToFeed feeder_unbuffered (ExampleStd.request "example.org" "/about")
              200 1700000000 (Err "not called") in
  Chan.wf (queue feeder_unbuffered)
  /\ length (Chan.buf (queue feeder_unbuffered)) = Chan.dataqsiz (queue feeder_unbuffered)
  /\ printed h' = []
  /\ Chan.buf (queue h') = []
  /\ map Website (Chan.handoff (queue h')) = ["site-1"].
Proof.
  split.
  - split; simpl; [lia | reflexivity].
  - vm_compute. repeat split; reflexivity.
Qed.

Lemma enqueued_events_have_website_witness :
  let h' := submitToFeed feeder_site (ExampleStd.request "example.org" "/about")
              200 1700000000 (Err "not called") in
  Forall (fun e => Website e <> EmptyString)
         (Chan.buf (queue h') ++ Chan.handoff (queue h')).
Proof.
  apply (enqueued_events_have_website feeder_site
           (ExampleStd.request "example.org" "/about") 200 1700000000 (Err "not called")).
  simpl. constructor.
Defined.

(** ** Consumer: the worker loop *)

Section Consumer.
Context `{GoStd}.

Lemma same_settings_refl (h : UmamiFeeder) : same_settings h h.
Proof. repeat split. Qed.

Lemma same_settings_trans (h1 h2 h3 : UmamiFeeder) :
  same_settings h1 h2 -> same_settings h2 h3 -> same_settings h1 h3.
Proof. intros (A1 & B1 & C1) (A2 & B2 & C2). repeat split; congruence. Qed.

Lemma same_settings_debugf (h : UmamiFeeder) (f : string) : same_settings h (debugf h f).
Proof.
  unfold debugf. destruct (logHandler h); [| apply same_settings_refl].
  destruct (isDebug h); repeat split.
Qed.

Lemma same_settings_error (h : UmamiFeeder) (m : string) : same_settings h (error h m).
Proof. unfold error. destruct (logHandler h); repeat split. Qed.

Lemma reportEventsToUmami_spec (h : UmamiFeeder) (reports : list Report) (at_ : Z)
    (events : list (Z * SendBody)) (o : SendOutcome) :
  exists h',
    same_settings h h'
    /\ reportEventsToUmami h reports at_ events o
       = (match o with SendPanic v => Some v | _ => None end, h',
          reports ++ [mkReport at_ (umamiHost h +:+ "/api/batch") events]).
Proof.
  unfold reportEventsToUmami. destruct o as [status body | e | v].
  - eexists. split; [| reflexivity].
    destruct (isDebug (debugf h "reporting %d events")).
    + eapply same_settings_trans; apply same_settings_debugf.
    + apply same_settings_debugf.
  - eexists. split; [| reflexivity].
    eapply same_settings_trans; [apply same_settings_debugf | apply same_settings_error].
  - eexists. split; [| reflexivity]. apply same_settings_debugf.
Qed.

(** What one pass does to the calls made, the batch and the timer. *)
Lemma feeder_iter_spec (w : Worker) (t : Tick) :
  same_settings (w_h w) (w_h (worker_of (feeder_iter w t)))
  /\ match sel t with
     | SelCtxDone =>
       (feeder_iter w t <> Continue (worker_of (feeder_iter w t)))
       /\ w_reports (worker_of (feeder_iter w t))
          = w_reports w ++ (if 0 <? length (w_batch w)
                            then [flush_of w (now t) (w_batch w)] else [])
     | SelRecv event =>
       let batch := w_batch w ++ [(now t, mkSendBody event "event")] in
       if (batchSize (w_h w) <=? Z.of_nat (length batch))%Z
       then w_reports (worker_of (feeder_iter w t))
            = w_reports w ++ [flush_of w (now t) batch]
            /\ match send t with
               | SendPanic v => exists w', feeder_iter w t = Panic v w'
               | _ => exists h', feeder_iter w t
                                 = Continue (mkWorker _ h' (w_reports w ++ [flush_of w (now t) batch])
                                                      [] (now t))
               end
       else feeder_iter w t = Continue (mkWorker _ (w_h w) (w_reports w) batch (w_armed w))
     | SelTimeout =>
       if 0 <? length (w_batch w)
       then w_reports (worker_of (feeder_iter w t))
            = w_reports w ++ [flush_of w (now t) (w_batch w)]
            /\ match send t with
               | SendPanic v => exists w', feeder_iter w t = Panic v w'
               | _ => exists h', feeder_iter w t
                                 = Continue (mkWorker _ h'
                                               (w_reports w ++ [flush_of w (now t) (w_batch w)])
                                               [] (now t))
               end
       else feeder_iter w t = Continue (mkWorker _ (w_h w) (w_reports w) (w_batch w) (now t))
     end.
Proof.
  unfold feeder_iter, flush_of. destruct (sel t) as [| event |].
  - destruct (0 <? length (w_batch w)).
    + destruct (reportEventsToUmami_spec
                  (debugf (w_h w) "worker shutting down (canceled)") (w_reports w) (now t)
                  (w_batch w) (send t)) as (h' & Hs & ->).
      assert (Hs' : same_settings (w_h w) h')
        by (eapply same_settings_trans; [apply same_settings_debugf | exact Hs]).
      assert (Hhost : umamiHost (debugf (w_h w) "worker shutting down (canceled)")
                      = umamiHost (w_h w)) by apply same_settings_debugf.
      rewrite Hhost.
      destruct (send t); simpl; (split; [exact Hs' | split; [discriminate | reflexivity]]).
    + simpl. split; [apply same_settings_debugf |].
      split; [discriminate | rewrite app_nil_r; reflexivity].
  - cbv zeta. destruct (_ <=? _)%Z.
    + destruct (reportEventsToUmami_spec (w_h w) (w_reports w) (now t)
                  (w_batch w ++ [(now t, mkSendBody event "event")]) (send t))
        as (h' & Hs & ->).
      destruct (send t); simpl; (split; [exact Hs | split; [reflexivity | eauto]]).
    + simpl. split; [apply same_settings_refl | reflexivity].
  - destruct (0 <? length (w_batch w)).
    + destruct (reportEventsToUmami_spec (w_h w) (w_reports w) (now t)
                  (w_batch w) (send t)) as (h' & Hs & ->).
      destruct (send t); simpl; (split; [exact Hs | split; [reflexivity | eauto]]).
    + simpl. split; [apply same_settings_refl | reflexivity].
Qed.

Lemma feeder_loop_app (pre more : list Tick) :
  forall w w1,
  feeder_loop w pre = (Continue w1, []) ->
  feeder_loop w (pre ++ more) = feeder_loop w1 more.
Proof.
  induction pre as [| t pre IH]; intros w w1 Hrun; simpl in *.
  - inversion Hrun. reflexivity.
  - destruct (feeder_iter w t) as [w' | w' | v w']; [apply IH; exact Hrun | |];
      inversion Hrun.
Qed.

(** [umamiEventFeeder] never returns an error: the restart branch of
    [startWorker] is dead. *)
Lemma umamiEventFeeder_nil (h : UmamiFeeder) (reports : list Report) (start : Z)
    (ticks : list Tick) :
  fst (fst (umamiEventFeeder h reports start ticks)) = Blocked
  \/ fst (fst (umamiEventFeeder h reports start ticks)) = Returned None.
Proof.
  unfold umamiEventFeeder. destruct (batchSize h <? 0)%Z; [right; reflexivity |].
  destruct (feeder_loop _ ticks) as [[w | w | v w] rest]; simpl; auto.
Qed.

(** C1, what the code does.  When a pass of the loop panics, the deferred
    function of [umamiEventFeeder] recovers and prints the panic, the
    function returns nil, and [startWorker], which restarts the loop only on
    an error, returns: the worker is gone and the passes still to come
    ([rest], the events queued from then on) are never consumed. *)
Theorem worker_stops_after_panic (fuel : nat) (h : UmamiFeeder) (reports : list Report)
    (start : Z) (pre : list Tick) (t : Tick) (rest : list Tick) (w w' : Worker) (v : string) :
  (0 <= batchSize h)%Z ->
  feeder_loop (mkWorker _ h reports [] start) pre = (Continue w, []) ->
  feeder_iter w t = Panic v w' ->
  startWorker (S fuel) h reports start (pre ++ t :: rest)
  = WorkerExited (mkWorker _ (error (w_h w') ("panic: " +:+ v))
                           (w_reports w') (w_batch w') (w_armed w')) rest.
Proof.
  intros Hsize Hpre Hpanic. simpl. unfold umamiEventFeeder.
  destruct (Z.ltb_spec (batchSize h) 0); [lia |].
  rewrite (feeder_loop_app pre (t :: rest) _ w Hpre). simpl. rewrite Hpanic. reflexivity.
Qed.



Lemma flush_in_time (w : Worker) (last nw : Z) :
  batch_fresh w last ->
  (last <= nw <= timer_deadline w)%Z ->
  (0 <= batchMaxWait (w_h w))%Z
  /\ Forall (fun te => (fst te <= nw <= fst te + batchMaxWait (w_h w))%Z) (w_batch w).
Proof.
  unfold batch_fresh, timer_deadline. intros [Harmed Hall] Hnow. split; [lia |].
  eapply Forall_impl; [exact Hall |]. simpl. intros te Hte. lia.
Qed.

Lemma feeder_iter_timely (w : Worker) (last : Z) (t : Tick) :
  batch_fresh w last ->
  Forall (report_in_time (batchMaxWait (w_h w))) (w_reports w) ->
  (last <= now t <= timer_deadline w)%Z ->
  Forall (report_in_time (batchMaxWait (w_h w))) (w_reports (worker_of (feeder_iter w t)))
  /\ batchMaxWait (w_h (worker_of (feeder_iter w t))) = batchMaxWait (w_h w)
  /\ (forall w', feeder_iter w t = Continue w' -> batch_fresh w' (now t)).
Proof.
  intros Hfresh Hold Hnow.
  destruct (flush_in_time w last (now t) Hfresh Hnow) as [Hpos Hbatch].
  destruct (feeder_iter_spec w t) as [(_ & Hwait & _) Hspec].
  split; [| split; [exact Hwait |]].
  - destruct (sel t) as [| event |]; cbv zeta in Hspec.
    + destruct Hspec as [_ ->]. apply Forall_app. split; [exact Hold |].
      destruct (0 <? length (w_batch w)); constructor; [exact Hbatch | constructor].
    + destruct (_ <=? _)%Z; [| rewrite Hspec; exact Hold].
      destruct Hspec as [-> _]. apply Forall_app. split; [exact Hold |].
      constructor; [| constructor]. unfold report_in_time. simpl.
      apply Forall_app. split; [exact Hbatch |]. constructor; [simpl; lia | constructor].
    + destruct (0 <? length (w_batch w)); [| rewrite Hspec; exact Hold].
      destruct Hspec as [-> _]. apply Forall_app. split; [exact Hold |].
      constructor; [exact Hbatch | constructor].
  - intros w' Hc. destruct Hfresh as [Harmed Hall]. unfold batch_fresh.
    destruct (sel t) as [| event |]; cbv zeta in Hspec.
    + destruct Hspec as [Hnc _]. exfalso. apply Hnc. rewrite Hc. reflexivity.
    + destruct (_ <=? _)%Z.
      * destruct Hspec as [_ Hs].
        destruct (send t); destruct Hs as [x Hx]; rewrite Hx in Hc; inversion Hc; subst w';
          simpl; split; try lia; constructor.
      * rewrite Hspec in Hc. inversion Hc; subst w'. simpl. split; [lia |].
        apply Forall_app. split.
        -- eapply Forall_impl; [exact Hall |]. simpl. intros te Hte. lia.
        -- constructor; [simpl; lia | constructor].
    + destruct (0 <? length (w_batch w)) eqn:Hlen.
      * destruct Hspec as [_ Hs].
        destruct (send t); destruct Hs as [x Hx]; rewrite Hx in Hc; inversion Hc; subst w';
          simpl; split; try lia; constructor.
      * rewrite Hspec in Hc. inversion Hc; subst w'. simpl. split; [lia |].
        destruct (w_batch w); [constructor | simpl in Hlen; discriminate].
Qed.

Lemma concat_events_snoc (reports : list Report) (r : Report) :
  concat (map rp_events (reports ++ [r])) = concat (map rp_events reports) ++ rp_events r.
Proof. rewrite map_app, concat_app. simpl. rewrite app_nil_r. reflexivity. Qed.

(** One pass taken in time. *)
Lemma feeder_iter_on_time (maxWait : Z) (w : Worker) (last : Z)
    (taken : list (Z * SendBody)) (t : Tick) :
  on_time maxWait w last taken ->
  (0 <= maxWait)%Z ->
  (last <= now t <= timer_deadline w)%Z ->
  match feeder_iter w t with
  | Continue w' =>
    on_time maxWait w' (now t) (taken ++ appended t)
    /\ (sel t = SelTimeout -> timer_deadline w' = (now t + maxWait)%Z)
  | ReturnNil w' => handed_over maxWait w' (taken ++ appended t)
  | Panic _ w' => handed_over maxWait w' (taken ++ appended t)
  end.
Proof.
  intros (Hwait & Hfresh & Hdue & Hold & Htaken) Hpos Hnow.
  rewrite <- Hwait in Hold.
  destruct (feeder_iter_timely w last t Hfresh Hold Hnow) as (Hrep & Hwait' & Hnext).
  rewrite Hwait in Hrep, Hwait'.
  destruct (feeder_iter_spec w t) as [_ Hspec].
  assert (Hevents :
    match feeder_iter w t with
    | Continue w' =>
      concat (map rp_events (w_reports w')) ++ w_batch w' = taken ++ appended t
      /\ (now t <= timer_deadline w')%Z
      /\ (sel t = SelTimeout -> w_armed w' = now t)
    | ReturnNil w' => concat (map rp_events (w_reports w')) = taken ++ appended t
    | Panic _ w' => concat (map rp_events (w_reports w')) = taken ++ appended t
    end).
  { unfold appended, timer_deadline in *. subst taken.
    destruct (sel t) as [| event |]; cbv zeta in Hspec; rewrite ?app_nil_r.
    - destruct Hspec as [Hnc Hr].
      assert (Hc : concat (map rp_events (w_reports (worker_of (feeder_iter w t))))
                   = concat (map rp_events (w_reports w)) ++ w_batch w).
      { rewrite Hr. destruct (w_batch w) as [| te b] eqn:Hb; simpl.
        - rewrite !app_nil_r. reflexivity.
        - rewrite concat_events_snoc. reflexivity. }
      destruct (feeder_iter w t) as [w' | w' | v w']; simpl in Hc;
        [exfalso; apply Hnc; reflexivity | exact Hc | exact Hc].
    - destruct (_ <=? _)%Z.
      + destruct Hspec as [Hr Hs].
        assert (Hc : concat (map rp_events (w_reports (worker_of (feeder_iter w t))))
                     = (concat (map rp_events (w_reports w)) ++ w_batch w)
                       ++ [(now t, mkSendBody event "event")]).
        { rewrite Hr, concat_events_snoc. simpl. rewrite app_assoc. reflexivity. }
        destruct (send t); destruct Hs as [x Hx]; rewrite Hx in *; simpl in *;
          rewrite ?app_nil_r; try exact Hc;
          (split; [exact Hc | split; [rewrite Hwait'; lia | discriminate]]).
      + rewrite Hspec. simpl. split; [rewrite app_assoc; reflexivity |].
        rewrite Hwait. split; [lia | discriminate].
    - destruct (0 <? length (w_batch w)) eqn:Hlen.
      + destruct Hspec as [Hr Hs].
        assert (Hc : concat (map rp_events (w_reports (worker_of (feeder_iter w t))))
                     = concat (map rp_events (w_reports w)) ++ w_batch w).
        { rewrite Hr, concat_events_snoc. reflexivity. }
        destruct (send t); destruct Hs as [x Hx]; rewrite Hx in *; simpl in *;
          rewrite ?app_nil_r; try exact Hc;
          (split; [exact Hc | split; [rewrite Hwait'; lia | reflexivity]]).
      + rewrite Hspec. simpl. split; [reflexivity |].
        rewrite Hwait. split; [lia | reflexivity]. }
  destruct (feeder_iter w t) as [w' | w' | v w']; simpl in *.
  - destruct Hevents as (Hc & Hdue' & Harm).
    split; [| intros Hsel; unfold timer_deadline; rewrite (Harm Hsel), Hwait'; reflexivity].
    split; [exact Hwait' |]. split; [apply Hnext; reflexivity |].
    split; [exact Hdue' |]. split; [exact Hrep | exact Hc].
  - split; [exact Hrep | exact Hevents].
  - split; [exact Hrep | exact Hevents].
Qed.

(** The timer served [n] times: it is armed again each time, so it is due
    [n] times [batchMaxWait] later than before. *)
Lemma serve_timer_on_time (collector : nat -> SendOutcome) (maxWait bound : Z)
    (taken : list (Z * SendBody)) (n : nat) :
  forall (w : Worker) (last : Z),
  (0 < maxWait)%Z ->
  on_time maxWait w last taken ->
  (last <= bound)%Z ->
  (0 < n -> (timer_deadline w + (Z.of_nat n - 1) * maxWait <= bound)%Z) ->
  match serve_timer n collector w with
  | Continue w' =>
    (exists last', on_time maxWait w' last' taken /\ (last' <= bound)%Z)
    /\ timer_deadline w' = (timer_deadline w + Z.of_nat n * maxWait)%Z
  | ReturnNil w' => handed_over maxWait w' taken
  | Panic _ w' => handed_over maxWait w' taken
  end.
Proof.
  induction n as [| n IH]; intros w last Hpos Hon Hlast Hbound.
  - simpl. split; [exists last; auto | lia].
  - cbn [serve_timer].
    assert (Hdue : (last <= timer_deadline w)%Z) by apply Hon.
    pose proof (feeder_iter_on_time maxWait w last taken (timer_tick collector w) Hon
                  ltac:(lia) ltac:(simpl; lia)) as Hpass.
    unfold appended in Hpass. simpl in Hpass. rewrite app_nil_r in Hpass.
    destruct (feeder_iter w (timer_tick collector w)) as [w1 | w1 | v w1];
      [| exact Hpass | exact Hpass].
    destruct Hpass as [Hon1 Hdue1]. specialize (Hdue1 eq_refl).
    specialize (IH w1 (timer_deadline w) Hpos Hon1).
    assert (Hb0 : (timer_deadline w + (Z.of_nat (S n) - 1) * maxWait <= bound)%Z)
      by (apply Hbound; lia).
    destruct (serve_timer n collector w1) as [w' | w' | v w'].
    + destruct IH as [Hex Hd]; [nia | intros Hn; rewrite Hdue1; nia |].
      split; [exact Hex | rewrite Hd, Hdue1; lia].
    + apply IH; [nia | intros Hn; rewrite Hdue1; nia].
    + apply IH; [nia | intros Hn; rewrite Hdue1; nia].
Qed.

(** The timer served as often as it is due up to [upto]: afterwards it is
    due later than [upto]. *)
Lemma serve_timer_upto (collector : nat -> SendOutcome) (maxWait bound upto : Z)
    (taken : list (Z * SendBody)) (w : Worker) (last : Z) :
  (0 < maxWait)%Z ->
  on_time maxWait w last taken ->
  (last <= bound)%Z -> (upto <= bound)%Z ->
  match serve_timer (expiries w upto) collector w with
  | Continue w' =>
    (exists last', on_time maxWait w' last' taken /\ (last' <= bound)%Z)
    /\ (upto < timer_deadline w')%Z
  | ReturnNil w' => handed_over maxWait w' taken
  | Panic _ w' => handed_over maxWait w' taken
  end.
Proof.
  intros Hpos Hon Hlast Hupto.
  assert (Hwait : batchMaxWait (w_h w) = maxWait) by apply Hon.
  unfold expiries. rewrite Hwait.
  set (d := (upto - timer_deadline w)%Z).
  pose proof (Z.mul_div_le d maxWait Hpos) as Hle.
  pose proof (Z.mul_succ_div_gt d maxWait Hpos) as Hgt.
  assert (Hn : Z.of_nat (Z.to_nat (d / maxWait + 1)) = Z.max 0 (d / maxWait + 1)) by lia.
  pose proof (serve_timer_on_time collector maxWait bound taken
                (Z.to_nat (d / maxWait + 1)) w last Hpos Hon Hlast) as Hrun.
  destruct (serve_timer _ collector w) as [w' | w' | v w'].
  - destruct Hrun as [Hex Hd]; [intros Hn0; subst d; nia |].
    split; [exact Hex |]. rewrite Hd, Hn. subst d. nia.
  - apply Hrun. intros Hn0. subst d. nia.
  - apply Hrun. intros Hn0. subst d. nia.
Qed.

Lemma input_events_app (a b : list Input) :
  input_events (a ++ b) = input_events a ++ input_events b.
Proof. unfold input_events. apply flat_map_app. Qed.

Lemma appended_input (collector : nat -> SendOutcome) (w : Worker) (i : Input) :
  appended (input_tick collector w i) = input_events [i].
Proof. destruct i; reflexivity. Qed.

(** The whole run. *)
Lemma serve_on_time (collector : nat -> SendOutcome) (prefer_timer : Z -> bool)
    (maxWait until : Z) (inputs : list Input) :
  forall (w : Worker) (last : Z) (taken : list (Z * SendBody)),
  (0 < maxWait)%Z ->
  on_time maxWait w last taken ->
  in_order last inputs ->
  exists consumed,
    inputs = consumed ++ snd (serve collector prefer_timer w inputs until)
    /\ match fst (serve collector prefer_timer w inputs until) with
       | Continue w' =>
         consumed = inputs
         /\ (exists last', on_time maxWait w' last' (taken ++ input_events inputs))
         /\ (until < timer_deadline w')%Z
       | ReturnNil w' => handed_over maxWait w' (taken ++ input_events consumed)
       | Panic _ w' => handed_over maxWait w' (taken ++ input_events consumed)
       end.
Proof.
  induction inputs as [| i rest IH]; intros w last taken Hpos Hon Horder.
  - exists []. cbn [serve fst snd]. split; [reflexivity |].
    pose proof (serve_timer_upto collector maxWait (Z.max last until) until taken w last
                  Hpos Hon ltac:(lia) ltac:(lia)) as Hrun.
    unfold input_events. simpl. rewrite app_nil_r.
    destruct (serve_timer _ collector w) as [w' | w' | v w'];
      [| exact Hrun | exact Hrun].
    destruct Hrun as [(last' & Hon' & _) Hdue].
    split; [reflexivity |]. split; [exists last'; exact Hon' | exact Hdue].
  - destruct Horder as [Hi Horder]. cbn [serve].
    set (upto := if prefer_timer (input_time i) then input_time i
                 else (input_time i - 1)%Z).
    assert (Hupto : (input_time i - 1 <= upto <= input_time i)%Z)
      by (subst upto; destruct (prefer_timer (input_time i)); lia).
    pose proof (serve_timer_upto collector maxWait (input_time i) upto taken w last
                  Hpos Hon Hi ltac:(lia)) as Hrun.
    destruct (serve_timer _ collector w) as [w1 | w1 | v w1].
    + destruct Hrun as [(last1 & Hon1 & Hlast1) Hdue1].
      pose proof (feeder_iter_on_time maxWait w1 last1 taken (input_tick collector w1 i)
                    Hon1 ltac:(lia) ltac:(simpl; lia)) as Hpass.
      rewrite appended_input in Hpass.
      destruct (feeder_iter w1 (input_tick collector w1 i)) as [w2 | w2 | v w2].
      * destruct Hpass as [Hon2 _]. simpl in Hon2.
        destruct (IH w2 (input_time i) (taken ++ input_events [i]) Hpos Hon2 Horder)
          as (consumed & Hsplit & Hres).
        exists (i :: consumed). split; [simpl; f_equal; exact Hsplit |].
        change (i :: rest) with ([i] ++ rest).
        change (i :: consumed) with ([i] ++ consumed).
        rewrite !input_events_app, !app_assoc.
        destruct (fst (serve collector prefer_timer w2 rest until)) as [w' | w' | v w'];
          [| exact Hres | exact Hres].
        destruct Hres as (-> & Hex & Hdue). split; [reflexivity |]. split; assumption.
      * exists [i]. split; [reflexivity | exact Hpass].
      * exists [i]. split; [reflexivity | exact Hpass].
    + exists []. split; [reflexivity |]. unfold input_events. simpl.
      rewrite app_nil_r. exact Hrun.
    + exists []. split; [reflexivity |]. unfold input_events. simpl.
      rewrite app_nil_r. exact Hrun.
Qed.

Lemma In_input_events (inputs : list Input) (a : Z) (event : UmamiEvent) :
  In (InEvent a event) inputs -> In (a, mkSendBody event "event") (input_events inputs).
Proof.
  intros Hin. unfold input_events. apply in_flat_map.
  exists (InEvent a event). split; [exact Hin | left; reflexivity].
Qed.

Lemma reported_in_time (maxWait : Z) (reports : list Report) (te : Z * SendBody) :
  Forall (report_in_time maxWait) reports ->
  In te (concat (map rp_events reports)) ->
  exists r, In r reports /\ In te (rp_events r)
            /\ (fst te <= rp_at r <= fst te + maxWait)%Z.
Proof.
  intros Hall Hin. apply in_concat in Hin as (events & Hev & Hte).
  apply in_map_iff in Hev as (r & <- & Hr). exists r.
  split; [exact Hr |]. split; [exact Hte |].
  rewrite List.Forall_forall in Hall. specialize (Hall r Hr).
  unfold report_in_time in Hall. rewrite List.Forall_forall in Hall. apply Hall. exact Hte.
Qed.

(** The timer is armed again only in a pass that leaves the batch empty,
    and every pass on the timer case arms it again, at the time of the
    pass, and leaves the batch empty. *)
Lemma timer_rearmed (w0 w1 : Worker) (t0 : Tick) :
  feeder_iter w0 t0 = Continue w1 ->
  (w_armed w1 <> w_armed w0 -> w_batch w1 = [] /\ w_armed w1 = now t0)
  /\ (sel t0 = SelTimeout -> w_batch w1 = [] /\ w_armed w1 = now t0).
Proof.
  intros Hc. destruct (feeder_iter_spec w0 t0) as [_ Hspec].
  destruct (sel t0) as [| event |]; cbv zeta in Hspec.
  - destruct Hspec as [Hnc _]. exfalso. apply Hnc. rewrite Hc. reflexivity.
  - split; [| discriminate]. destruct (_ <=? _)%Z.
    + destruct Hspec as [_ Hs].
      destruct (send t0); destruct Hs as [x Hx]; rewrite Hx in Hc; inversion Hc; subst w1;
        simpl; auto.
    + rewrite Hspec in Hc. inversion Hc; subst w1. simpl. congruence.
  - assert (Hboth : w_batch w1 = [] /\ w_armed w1 = now t0); [| split; intros _; exact Hboth].
    destruct (0 <? length (w_batch w0)) eqn:Hlen.
    + destruct Hspec as [_ Hs].
      destruct (send t0); destruct Hs as [x Hx]; rewrite Hx in Hc; inversion Hc; subst w1;
        simpl; auto.
    + rewrite Hspec in Hc. inversion Hc; subst w1. simpl. split; [| reflexivity].
      destruct (w_batch w0); [reflexivity | simpl in Hlen; discriminate].
Qed.

(** C6.  The worker with its timer, not kept waiting, over any inputs in
    order of time and watched up to any time [until], with [batchMaxWait]
    positive and whatever the collector answers.  Every batch handed to
    [reportEventsToUmami] is handed over at most [batchMaxWait] after each
    of its elements was appended.  Every event the worker has taken at
    least [batchMaxWait] before [until], or before its loop ended, has been
    handed over, at most [batchMaxWait] after it was taken: the flush
    occurs, also when nothing arrives after the event.  While the loop
    runs it has taken every input, its timer is armed and due after
    [until], and what is pending was taken less than [batchMaxWait] before
    [until].  The timer is armed again only in a pass that leaves the batch
    empty, and every pass on the timer case arms it again. *)
Theorem batch_flushed_within_max_wait (collector : nat -> SendOutcome)
    (prefer_timer : Z -> bool) (h : UmamiFeeder) (start until : Z) (inputs : list Input) :
  (0 < batchMaxWait h)%Z ->
  in_order start inputs ->
  let run := serve collector prefer_timer (mkWorker _ h [] [] start) inputs until in
  let w := worker_of (fst run) in
  exists consumed,
    inputs = consumed ++ snd run
    /\ Forall (report_in_time (batchMaxWait h)) (w_reports w)
    /\ (forall a event, In (InEvent a event) consumed ->
        (a + batchMaxWait h <= until)%Z \/ fst run <> Continue w ->
        exists r, In r (w_reports w)
                  /\ In (a, mkSendBody event "event") (rp_events r)
                  /\ (a <= rp_at r <= a + batchMaxWait h)%Z)
    /\ (fst run = Continue w ->
        consumed = inputs
        /\ batchMaxWait (w_h w) = batchMaxWait h
        /\ (until < timer_deadline w)%Z
        /\ Forall (fun te => (until < fst te + batchMaxWait h)%Z) (w_batch w)
        /\ concat (map rp_events (w_reports w)) ++ w_batch w = input_events inputs)
    /\ (forall w0 t0 w1, feeder_iter w0 t0 = Continue w1 ->
        (w_armed w1 <> w_armed w0 -> w_batch w1 = [] /\ w_armed w1 = now t0)
        /\ (sel t0 = SelTimeout -> w_batch w1 = [] /\ w_armed w1 = now t0)).
Proof.
  intros Hpos Horder run w.
  assert (Hinit : on_time (batchMaxWait h) (mkWorker _ h [] [] start) start []).
  { unfold on_time, batch_fresh, timer_deadline. simpl.
    split; [reflexivity |]. split; [split; [lia | constructor] |].
    split; [lia |]. split; [constructor | reflexivity]. }
  destruct (serve_on_time collector prefer_timer (batchMaxWait h) until inputs
              (mkWorker _ h [] [] start) start [] Hpos Hinit Horder)
    as (consumed & Hsplit & Hres).
  fold run in Hsplit, Hres. simpl in Hres.
  exists consumed. split; [exact Hsplit |].
  assert (Hfacts :
    Forall (report_in_time (batchMaxWait h)) (w_reports w)
    /\ (forall te, In te (input_events consumed) ->
        In te (concat (map rp_events (w_reports w)))
        \/ (fst run = Continue w /\ In te (w_batch w)))
    /\ (fst run = Continue w ->
        consumed = inputs
        /\ batchMaxWait (w_h w) = batchMaxWait h
        /\ (until < timer_deadline w)%Z
        /\ Forall (fun te => (until < fst te + batchMaxWait h)%Z) (w_batch w)
        /\ concat (map rp_events (w_reports w)) ++ w_batch w = input_events inputs)).
  { subst w. destruct (fst run) as [w' | w' | v w']; simpl.
    - destruct Hres as (-> & (last' & Hwait & [Harmed Hfresh] & _ & Hrep & Htaken) & Hdue).
      split; [exact Hrep |]. split.
      + intros te Hte. rewrite <- Htaken in Hte.
        apply in_app_or in Hte as [Hte | Hte]; [left; exact Hte | right; auto].
      + intros _. split; [reflexivity |]. split; [exact Hwait |]. split; [exact Hdue |].
        split; [| exact Htaken].
        unfold timer_deadline in Hdue. rewrite Hwait in Hdue.
        eapply Forall_impl; [exact Hfresh |]. simpl. intros te Hte. lia.
    - destruct Hres as [Hrep Htaken]. split; [exact Hrep |]. split; [| discriminate].
      intros te Hte. left. rewrite Htaken. exact Hte.
    - destruct Hres as [Hrep Htaken]. split; [exact Hrep |]. split; [| discriminate].
      intros te Hte. left. rewrite Htaken. exact Hte. }
  destruct Hfacts as (Hrep & Hwhere & Hrunning).
  split; [exact Hrep |]. split; [| split; [exact Hrunning |]].
  - intros a event Hin Hdue.
    destruct (Hwhere _ (In_input_events consumed a event Hin)) as [Hte | [Hc Hte]].
    + destruct (reported_in_time _ _ _ Hrep Hte) as (r & Hr & Her & Htime).
      exists r. split; [exact Hr |]. split; [exact Her | exact Htime].
    + exfalso. destruct Hdue as [Hdue | Hended]; [| contradiction].
      destruct (Hrunning Hc) as (_ & _ & _ & Hpending & _).
      rewrite List.Forall_forall in Hpending. specialize (Hpending _ Hte). simpl in Hpending.
      lia.
  - intros w0 t0 w1. apply timer_rearmed.
Qed.

End Consumer.

Lemma worker_stops_after_panic_witness :
  exists w,
    startWorker 3 (feeder_batch 1) [] 0 [tick_recv_panic 1; tick_recv 2]
    = WorkerExited w [tick_recv 2]
    /\ printed (w_h w)
       = [ERR "panic: runtime error: invalid memory address or nil pointer dereference"].
Proof.
  eexists. split.
  - eapply (worker_stops_after_panic 2 (feeder_batch 1) [] 0 [] (tick_recv_panic 1)
              [tick_recv 2]).
    + simpl. lia.
    + reflexivity.
    + vm_compute. reflexivity.
  - vm_compute. reflexivity.
Defined.


Lemma batch_flushed_within_max_wait_witness :
  let inputs := [InEvent 1000000000 (ExampleStd.event0 "site-1");
                 InEvent 2000000000 (ExampleStd.event0 "site-1");
                 InEvent 12000000000 (ExampleStd.event0 "site-1")] in
  let run := serve (fun _ => SendOk "200 OK" "{}") (fun _ => true)
                   (mkWorker _ (feeder_batch 20) [] [] 0) inputs 30000000000 in
  let w := worker_of (fst run) in
  Forall (report_in_time (5 * Time.Second)) (w_reports w)
  /\ map rp_at (w_reports w) = [5000000000; 15000000000]%Z
  /\ map (fun r => length (rp_events r)) (w_reports w) = [2; 1]
  /\ w_batch w = []
  /\ timer_deadline w = 35000000000%Z.
Proof.
  intros inputs run w.
  destruct (batch_flushed_within_max_wait (fun _ => SendOk "200 OK" "{}") (fun _ => true)
              (feeder_batch 20) 0 30000000000 inputs) as (consumed & _ & Hrep & _).
  - vm_compute. reflexivity.
  - vm_compute. repeat split; discriminate.
  - split; [exact Hrep |]. vm_compute. repeat split; reflexivity.
Defined.

(** With a negative [batchSize] the first statement of [umamiEventFeeder]
    panics; the worker is gone before its first pass. *)
Example negative_batch_size_stops_worker :
  match startWorker 3 (feeder_batch (-1)) [] 0 [tick_recv 1; tick_recv 2] with
  | WorkerExited w rest =>
    rest = [tick_recv 1; tick_recv 2]
    /\ printed (w_h w) = [ERR "panic: runtime error: makeslice: cap out of range"]
  | _ => False
  end.
Proof. vm_compute. split; reflexivity. Qed.

(** ** Site resolver under concurrency *)

Section ResolverProofs.
Import Resolver ResolverSpec.
Variable remote : nat -> string -> result Website_.
Variable hostname : string.

Lemma lookup_set_pc (st : State) (tid i : nat) (pc' pc : PC) :
  set_pc st tid pc' !! i = Some pc ->
  (i = tid /\ pc = pc') \/ (i <> tid /\ pcs st !! i = Some pc).
Proof.
  unfold set_pc. intros Hl. apply list_lookup_insert_Some in Hl.
  destruct Hl as [(-> & -> & _) | (Hne & Hl)]; [left | right]; auto.
Qed.

Lemma Inv_init (websites0 : gmap string string) (n : nat) :
  Inv hostname (init websites0 n).
Proof.
  assert (Hall : forall i pc, pcs (init websites0 n) !! i = Some pc -> pc = AtRLock).
  { simpl. intros i pc Hl. apply lookup_replicate in Hl as [-> _]. reflexivity. }
  constructor; simpl.
  - intros i pc Hl. rewrite (Hall i pc Hl). discriminate.
  - intros i j pci pcj Hi _. rewrite (Hall i pci Hi). discriminate.
  - intros i Hl. apply Hall in Hl. discriminate.
  - intros _. split; [reflexivity |]. intros i pc Hl. rewrite (Hall i pc Hl). reflexivity.
  - intros websiteId _. split; [lia |]. intros i pc x Hl. rewrite (Hall i pc Hl). discriminate.
Qed.

Ltac other_thread H :=
  let Hne := fresh "Hne" in
  apply lookup_set_pc in H as [[-> ->] | [Hne H]].

Ltac other_create H Hne :=
  let Hpc := fresh "Hpc" in
  apply lookup_set_pc in H as [[-> Hpc] | [Hne H]]; [try discriminate Hpc |].

Lemma Inv_step (st st' : State) (tid : nat) :
  creates_site remote hostname ->
  Inv hostname st -> step remote hostname st tid = Some st' -> Inv hostname st'.
Proof.
  intros Hremote [Hw Hs Hc Hm Hh]. unfold step.
  destruct (pcs st !! tid) as [pc |] eqn:Htid; [| discriminate].
  destruct pc as [| | r | | | | ret | ret].
  - (* RLock *)
    destruct (writer st) eqn:Hwr; [discriminate |]. intros [= <-].
    constructor; simpl.
    + intros i pc Hl Hhw. other_thread Hl; [discriminate | rewrite <- Hwr; eauto].
    + intros i j pci pcj Hi Hj Hwi Hwj.
      other_thread Hi; [discriminate |]. other_thread Hj; [discriminate |]. eauto.
    + intros i Hl. other_create Hl Hne. eauto.
    + intros Hnone. destruct (Hm Hnone) as [Hcr Hall]. split; [exact Hcr |].
      intros i pc Hl. other_thread Hl; [reflexivity | eauto].
    + intros websiteId Hsome. destruct (Hh _ Hsome) as [Hlen Hall]. split; [exact Hlen |].
      intros i pc x Hl Hx. other_thread Hl; [discriminate | eauto].
  - (* lookup *)
    intros [= <-]. constructor; simpl.
    + intros i pc Hl Hhw. other_thread Hl; [discriminate | eauto].
    + intros i j pci pcj Hi Hj Hwi Hwj.
      other_thread Hi; [discriminate |]. other_thread Hj; [discriminate |]. eauto.
    + intros i Hl. other_create Hl Hne. eauto.
    + intros Hnone. destruct (Hm Hnone) as [Hcr Hall]. split; [exact Hcr |].
      intros i pc Hl. other_thread Hl; [rewrite Hnone; reflexivity | eauto].
    + intros websiteId Hsome. destruct (Hh _ Hsome) as [Hlen Hall]. split; [exact Hlen |].
      intros i pc x Hl Hx. other_thread Hl; [| eauto].
      rewrite Hsome in Hx. simpl in Hx. congruence.
  - (* RUnlock *)
    intros [= <-]. constructor; simpl.
    + intros i pc Hl Hhw. other_thread Hl; [destruct r; discriminate | eauto].
    + intros i j pci pcj Hi Hj Hwi Hwj.
      other_thread Hi; [destruct r; discriminate |].
      other_thread Hj; [destruct r; discriminate |]. eauto.
    + intros i Hl. other_create Hl Hne; [destruct r; discriminate | eauto].
    + intros Hnone. destruct (Hm Hnone) as [Hcr Hall]. split; [exact Hcr |].
      intros i pc Hl. other_thread Hl; [| eauto].
      specialize (Hall _ _ Htid). destruct r; [discriminate Hall | reflexivity].
    + intros websiteId Hsome. destruct (Hh _ Hsome) as [Hlen Hall]. split; [exact Hlen |].
      intros i pc x Hl Hx. other_thread Hl; [| eauto].
      destruct r as [y |]; [| discriminate]. simpl in Hx.
      apply (Hall tid (AtRUnlock (Some y)) x Htid). simpl. congruence.
  - (* Lock *)
    destruct (writer st) eqn:Hwr; [discriminate |].
    destruct (0 <? readers st); [discriminate |]. simpl. intros [= <-].
    assert (Hnow : forall i pc, pcs st !! i = Some pc -> holdsWrite pc = false).
    { intros i pc Hl. destruct (holdsWrite pc) eqn:Hhw; [| reflexivity].
      pose proof (Hw i pc Hl Hhw) as Habs. congruence. }
    constructor; simpl.
    + reflexivity.
    + intros i j pci pcj Hi Hj Hwi Hwj.
      other_thread Hi; other_thread Hj; try reflexivity.
      * rewrite (Hnow _ _ Hj) in Hwj. discriminate Hwj.
      * rewrite (Hnow _ _ Hi) in Hwi. discriminate Hwi.
      * rewrite (Hnow _ _ Hi) in Hwi. discriminate Hwi.
    + intros i Hl. other_create Hl Hne. eauto.
    + intros Hnone. destruct (Hm Hnone) as [Hcr Hall]. split; [exact Hcr |].
      intros i pc Hl. other_thread Hl; [reflexivity | eauto].
    + intros websiteId Hsome. destruct (Hh _ Hsome) as [Hlen Hall]. split; [exact Hlen |].
      intros i pc x Hl Hx. other_thread Hl; [discriminate | eauto].
  - (* recheck *)
    intros [= <-]. constructor; simpl.
    + intros i pc Hl Hhw. other_thread Hl; [apply (Hw tid AtRecheck Htid); reflexivity | eauto].
    + intros i j pci pcj Hi Hj Hwi Hwj.
      other_thread Hi; other_thread Hj; try reflexivity.
      * symmetry. apply (Hs j tid pcj AtRecheck); auto.
      * apply (Hs i tid pci AtRecheck); auto.
      * eauto.
    + intros i Hl. other_create Hl Hne; [| eauto].
      destruct (cache st !! hostname); [discriminate | reflexivity].
    + intros Hnone. destruct (Hm Hnone) as [Hcr Hall]. split; [exact Hcr |].
      intros i pc Hl. other_thread Hl; [rewrite Hnone; reflexivity | eauto].
    + intros websiteId Hsome. destruct (Hh _ Hsome) as [Hlen Hall]. split; [exact Hlen |].
      intros i pc x Hl Hx. other_thread Hl; [| eauto].
      rewrite Hsome in Hx. simpl in Hx. congruence.
  - (* create *)
    pose proof (Hc tid Htid) as Hnone. destruct (Hm Hnone) as [Hcr Hall].
    destruct (Hremote (length (creates st))) as (website & -> & Hdom).
    intros [= <-]. constructor; simpl.
    + intros i pc Hl Hhw. other_thread Hl; [apply (Hw tid AtCreate Htid); reflexivity | eauto].
    + intros i j pci pcj Hi Hj Hwi Hwj.
      other_thread Hi; other_thread Hj; try reflexivity.
      * symmetry. apply (Hs j tid pcj AtCreate); auto.
      * apply (Hs i tid pci AtCreate); auto.
      * eauto.
    + intros i Hl. other_create Hl Hne.
      exfalso. apply Hne. apply (Hs i tid AtCreate AtCreate); auto.
    + rewrite Hdom, lookup_insert_eq. discriminate.
    + intros websiteId. rewrite Hdom, lookup_insert_eq. intros [= <-].
      rewrite Hcr. split; [simpl; lia |].
      intros i pc x Hl Hx. other_thread Hl; [simpl in Hx; congruence |].
      rewrite (Hall _ _ Hl) in Hx. discriminate Hx.
  - (* Unlock *)
    intros [= <-]. constructor; simpl.
    + intros i pc Hl Hhw. apply lookup_set_pc in Hl as [[-> ->] | [Hne Hl]]; [discriminate |].
      exfalso. apply Hne. apply (Hs i tid pc (AtUnlock ret)); auto.
    + intros i j pci pcj Hi Hj Hwi Hwj.
      other_thread Hi; [discriminate |]. other_thread Hj; [discriminate |]. eauto.
    + intros i Hl. other_create Hl Hne. eauto.
    + intros Hnone. destruct (Hm Hnone) as [Hcr Hall]. split; [exact Hcr |].
      intros i pc Hl. other_thread Hl; [| eauto].
      specialize (Hall _ _ Htid). discriminate Hall.
    + intros websiteId Hsome. destruct (Hh _ Hsome) as [Hlen Hall]. split; [exact Hlen |].
      intros i pc x Hl Hx. other_thread Hl; [| eauto].
      apply (Hall tid (AtUnlock ret) x Htid). exact Hx.
  - discriminate.
Qed.

Lemma Inv_run (schedule : list nat) :
  creates_site remote hostname ->
  forall st, Inv hostname st -> Inv hostname (run remote hostname st schedule).
Proof.
  intros Hremote. induction schedule as [| tid rest IH]; intros st Hinv; simpl.
  - exact Hinv.
  - destruct (step remote hostname st tid) as [st' |] eqn:Hstep.
    + apply IH. eapply Inv_step; eauto.
    + apply IH. exact Hinv.
Qed.

Lemma filter_insert_count (P : PC -> bool) (l : list PC) :
  forall i x y, l !! i = Some x ->
  length (List.filter P (<[i := y]> l)) + (if P x then 1 else 0)
  = length (List.filter P l) + (if P y then 1 else 0).
Proof.
  induction l as [| a l IH]; intros i x y Hl; [discriminate |].
  destruct i as [| i]; simpl in *.
  - inversion Hl; subst a. destruct (P x), (P y); simpl; lia.
  - specialize (IH i x y Hl). destruct (P a); simpl; lia.
Qed.

Lemma sum_insert_rank (l : list PC) :
  forall i x y, l !! i = Some x ->
  list_sum (map rank (<[i := y]> l)) + rank x = list_sum (map rank l) + rank y.
Proof.
  induction l as [| a l IH]; intros i x y Hl; [discriminate |].
  destruct i as [| i]; simpl in *.
  - inversion Hl; subst a. lia.
  - specialize (IH i x y Hl). lia.
Qed.

Lemma filter_nonempty (P : PC -> bool) (l : list PC) :
  0 < length (List.filter P l) -> exists i pc, l !! i = Some pc /\ P pc = true.
Proof.
  induction l as [| a l IH]; simpl; [lia |].
  destruct (P a) eqn:Ha.
  - intros _. exists 0, a. auto.
  - intros Hpos. destruct (IH Hpos) as (i & pc & Hl & Hp). exists (S i), pc. auto.
Qed.

Lemma step_measure (st st' : State) (tid : nat) :
  step remote hostname st tid = Some st' -> measure st' < measure st.
Proof.
  unfold step, measure. destruct (pcs st !! tid) as [pc |] eqn:Htid; [| discriminate].
  destruct pc as [| | r | | | | ret | ret];
    repeat match goal with
           | |- context [if ?b then _ else _] => destruct b
           | |- context [match remote ?k ?h with _ => _ end] => destruct (remote k h)
           end;
    try discriminate; intros [= <-]; simpl; unfold set_pc;
    match goal with
    | |- context [<[tid := ?y]> (pcs st)] =>
      pose proof (sum_insert_rank (pcs st) tid _ y Htid) as Hsum
    end; simpl in Hsum; try lia.
  - destruct r; simpl in Hsum; lia.
  - destruct (cache st !! hostname); simpl in Hsum; lia.
Qed.

Lemma LockInv_init (websites0 : gmap string string) (n : nat) :
  LockInv (init websites0 n).
Proof.
  split; simpl; [| discriminate].
  induction n as [| n IH]; [reflexivity | simpl; exact IH].
Qed.

Lemma LockInv_step (st st' : State) (tid : nat) :
  Inv hostname st -> LockInv st ->
  step remote hostname st tid = Some st' -> LockInv st'.
Proof.
  intros [Hw Hs _ _ _] [Hr Hhold]. unfold step.
  destruct (pcs st !! tid) as [pc |] eqn:Htid; [| discriminate].
  assert (Hkeep : forall y, holdsWrite y = holdsWrite pc -> writer st = true ->
            exists i pc', <[tid := y]> (pcs st) !! i = Some pc' /\ holdsWrite pc' = true).
  { intros y Hy Hwr. destruct (Hhold Hwr) as (i & pc' & Hl & Hp).
    destruct (Nat.eq_dec i tid) as [-> | Hne].
    - exists tid, y. split.
      + apply list_lookup_insert_eq. apply lookup_lt_Some in Htid. exact Htid.
      + rewrite Hy. congruence.
    - exists i, pc'. split; [| exact Hp]. rewrite list_lookup_insert_ne; auto. }
  destruct pc as [| | r | | | | ret | ret].
  - destruct (writer st) eqn:Hwr; [discriminate |]. intros [= <-]. split; simpl.
    + pose proof (filter_insert_count holdsRead (pcs st) tid _ AtLookup Htid) as Hc.
      simpl in Hc. unfold set_pc. lia.
    + discriminate.
  - intros [= <-]. split; simpl.
    + pose proof (filter_insert_count holdsRead (pcs st) tid _
                    (AtRUnlock (cache st !! hostname)) Htid) as Hc.
      simpl in Hc. unfold set_pc. lia.
    + apply Hkeep. reflexivity.
  - intros [= <-]. split; simpl.
    + match goal with
      | |- context [set_pc st tid ?y] =>
        pose proof (filter_insert_count holdsRead (pcs st) tid _ y Htid) as Hc
      end.
      unfold set_pc. destruct r; simpl in Hc; lia.
    + apply Hkeep. destruct r; reflexivity.
  - destruct (writer st) eqn:Hwr; [discriminate |].
    destruct (0 <? readers st); [discriminate |]. simpl. intros [= <-]. split; simpl.
    + pose proof (filter_insert_count holdsRead (pcs st) tid _ AtRecheck Htid) as Hc.
      simpl in Hc. unfold set_pc. lia.
    + intros _. exists tid, AtRecheck. split; [| reflexivity].
      apply list_lookup_insert_eq. apply lookup_lt_Some in Htid. exact Htid.
  - intros [= <-]. split; simpl.
    + match goal with
      | |- context [set_pc st tid ?y] =>
        pose proof (filter_insert_count holdsRead (pcs st) tid _ y Htid) as Hc
      end.
      unfold set_pc. destruct (cache st !! hostname); simpl in Hc; lia.
    + apply Hkeep. destruct (cache st !! hostname); reflexivity.
  - destruct (remote (length (creates st)) hostname) as [website | e];
      intros [= <-]; (split; simpl; [| apply Hkeep; reflexivity]).
    + pose proof (filter_insert_count holdsRead (pcs st) tid _ (AtUnlock (ID website)) Htid)
        as Hc.
      simpl in Hc. unfold set_pc. lia.
    + pose proof (filter_insert_count holdsRead (pcs st) tid _ (AtUnlock EmptyString) Htid)
        as Hc.
      simpl in Hc. unfold set_pc. lia.
  - intros [= <-]. split; simpl; [| discriminate].
    pose proof (filter_insert_count holdsRead (pcs st) tid _ (Done ret) Htid) as Hc.
    simpl in Hc. unfold set_pc. lia.
  - discriminate.
Qed.

Lemma some_not_returned (l : list PC) :
  forallb (fun pc => match pc with Done _ => true | _ => false end) l = false ->
  exists i pc, l !! i = Some pc /\ rank pc <> 0.
Proof.
  induction l as [| a l IH]; [discriminate |].
  simpl. intros Hnot.
  destruct a; try (exists 0; eexists; split; [reflexivity | discriminate]).
  destruct (IH Hnot) as (i & pc & Hl & Hrk). exists (S i), pc. auto.
Qed.

(** No deadlock: while some goroutine has not returned, some goroutine can
    take a step. *)
Lemma progress (st : State) :
  LockInv st -> all_returned st = false ->
  exists tid st', step remote hostname st tid = Some st'.
Proof.
  intros [Hr Hhold] Hnot.
  assert (Hmove : forall i pc, pcs st !! i = Some pc ->
            holdsWrite pc = true \/ holdsRead pc = true ->
            exists st', step remote hostname st i = Some st').
  { intros i pc Hl Hp. unfold step. rewrite Hl.
    destruct pc; simpl in Hp; try (destruct Hp; discriminate); eauto.
    destruct (remote _ _); eauto. }
  destruct (some_not_returned (pcs st) Hnot) as (i & pc & Hl & Hrk).
  destruct (writer st) eqn:Hwr.
  { destruct (Hhold eq_refl) as (j & pcj & Hj & Hp). exists j. eapply Hmove; eauto. }
  destruct (Nat.ltb_spec 0 (readers st)) as [Hpos | Hzero].
  { rewrite Hr in Hpos. apply filter_nonempty in Hpos as (j & pcj & Hj & Hp).
    exists j. eapply Hmove; eauto. }
  exists i. unfold step. rewrite Hl, Hwr.
  destruct (Nat.ltb_spec 0 (readers st)); [lia |].
  destruct pc; simpl in *; eauto; [destruct (remote _ _); eauto | congruence].
Qed.

(** From every state the goroutines can all be run to their return. *)
Lemma can_finish (k : nat) :
  creates_site remote hostname ->
  forall st, measure st <= k -> Inv hostname st -> LockInv st ->
  exists schedule, all_returned (run remote hostname st schedule) = true.
Proof.
  intros Hremote. induction k as [| k IH]; intros st Hk Hinv Hlock.
  - destruct (all_returned st) eqn:Hall; [exists []; exact Hall |].
    destruct (progress st Hlock Hall) as (tid & st' & Hstep).
    apply step_measure in Hstep. lia.
  - destruct (all_returned st) eqn:Hall; [exists []; exact Hall |].
    destruct (progress st Hlock Hall) as (tid & st' & Hstep).
    destruct (IH st') as [schedule Hdone].
    + apply step_measure in Hstep. lia.
    + eapply Inv_step; eauto.
    + eapply LockInv_step; eauto.
    + exists (tid :: schedule). simpl. rewrite Hstep. exact Hdone.
Qed.

Lemma LockInv_run (schedule : list nat) :
  creates_site remote hostname ->
  forall st, Inv hostname st -> LockInv st ->
  LockInv (run remote hostname st schedule).
Proof.
  intros Hremote. induction schedule as [| tid rest IH]; intros st Hinv Hlock; simpl.
  - exact Hlock.
  - destruct (step remote hostname st tid) as [st' |] eqn:Hstep.
    + apply IH; [eapply Inv_step | eapply LockInv_step]; eauto.
    + apply IH; assumption.
Qed.

Lemma run_app (s1 s2 : list nat) :
  forall st, run remote hostname st (s1 ++ s2)
             = run remote hostname (run remote hostname st s1) s2.
Proof.
  induction s1 as [| tid s1 IH]; intros st; simpl; [reflexivity |].
  destruct (step remote hostname st tid); apply IH.
Qed.

Lemma run_length (schedule : list nat) :
  forall st, length (pcs (run remote hostname st schedule)) = length (pcs st).
Proof.
  induction schedule as [| tid rest IH]; intros st; simpl; [reflexivity |].
  destruct (step remote hostname st tid) as [st' |] eqn:Hstep; [| apply IH].
  rewrite IH. unfold step in Hstep.
  destruct (pcs st !! tid) as [pc |]; [| discriminate].
  destruct pc;
    repeat match type of Hstep with
           | context [if ?b then _ else _] => destruct b
           | context [match remote ?k ?h with _ => _ end] => destruct (remote k h)
           end;
    try discriminate; inversion Hstep; simpl; unfold set_pc; apply length_insert.
Qed.

(** C3, as the code has it.  [n] goroutines resolve [hostname] at once, in
    any interleaving, against a cache that may or may not hold the hostname.
    If the collector creates the site when asked and answers with the
    hostname it was given, then at every moment at most one "create site"
    call has been made, all goroutines that have returned have returned the
    same identifier, which is the cached one; no state is a deadlock, and
    the goroutines can always all be run to their return. *)
Theorem resolve_creates_once (websites0 : gmap string string) (n : nat)
    (schedule : list nat) :
  creates_site remote hostname ->
  let st := run remote hostname (init websites0 n) schedule in
  length (pcs st) = n
  /\ length (creates st) <= 1
  /\ (forall i j a b, pcs st !! i = Some (Done a) -> pcs st !! j = Some (Done b) -> a = b)
  /\ (forall i a, pcs st !! i = Some (Done a) -> cache st !! hostname = Some a)
  /\ (all_returned st = false -> exists tid st', step remote hostname st tid = Some st')
  /\ (exists more,
        all_returned (run remote hostname (init websites0 n) (schedule ++ more)) = true).
Proof.
  intros Hremote st.
  pose proof (Inv_run schedule Hremote _ (Inv_init websites0 n)) as Hinv.
  pose proof (LockInv_run schedule Hremote _ (Inv_init websites0 n)
                          (LockInv_init websites0 n)) as Hlock.
  fold st in Hinv, Hlock.
  assert (Hdone : forall i a, pcs st !! i = Some (Done a) -> cache st !! hostname = Some a).
  { intros i a Hl. destruct (cache st !! hostname) as [websiteId |] eqn:Hcache.
    - destruct (inv_hit _ _ Hinv websiteId Hcache) as [_ Hall].
      rewrite (Hall i (Done a) a Hl eq_refl). reflexivity.
    - destruct (inv_miss _ _ Hinv Hcache) as [_ Hall].
      specialize (Hall i (Done a) Hl). discriminate Hall. }
  split; [unfold st; rewrite run_length; simpl; apply length_replicate |].
  split.
  { destruct (cache st !! hostname) as [websiteId |] eqn:Hcache.
    - apply (inv_hit _ _ Hinv websiteId Hcache).
    - destruct (inv_miss _ _ Hinv Hcache) as [-> _]. simpl. lia. }
  split.
  { intros i j a b Hi Hj. apply Hdone in Hi. apply Hdone in Hj. congruence. }
  split; [exact Hdone |].
  split; [apply progress; exact Hlock |].
  destruct (can_finish (measure st) Hremote st (le_n _) Hinv Hlock) as [more Hmore].
  exists more. rewrite run_app. exact Hmore.
Qed.

End ResolverProofs.

Lemma resolve_creates_once_witness :
  let st := Resolver.run ResolverSpec.remote_ok "new.example.org"
              (Resolver.init ∅ 3) [0; 1; 2; 0; 1; 2; 0; 1; 2; 1; 1; 1; 1; 0; 0; 0; 2; 2; 2] in
  length (Resolver.creates st) <= 1
  /\ Resolver.pcs st = [Resolver.Done "site-1"; Resolver.Done "site-1"; Resolver.Done "site-1"].
Proof.
  intros st.
  destruct (resolve_creates_once ResolverSpec.remote_ok "new.example.org" ∅ 3
              [0; 1; 2; 0; 1; 2; 0; 1; 2; 1; 1; 1; 1; 0; 0; 0; 2; 2; 2])
    as (_ & Hcreates & _).
  - intros k. eexists. split; reflexivity.
  - split; [exact Hcreates | vm_compute; reflexivity].
Defined.

(** C3 as stated fails when a "create site" call fails: the failure is not
    cached, so the next goroutine that misses calls the collector again, and
    the two goroutines return different identifiers. *)
Lemma create_repeated_after_failure :
  let st := Resolver.run ResolverSpec.remote_flaky "new.example.org"
              (Resolver.init ∅ 2) [0; 1; 0; 1; 0; 1; 0; 0; 0; 0; 1; 1; 1; 1] in
  Resolver.creates st = ["new.example.org"; "new.example.org"]
  /\ Resolver.pcs st = [Resolver.Done ""; Resolver.Done "site-2"]
  /\ Resolver.errors st = ["failed to create website: context deadline exceeded"].
Proof. vm_compute. repeat split; reflexivity. Qed.

(** One goroutine alone, run to its return, does what [getWebsiteId] does. *)
Lemma single_caller_agrees `{GoStd} (h : UmamiFeeder) (hostname : string)
    (created : result Website_) :
  let st := Resolver.run (fun _ _ => created) hostname
              (Resolver.init (websites h) 1) [0; 0; 0; 0; 0; 0; 0] in
  let r := getWebsiteId h hostname created in
  Resolver.pcs st = [Resolver.Done (fst (fst r))]
  /\ Resolver.cache st = websites (snd (fst r))
  /\ length (Resolver.creates st) = (if snd r then 1 else 0).
Proof.
  unfold getWebsiteId. simpl.
  destruct (websites h !! hostname) as [websiteId |] eqn:Hw; simpl.
  - repeat split; reflexivity.
  - rewrite Hw. destruct created as [website | e]; simpl.
    + repeat split; try reflexivity.
      unfold debugf. simpl. destruct (logHandler h); [destruct (isDebug h) |]; reflexivity.
    + repeat split; try reflexivity.
      unfold error. destruct (logHandler h); reflexivity.
Qed.


(** ** The repository's tests, on the model *)

Example TestShouldTrackDefault :
  map (shouldTrackResource feeder_zero)
      ["http://localhost"; "http://localhost/about"; "http://localhost/products.html";
       "http://localhost/blog.php"; "http://localhost/feed.rss";
       "http://localhost/favicon.ico"; "http://localhost/photo.jpg";
       "http://localhost/background.png"]
  = [true; true; true; true; true; false; false; false].
Proof. vm_compute. reflexivity. Qed.

Example TestShouldTrackInvalidIp :
  exists e, snd (verifyConfig feeder_zero (config_ignore ["127.0.0.1-127.0.0.10"] []))
            = Some e.
Proof. eexists. vm_compute. reflexivity. Qed.

Example TestShouldTrackIps :
  map (fun ip => shouldTrackRequest feeder_test_ips (request_from ip))
      ["192.168.0.1"; "127.0.0.1"; "10.0.0.1"; "10.0.0.255"; "10.0.1.1"; "10.10.10.1";
       "1.1.1.1"; "8.8.8.8"]
  = [true; false; false; false; true; true; true; true].
Proof. vm_compute. reflexivity. Qed.

Example TestShouldTrackHosts :
  map (fun host => shouldTrackRequest feeder_test_hosts (ExampleStd.request host "/about"))
      ["localhost"; "LOCALHOST"; "about.localhost"; "internal.example.com"; "EXAMPLE.COM"]
  = [false; false; true; false; true].
Proof. vm_compute. reflexivity. Qed.

Example TestShouldTrackUrls :
  map (fun url => shouldTrackRequest feeder_test_urls (ExampleStd.request "" url))
      ["/"; "/about"; "/aboutus"; "/category/about"; "/world/news"; "/hello-world";
       "/admin/secret"]
  = [true; false; false; false; true; false; false].
Proof. vm_compute. reflexivity. Qed.

Example TestShouldTrackUserAgents :
  map (fun ua => shouldTrackRequest feeder_test_agents (request_agent ua))
      ["Mozilla/5.0 (Windows; Windows NT 6.0; WOW64) Gecko/20100101 Firefox/60.7";
       "Uptime-Kuma/1.18.5";
       "Mozilla/5.0 (compatible; Googlebot/2.1; +http://www.google.com/bot.html)"]
  = [true; false; false].
Proof. vm_compute. reflexivity. Qed.

Example parseDomainFromHost_examples :
  map parseDomainFromHost ["localhost:8080"; "Example.COM"; "example.org."; "LocalHost.:80"]
  = ["localhost"; "example.com"; "example.org"; "localhost"].
Proof. vm_compute. reflexivity. Qed.

(** * Further properties of the code *)

(** ** Bootstrap: the site cache after [connect] *)

Section ConnectCache.
Context `{GoStd}.

Lemma mergeWebsites_lookup (fetched : list Website_) :
  forall (cache : gmap string string) (d : string),
  mergeWebsites cache fetched !! d
  = match cache !! d with
    | Some websiteId => Some websiteId
    | None => ID <$> List.find (fun website => String.eqb (Domain website) d) fetched
    end.
Proof.
  induction fetched as [| website rest IH]; intros cache d; simpl.
  - destruct (cache !! d); reflexivity.
  - destruct (cache !! Domain website) as [known |] eqn:Hk.
    + rewrite IH. destruct (cache !! d) as [websiteId |] eqn:Hd; [reflexivity |].
      destruct (String.eqb_spec (Domain website) d) as [Heq | Hne]; [congruence | reflexivity].
    + rewrite IH. destruct (String.eqb_spec (Domain website) d) as [Heq | Hne].
      * rewrite <- Heq, lookup_insert_eq, Hk. reflexivity.
      * rewrite lookup_insert_ne by exact Hne. reflexivity.
Qed.

Lemma websites_debugf (h : UmamiFeeder) (f : string) : websites (debugf h f) = websites h.
Proof. unfold debugf. destruct (logHandler h), (isDebug h); reflexivity. Qed.

Lemma umamiToken_debugf (h : UmamiFeeder) (f : string) : umamiToken (debugf h f) = umamiToken h.
Proof. unfold debugf. destruct (logHandler h), (isDebug h); reflexivity. Qed.

Lemma createNewWebsites_debugf (h : UmamiFeeder) (f : string) :
  createNewWebsites (debugf h f) = createNewWebsites h.
Proof. unfold debugf. destruct (logHandler h), (isDebug h); reflexivity. Qed.

Lemma connect_success (h : UmamiFeeder) (config : Config)
    (token : result string) (fetched : result (list Website_)) (h' : UmamiFeeder) :
  connect h config token fetched = (h', None) ->
  let h1 := after_login h config token in
  umamiHost h <> EmptyString
  /\ (umamiToken h1 = EmptyString ->
      h' = h1 /\ websites h <> ∅ /\ createNewWebsites h = false)
  /\ (umamiToken h1 <> EmptyString ->
      exists sites, fetched = Ok sites
        /\ h' = debugf (set_websites h1 (mergeWebsites (websites h) sites))
                       "websites fetched: %v").
Proof.
  unfold connect, after_login.
  destruct (String.eqb_spec (umamiHost h) "") as [Hhost | Hhost]; [discriminate |].
  destruct (nonempty (UmamiUsername config) && nonempty (UmamiPassword config)).
  - destruct token as [tok | e]; [| discriminate].
    destruct (String.eqb_spec tok "") as [-> | Htok]; [discriminate |].
    cbn [umamiToken set_umamiToken websites createNewWebsites].
    destruct (String.eqb_spec tok ""); [congruence |]. simpl.
    unfold nonempty. destruct (String.eqb_spec tok ""); [congruence |]. simpl.
    destruct fetched as [sites | e]; [| discriminate].
    intros [= <-]. split; [exact Hhost |]. split; [congruence |].
    intros _. exists sites. split; [reflexivity |].
    rewrite websites_debugf. reflexivity.
  - destruct (String.eqb_spec (umamiToken h) "") as [Htok | Htok]; simpl.
    + destruct (Nat.eqb_spec (size (websites h)) 0) as [Hsz | Hsz]; [discriminate |].
      destruct (createNewWebsites h) eqn:Hc; [discriminate |].
      unfold nonempty. rewrite Htok. simpl. intros [= <-].
      split; [exact Hhost |]. split; [| congruence].
      intros _. split; [reflexivity |]. split; [| reflexivity].
      intros Hempty. rewrite Hempty, map_size_empty in Hsz. congruence.
    + unfold nonempty. destruct (String.eqb_spec (umamiToken h) ""); [congruence |]. simpl.
      destruct fetched as [sites | e]; [| discriminate].
      intros [= <-]. split; [exact Hhost |]. split; [congruence |].
      intros _. exists sites. split; reflexivity.
Qed.

Lemma connect_failure (h : UmamiFeeder) (config : Config)
    (token : result string) (fetched : result (list Website_)) (h' : UmamiFeeder) (e : string) :
  connect h config token fetched = (h', Some e) -> websites h' = websites h.
Proof.
  unfold connect.
  repeat match goal with
         | |- context [if ?b then _ else _] => destruct b
         | |- context [match ?r with Ok _ => _ | Err _ => _ end] => destruct r
         end;
    unfold set_websites, set_umamiToken; simpl; intros [= <- _];
    simpl; rewrite ?websites_debugf; reflexivity.
Qed.

(** X1.  [connect] never removes or overwrites a site mapping: a hostname
    that is in the cache before the call (statically configured, or added
    earlier) maps to the same identifier afterwards, whatever the collector
    answers and whether or not the call fails. *)
Theorem connect_keeps_mappings (h : UmamiFeeder) (config : Config)
    (token : result string) (fetched : result (list Website_))
    (hostname websiteId : string) :
  websites h !! hostname = Some websiteId ->
  websites (fst (connect h config token fetched)) !! hostname = Some websiteId.
Proof.
  intros Hknown.
  destruct (connect h config token fetched) as [h' [e |]] eqn:Hc; simpl.
  - rewrite (connect_failure _ _ _ _ _ _ Hc). exact Hknown.
  - destruct (connect_success _ _ _ _ _ Hc) as (_ & Hno & Hyes).
    assert (Hw1 : websites (after_login h config token) = websites h).
    { unfold after_login.
      destruct (nonempty (UmamiUsername config) && nonempty (UmamiPassword config));
        [destruct token |]; unfold set_umamiToken; simpl; rewrite ?websites_debugf;
        reflexivity. }
    destruct (String.eqb_spec (umamiToken (after_login h config token)) "") as [Ht | Ht].
    + destruct (Hno Ht) as (-> & _). rewrite Hw1. exact Hknown.
    + destruct (Hyes Ht) as (sites & _ & ->).
      rewrite websites_debugf. unfold set_websites. simpl.
      rewrite mergeWebsites_lookup, Hknown. reflexivity.
Qed.

(** X2.  When [connect] succeeds with a token, a hostname that was not in
    the cache gets the identifier of the first fetched site with that
    domain, and stays unknown when no fetched site has it. *)
Theorem connect_adds_first_fetched (h : UmamiFeeder) (config : Config)
    (token : result string) (sites : list Website_) (h' : UmamiFeeder) (hostname : string) :
  connect h config token (Ok sites) = (h', None) ->
  umamiToken h' <> EmptyString ->
  websites h !! hostname = None ->
  websites h' !! hostname
  = ID <$> List.find (fun website => String.eqb (Domain website) hostname) sites.
Proof.
  intros Hc Htok Hunknown.
  destruct (connect_success _ _ _ _ _ Hc) as (_ & Hno & Hyes).
  destruct (String.eqb_spec (umamiToken (after_login h config token)) "") as [Ht | Ht].
  - destruct (Hno Ht) as (-> & _). congruence.
  - destruct (Hyes Ht) as (sites' & [= <-] & ->).
    rewrite websites_debugf. unfold set_websites. simpl.
    rewrite mergeWebsites_lookup, Hunknown. reflexivity.
Qed.

(** X3.  A failed [connect] leaves the site cache as it was.  A successful
    one needs a collector URL and leaves the plugin with a token or with at
    least one site mapping, and with a token whenever auto-creation is
    configured. *)
Theorem connect_outcomes (h : UmamiFeeder) (config : Config)
    (token : result string) (fetched : result (list Website_)) :
  let h' := fst (connect h config token fetched) in
  match snd (connect h config token fetched) with
  | Some _ => websites h' = websites h
  | None =>
    umamiHost h <> EmptyString
    /\ (umamiToken h' <> EmptyString \/ websites h' <> ∅)
    /\ (createNewWebsites h' = true -> umamiToken h' <> EmptyString)
  end.
Proof.
  destruct (connect h config token fetched) as [h' [e |]] eqn:Hc; simpl.
  - eapply connect_failure. exact Hc.
  - destruct (connect_success _ _ _ _ _ Hc) as (Hhost & Hno & Hyes).
    assert (Hc1 : createNewWebsites (after_login h config token) = createNewWebsites h).
    { unfold after_login.
      destruct (nonempty (UmamiUsername config) && nonempty (UmamiPassword config));
        [destruct token |]; unfold set_umamiToken; simpl;
        rewrite ?createNewWebsites_debugf; reflexivity. }
    assert (Hw1 : websites (after_login h config token) = websites h).
    { unfold after_login.
      destruct (nonempty (UmamiUsername config) && nonempty (UmamiPassword config));
        [destruct token |]; unfold set_umamiToken; simpl; rewrite ?websites_debugf;
        reflexivity. }
    split; [exact Hhost |].
    destruct (String.eqb_spec (umamiToken (after_login h config token)) "") as [Ht | Ht].
    + destruct (Hno Ht) as (-> & Hsites & Hcreate). split.
      * right. rewrite Hw1. exact Hsites.
      * rewrite Hc1, Hcreate. discriminate.
    + destruct (Hyes Ht) as (sites & _ & ->).
      rewrite umamiToken_debugf. unfold set_websites. simpl. split; [left; exact Ht |].
      intros _. exact Ht.
Qed.

End ConnectCache.

Lemma connect_keeps_mappings_witness :
  websites (fst (connect feeder_site config_bad_ip (Ok "token-1")
                         (Ok [mkWebsite "site-9" "example" "" "example.org"])))
    !! "example.org" = Some "site-1".
Proof. apply connect_keeps_mappings. reflexivity. Defined.

Lemma connect_adds_first_fetched_witness :
  websites (fst (connect feeder_site config_bad_ip (Ok "token-1") (Ok sites_shop)))
    !! "shop.example.org" = Some "site-2".
Proof.
  rewrite (connect_adds_first_fetched feeder_site config_bad_ip (Ok "token-1") sites_shop
             (fst (connect feeder_site config_bad_ip (Ok "token-1") (Ok sites_shop)))
             "shop.example.org").
  - reflexivity.
  - vm_compute. reflexivity.
  - vm_compute. discriminate.
  - vm_compute. reflexivity.
Defined.

(** ** Bootstrap: [verifyConfig] and the retry loop *)

Section RetryLoop.
Context `{GoStd}.

Lemma verifyIgnoreIPs_ok (ips : list string) :
  forall h h', verifyIgnoreIPs h ips = (h', None) ->
  exists prefixes,
    Forall2 (fun s p => parseIgnoreIP s = Ok p) ips prefixes
    /\ h' = set_ignorePrefixes h (ignorePrefixes h ++ prefixes).
Proof.
  induction ips as [| ip ips IH]; intros h h' Hv; simpl in Hv.
  - inversion Hv; subst h'. exists []. split; [constructor |].
    rewrite app_nil_r. destruct h; reflexivity.
  - destruct (parseIgnoreIP ip) as [network | e] eqn:Hp; [| discriminate].
    destruct (IH _ _ Hv) as (prefixes & Hall & ->).
    exists (network :: prefixes). split; [constructor; assumption |].
    unfold set_ignorePrefixes. simpl. rewrite <- app_assoc. reflexivity.
Qed.

Lemma verifyIgnoreURLs_ok (urls : list string) :
  forall h h', verifyIgnoreURLs h urls = (h', None) ->
  exists regexps,
    Forall2 (fun s r => regexp_Compile s = Ok r) urls regexps
    /\ h' = set_ignoreRegexps h (ignoreRegexps h ++ regexps).
Proof.
  induction urls as [| u urls IH]; intros h h' Hv; simpl in Hv.
  - inversion Hv; subst h'. exists []. split; [constructor |].
    rewrite app_nil_r. destruct h; reflexivity.
  - destruct (regexp_Compile u) as [r | e] eqn:Hc; [| discriminate].
    destruct (IH _ _ Hv) as (regexps & Hall & ->).
    exists (r :: regexps). split; [constructor; assumption |].
    unfold set_ignoreRegexps. simpl. rewrite <- app_assoc. reflexivity.
Qed.

(** X4.  When [verifyConfig] returns nil it has appended, in the order of
    the configuration, one prefix per [ignoreIPs] entry and one compiled
    pattern per [ignoreURLs] entry, and has changed nothing else of the
    instance. *)
Theorem verifyConfig_compiles_all (h h' : UmamiFeeder) (config : Config) :
  verifyConfig h config = (h', None) ->
  exists prefixes regexps,
    Forall2 (fun s p => parseIgnoreIP s = Ok p) (IgnoreIPs config) prefixes
    /\ Forall2 (fun s r => regexp_Compile s = Ok r) (IgnoreURLs config) regexps
    /\ h' = set_ignoreRegexps (set_ignorePrefixes h (ignorePrefixes h ++ prefixes))
                              (ignoreRegexps h ++ regexps).
Proof.
  unfold verifyConfig. intros Hv.
  destruct (verifyIgnoreIPs h (IgnoreIPs config)) as [h1 [e |]] eqn:Hips; [discriminate |].
  destruct (verifyIgnoreIPs_ok _ _ _ Hips) as (prefixes & Hp & ->).
  destruct (verifyIgnoreURLs_ok _ _ _ Hv) as (regexps & Hr & ->).
  exists prefixes, regexps. split; [exact Hp |]. split; [exact Hr | reflexivity].
Qed.

Lemma umamiHost_debugf (h : UmamiFeeder) (f : string) : umamiHost (debugf h f) = umamiHost h.
Proof. unfold debugf. destruct (logHandler h), (isDebug h); reflexivity. Qed.

Lemma umamiHost_error (h : UmamiFeeder) (m : string) : umamiHost (error h m) = umamiHost h.
Proof. unfold error. destruct (logHandler h); reflexivity. Qed.

Lemma isEnabled_verifyIgnoreURLs (urls : list string) :
  forall h, isEnabled (fst (verifyIgnoreURLs h urls)) = isEnabled h.
Proof.
  induction urls as [| u urls IH]; intros h; simpl; [reflexivity |].
  destruct (regexp_Compile u); [rewrite IH |]; reflexivity.
Qed.

(** X5.  The retry goroutine returns only when the context is cancelled or
    after an attempt whose [connect] succeeded; every failure of [connect],
    whatever its cause, is followed by another wait.  Each timer event
    before the return is one call of [connect]. *)
Theorem retry_returns_only_on_cancel_or_connect (h : UmamiFeeder) (config : Config)
    (inputs : list RetryInput) :
  let r := retryConnection h config inputs in
  (r_status r = RetryExited -> r_verified r = true \/ In RetryCtxDone inputs)
  /\ (r_status r = RetryWaiting ->
      r_rest r = [] /\ r_verified r = false /\ r_attempts r = length inputs
      /\ ~ In RetryCtxDone inputs).
Proof.
  unfold retryConnection. generalize 0%Z as n. revert h.
  induction inputs as [| i inputs IH]; intros h n; simpl.
  - split; [discriminate |]. intros _. repeat split. intros [].
  - destruct i as [token fetched |]; simpl.
    + destruct (connect _ config token fetched) as [h2 [e |]].
      * simpl. specialize (IH (error h2 ("Failed to reconnect to Umami: " +:+ e))
                              (Time.wrap64 (n + 1))).
        destruct IH as [IHe IHw]. split.
        -- intros Hex. destruct (IHe Hex) as [Hv | Hin]; [left | right; right]; assumption.
        -- intros Hw. destruct (IHw Hw) as (Hrest & Hv & Hatt & Hnc).
           repeat split; try assumption; [congruence |].
           intros [Habs | Hin]; [discriminate | contradiction].
      * destruct (verifyConfig _ config) as [h4 [e |]]; simpl;
          (split; [intros _; left; reflexivity | discriminate]).
    + split; [intros _; right; left; reflexivity | discriminate].
Qed.

(** X6.  With no collector URL configured every attempt fails and is
    retried: as long as the context is not cancelled the goroutine keeps
    waiting, one call of [connect] per timer event, the plugin stays
    disabled and [verifyConfig] is never reached. *)
Theorem missing_host_is_retried (h : UmamiFeeder) (config : Config)
    (inputs : list RetryInput) :
  umamiHost h = EmptyString ->
  ~ In RetryCtxDone inputs ->
  let r := retryConnection h config inputs in
  r_status r = RetryWaiting
  /\ r_attempts r = length inputs
  /\ r_verified r = false
  /\ r_workerStarted r = false
  /\ isEnabled (r_h r) = isEnabled h.
Proof.
  unfold retryConnection. generalize 0%Z as n. revert h.
  induction inputs as [| i inputs IH]; intros h n Hhost Hnc; simpl.
  - repeat split. destruct (0 <? n)%Z; rewrite ?isEnabled_debugf; reflexivity.
  - destruct i as [token fetched |]; [| exfalso; apply Hnc; left; reflexivity].
    unfold connect. rewrite umamiHost_debugf.
    assert (Hh0 : umamiHost (if (0 <? n)%Z
                             then debugf h "Next connection attempt in %v (attempt #%d)."
                             else h) = EmptyString)
      by (destruct (0 <? n)%Z; rewrite ?umamiHost_debugf; exact Hhost).
    rewrite Hh0. simpl.
    match goal with
    | |- context [retryLoop ?hx config ?nx inputs] =>
      destruct (IH hx nx) as (Hs & Ha & Hv & Hw & He)
    end.
    + rewrite umamiHost_error, umamiHost_debugf. exact Hh0.
    + intros Hin. apply Hnc. right. exact Hin.
    + repeat split; try assumption; [congruence |].
      rewrite He, isEnabled_error, isEnabled_debugf.
      destruct (0 <? n)%Z; rewrite ?isEnabled_debugf; reflexivity.
Qed.

(** X7.  The [k]-th wait of the retry goroutine (counting from 0, and below
    the 2^63 attempts at which the counter would wrap) lasts
    [currentDelay k]: no wait before the first attempt, then 30 s, 60 s, ...
    up to the cap. *)
Theorem retry_waits_follow_schedule (h : UmamiFeeder) (config : Config)
    (inputs : list RetryInput) (k : nat) (d : Z) :
  (Z.of_nat k < 2 ^ 63)%Z ->
  nth_error (r_delays (retryConnection h config inputs)) k = Some d ->
  d = currentDelay (Z.of_nat k).
Proof.
  unfold retryConnection.
  assert (Hgen : forall inputs h n k d,
             (0 <= n)%Z -> (n + Z.of_nat k < 2 ^ 63)%Z ->
             nth_error (r_delays (retryLoop h config n inputs)) k = Some d ->
             d = currentDelay (n + Z.of_nat k)).
  { clear. induction inputs as [| i inputs IH]; intros h n k d Hn Hbound Hnth.
    - simpl in Hnth. destruct k as [| k]; simpl in Hnth; [| destruct k; discriminate].
      inversion Hnth. rewrite Z.add_0_r. reflexivity.
    - assert (Hone : forall x, nth_error [currentDelay n] k = Some x ->
                               x = currentDelay (n + Z.of_nat k)).
      { intros x Hx. destruct k as [| k']; simpl in Hx; [| destruct k'; discriminate].
        inversion Hx. rewrite Z.add_0_r. reflexivity. }
      destruct i as [token fetched |]; simpl in Hnth; [| apply Hone; exact Hnth].
      destruct (connect _ config token fetched) as [h2 [e |]].
      + simpl in Hnth. destruct k as [| k]; simpl in Hnth.
        * inversion Hnth. rewrite Z.add_0_r. reflexivity.
        * assert (Hwrap : Time.wrap64 (n + 1) = (n + 1)%Z).
          { unfold Time.wrap64. rewrite Z.mod_small; lia. }
          rewrite Hwrap in Hnth. apply IH in Hnth; [| lia | lia].
          rewrite Hnth. f_equal. lia.
      + destruct (verifyConfig _ config) as [h4 [e |]]; apply Hone; exact Hnth. }
  intros Hk Hnth. apply (Hgen inputs h 0%Z k d); [lia | lia | exact Hnth].
Qed.

Lemma same_rules_refl (h : UmamiFeeder) : same_rules h h.
Proof. split; reflexivity. Qed.

Lemma same_rules_trans (h1 h2 h3 : UmamiFeeder) :
  same_rules h1 h2 -> same_rules h2 h3 -> same_rules h1 h3.
Proof. intros [A1 B1] [A2 B2]. split; congruence. Qed.

Lemma same_rules_debugf (h : UmamiFeeder) (f : string) : same_rules h (debugf h f).
Proof. unfold debugf. destruct (logHandler h), (isDebug h); split; reflexivity. Qed.

Lemma same_rules_error (h : UmamiFeeder) (m : string) : same_rules h (error h m).
Proof. unfold error. destruct (logHandler h); split; reflexivity. Qed.

Lemma same_rules_connect (h : UmamiFeeder) (config : Config)
    (token : result string) (fetched : result (list Website_)) :
  same_rules h (fst (connect h config token fetched)).
Proof.
  unfold connect.
  repeat match goal with
         | |- context [if ?b then _ else _] => destruct b
         | |- context [match ?r with Ok _ => _ | Err _ => _ end] => destruct r
         end;
    simpl; try apply same_rules_refl;
    repeat (eapply same_rules_trans; [| apply same_rules_debugf]);
    unfold set_websites, set_umamiToken; split; simpl;
    try reflexivity; apply same_rules_debugf.
Qed.

(** X8.  Started from the disabled state [New] leaves, the plugin is active
    exactly when the retry goroutine has started the worker; and when it
    has, the goroutine has returned, the configuration is valid, and every
    configured ignore rule has been compiled into the instance, in order. *)
Theorem active_iff_worker_started (h : UmamiFeeder) (config : Config)
    (inputs : list RetryInput) :
  isEnabled h = false ->
  let r := retryConnection h config inputs in
  isEnabled (r_h r) = r_workerStarted r
  /\ (r_workerStarted r = true ->
      r_status r = RetryExited
      /\ ~ config_invalid config
      /\ exists prefixes regexps,
          Forall2 (fun s p => parseIgnoreIP s = Ok p) (IgnoreIPs config) prefixes
          /\ Forall2 (fun s x => regexp_Compile s = Ok x) (IgnoreURLs config) regexps
          /\ ignorePrefixes (r_h r) = ignorePrefixes h ++ prefixes
          /\ ignoreRegexps (r_h r) = ignoreRegexps h ++ regexps).
Proof.
  unfold retryConnection. generalize 0%Z as n. revert h.
  induction inputs as [| i inputs IH]; intros h n Hoff; simpl.
  - split; [| discriminate].
    destruct (0 <? n)%Z; rewrite ?isEnabled_debugf; exact Hoff.
  - set (h0 := if (0 <? n)%Z
               then debugf h "Next connection attempt in %v (attempt #%d)." else h).
    assert (Hh0 : isEnabled h0 = false /\ same_rules h h0).
    { subst h0. destruct (0 <? n)%Z.
      - rewrite isEnabled_debugf. split; [exact Hoff | apply same_rules_debugf].
      - split; [exact Hoff | apply same_rules_refl]. }
    destruct Hh0 as [Hoff0 Hrules0].
    destruct i as [token fetched |]; simpl.
    + pose proof (same_rules_connect
                    (debugf h0 "Attempting to connect to Umami (attempt #%d)")
                    config token fetched) as Hrc.
      pose proof (isEnabled_connect
                    (debugf h0 "Attempting to connect to Umami (attempt #%d)")
                    config token fetched) as Hec.
      destruct (connect _ config token fetched) as [h2 [e |]]; simpl in Hrc, Hec.
      * simpl.
        assert (Hr2 : same_rules h (error h2 ("Failed to reconnect to Umami: " +:+ e))).
        { eapply same_rules_trans; [exact Hrules0 |].
          eapply same_rules_trans; [apply same_rules_debugf |].
          eapply same_rules_trans; [exact Hrc | apply same_rules_error]. }
        destruct (IH (error h2 ("Failed to reconnect to Umami: " +:+ e))
                     (Time.wrap64 (n + 1))) as [Hflag Hact].
        { rewrite isEnabled_error, Hec, isEnabled_debugf. exact Hoff0. }
        split; [exact Hflag |]. intros Hstarted.
        destruct (Hact Hstarted) as (Hex & Hvalid & prefixes & regexps & Hp & Hx & Hip & Hir).
        split; [exact Hex |]. split; [exact Hvalid |].
        exists prefixes, regexps. destruct Hr2 as [Hsp Hsr].
        rewrite Hip, Hir, Hsp, Hsr. auto.
      * destruct (verifyConfig _ config) as [h4 [e |]] eqn:Hv; simpl.
        -- split; [reflexivity | discriminate].
        -- split; [reflexivity |]. intros _. split; [reflexivity |].
           split.
           { intros Hbad. apply (verifyConfig_error_iff config
               (debugf h2 "Successfully connected to Umami. Verifying configuration..."))
               in Hbad. destruct Hbad as (h' & e & Hbad). congruence. }
           unfold verifyConfig in Hv.
           destruct (verifyIgnoreIPs _ (IgnoreIPs config)) as [h3 [e |]] eqn:Hips;
             [discriminate |].
           destruct (verifyIgnoreIPs_ok _ _ _ Hips) as (prefixes & Hp & ->).
           destruct (verifyIgnoreURLs_ok _ _ _ Hv) as (regexps & Hx & ->).
           exists prefixes, regexps. split; [exact Hp |]. split; [exact Hx |].
           assert (Hr3 : same_rules h
                     (debugf h2 "Successfully connected to Umami. Verifying configuration...")).
           { eapply same_rules_trans; [exact Hrules0 |].
             eapply same_rules_trans; [apply same_rules_debugf |].
             eapply same_rules_trans; [exact Hrc | apply same_rules_debugf]. }
           destruct Hr3 as [Hsp Hsr].
           destruct (same_rules_debugf
                       (set_ignoreRegexps
                          (set_ignorePrefixes
                             (debugf h2 "Successfully connected to Umami. Verifying configuration...")
                             (ignorePrefixes (debugf h2 "Successfully connected to Umami. Verifying configuration...") ++ prefixes))
                          (ignoreRegexps (debugf h2 "Successfully connected to Umami. Verifying configuration...") ++ regexps))
                       "Configuration verified. Enabling plugin and starting worker.")
             as [Hdp Hdr].
           unfold set_isEnabled. simpl. rewrite Hdp, Hdr. simpl.
           rewrite Hsp, Hsr. auto.
    + split; [| discriminate]. rewrite isEnabled_debugf. exact Hoff0.
Qed.

End RetryLoop.

Lemma verifyConfig_compiles_all_witness :
  exists prefixes regexps,
    Forall2 (fun s p => parseIgnoreIP s = Ok p) ["127.0.0.1"; "10.0.0.1/24"] prefixes
    /\ Forall2 (fun s r => regexp_Compile s = Ok r) ["^/admin"] regexps
    /\ fst (verifyConfig feeder_zero (config_ignore ["127.0.0.1"; "10.0.0.1/24"] ["^/admin"]))
       = set_ignoreRegexps (set_ignorePrefixes feeder_zero ([] ++ prefixes)) ([] ++ regexps).
Proof.
  apply (verifyConfig_compiles_all feeder_zero
           (fst (verifyConfig feeder_zero
                   (config_ignore ["127.0.0.1"; "10.0.0.1/24"] ["^/admin"])))
           (config_ignore ["127.0.0.1"; "10.0.0.1/24"] ["^/admin"])).
  vm_compute. reflexivity.
Defined.

Lemma missing_host_is_retried_witness :
  let r := retryConnection feeder_zero CreateConfig
             [TimerElapsed (Ok "token-1") (Ok []); TimerElapsed (Ok "token-1") (Ok [])] in
  r_status r = RetryWaiting /\ r_attempts r = 2 /\ r_verified r = false
  /\ r_workerStarted r = false /\ isEnabled (r_h r) = false.
Proof.
  apply (missing_host_is_retried feeder_zero CreateConfig
           [TimerElapsed (Ok "token-1") (Ok []); TimerElapsed (Ok "token-1") (Ok [])]).
  - reflexivity.
  - simpl. intros [Hin | [Hin | []]]; discriminate Hin.
Defined.

Lemma retry_waits_follow_schedule_witness :
  (30 * Time.Second)%Z = currentDelay (Z.of_nat 1).
Proof.
  apply (retry_waits_follow_schedule feeder_zero CreateConfig
           [TimerElapsed (Err "connection refused") (Err "connection refused");
            TimerElapsed (Err "connection refused") (Err "connection refused")]
           1 (30 * Time.Second)%Z).
  - vm_compute. reflexivity.
  - vm_compute. reflexivity.
Defined.

Lemma active_iff_worker_started_witness :
  let r := retryConnection feeder_site_off
             (config_ignore ["10.0.0.1/24"] ["^/admin"])
             [TimerElapsed (Err "connection refused") (Err "connection refused");
              TimerElapsed (Err "not called") (Err "not called")] in
  isEnabled (r_h r) = true
  /\ ignorePrefixes (r_h r) = [(167772161, 24)%Z]
  /\ ignoreRegexps (r_h r) = ["^/admin"].
Proof.
  intros r.
  destruct (active_iff_worker_started feeder_site_off
              (config_ignore ["10.0.0.1/24"] ["^/admin"])
              [TimerElapsed (Err "connection refused") (Err "connection refused");
               TimerElapsed (Err "not called") (Err "not called")])
    as [Hflag _]; [reflexivity |].
  fold r in Hflag. split; [rewrite Hflag |]; vm_compute; auto.
Defined.

(** ** Consumer: nothing is lost, batches are bounded *)

Section Batches.
Context `{GoStd}.

Lemma reported_snoc (w : Worker) (reports : list Report) (r : Report) :
  concat (map rp_body (reports ++ [r])) = concat (map rp_body reports) ++ rp_body r.
Proof. rewrite map_app, concat_app. simpl. rewrite app_nil_r. reflexivity. Qed.

Lemma feeder_iter_accounted (w : Worker) (t : Tick) :
  accounted (feeder_iter w t) = accounted (Continue w) ++ received [t].
Proof.
  destruct (feeder_iter_spec w t) as [_ Hspec].
  unfold received. simpl. rewrite app_nil_r.
  destruct (sel t) as [| event |]; cbv zeta in Hspec.
  - destruct Hspec as [Hnc Hrep]. rewrite app_nil_r.
    assert (Hacc : accounted (feeder_iter w t)
                   = reported (worker_of (feeder_iter w t))).
    { destruct (feeder_iter w t); try reflexivity. exfalso. apply Hnc. reflexivity. }
    rewrite Hacc. unfold reported. rewrite Hrep.
    destruct (w_batch w) as [| te batch]; simpl.
    + rewrite !app_nil_r. reflexivity.
    + apply (reported_snoc w).
  - destruct (_ <=? _)%Z.
    + destruct Hspec as [Hrep Hs].
      assert (Hacc : accounted (feeder_iter w t)
                     = reported (worker_of (feeder_iter w t))).
      { destruct (send t); destruct Hs as [x Hx]; rewrite Hx; simpl;
          rewrite ?app_nil_r; reflexivity. }
      rewrite Hacc. unfold reported. rewrite Hrep, (reported_snoc w).
      unfold rp_body, flush_of. simpl. rewrite map_app, <- app_assoc. reflexivity.
    + rewrite Hspec. simpl. rewrite map_app, <- app_assoc. reflexivity.
  - rewrite app_nil_r. destruct (0 <? length (w_batch w)) eqn:Hlen.
    + destruct Hspec as [Hrep Hs].
      assert (Hacc : accounted (feeder_iter w t)
                     = reported (worker_of (feeder_iter w t))).
      { destruct (send t); destruct Hs as [x Hx]; rewrite Hx; simpl;
          rewrite ?app_nil_r; reflexivity. }
      rewrite Hacc. unfold reported. rewrite Hrep, (reported_snoc w). reflexivity.
    + rewrite Hspec. reflexivity.
Qed.

Lemma received_app (a b : list Tick) : received (a ++ b) = received a ++ received b.
Proof. unfold received. apply flat_map_app. Qed.

(** X9.  The worker neither loses nor duplicates nor reorders events: at
    any moment the envelopes it has handed to [reportEventsToUmami],
    followed by its pending batch, are exactly the events it has received,
    in the order received; and when its loop has ended (by cancellation or
    by a fault) every event it received has been handed over. *)
Theorem worker_accounts_for_every_event (h : UmamiFeeder) (start : Z) (ticks : list Tick) :
  exists consumed,
    ticks = consumed ++ snd (feeder_loop (mkWorker _ h [] [] start) ticks)
    /\ accounted (fst (feeder_loop (mkWorker _ h [] [] start) ticks)) = received consumed.
Proof.
  assert (Hgen : forall ticks w,
             exists consumed,
               ticks = consumed ++ snd (feeder_loop w ticks)
               /\ accounted (fst (feeder_loop w ticks))
                  = accounted (Continue w) ++ received consumed).
  { clear. induction ticks as [| t ticks IH]; intros w.
    - exists []. simpl. rewrite app_nil_r. auto.
    - simpl. pose proof (feeder_iter_accounted w t) as Hstep.
      destruct (feeder_iter w t) as [w1 | w1 | v w1] eqn:Hiter.
      + destruct (IH w1) as (consumed & Hsplit & Hacc).
        exists (t :: consumed). split; [simpl; congruence |].
        rewrite Hacc, Hstep. change (t :: consumed) with ([t] ++ consumed).
        rewrite received_app, app_assoc. reflexivity.
      + exists [t]. simpl. split; [reflexivity | exact Hstep].
      + exists [t]. simpl. split; [reflexivity | exact Hstep]. }
  destruct (Hgen ticks (mkWorker _ h [] [] start)) as (consumed & Hsplit & Hacc).
  exists consumed. split; [exact Hsplit | exact Hacc].
Qed.

Lemma feeder_iter_batches (w : Worker) (t : Tick) :
  (Z.of_nat (length (w_batch w)) < batch_limit (w_h w))%Z ->
  Forall (fun r => (1 <= Z.of_nat (length (rp_events r)) <= batch_limit (w_h w))%Z)
         (w_reports w) ->
  Forall (fun r => (1 <= Z.of_nat (length (rp_events r)) <= batch_limit (w_h w))%Z)
         (w_reports (worker_of (feeder_iter w t)))
  /\ batch_limit (w_h (worker_of (feeder_iter w t))) = batch_limit (w_h w)
  /\ (forall w', feeder_iter w t = Continue w' ->
      (Z.of_nat (length (w_batch w')) < batch_limit (w_h w))%Z).
Proof.
  intros Hlt Hold.
  destruct (feeder_iter_spec w t) as [(Hsize & _ & _) Hspec].
  assert (Hlim : batch_limit (w_h (worker_of (feeder_iter w t))) = batch_limit (w_h w))
    by (unfold batch_limit; rewrite Hsize; reflexivity).
  split; [| split; [exact Hlim |]].
  - destruct (sel t) as [| event |]; cbv zeta in Hspec.
    + destruct Hspec as [_ ->]. apply Forall_app. split; [exact Hold |].
      destruct (w_batch w) as [| te batch] eqn:Hb; simpl; constructor; [| constructor].
      simpl in *. lia.
    + destruct (Z.leb_spec (batchSize (w_h w))
                  (Z.of_nat (length (w_batch w ++ [(now t, mkSendBody event "event")]))))
        as [Hge | Hlow]; [| rewrite Hspec; exact Hold].
      destruct Hspec as [-> _]. apply Forall_app. split; [exact Hold |].
      constructor; [| constructor]. simpl. rewrite length_app. simpl.
      unfold batch_limit in *. lia.
    + destruct (0 <? length (w_batch w)) eqn:Hlen; [| rewrite Hspec; exact Hold].
      destruct Hspec as [-> _]. apply Forall_app. split; [exact Hold |].
      constructor; [| constructor]. simpl.
      destruct (w_batch w); simpl in *; [discriminate | lia].
  - intros w' Hc. destruct (sel t) as [| event |]; cbv zeta in Hspec.
    + destruct Hspec as [Hnc _]. exfalso. apply Hnc. rewrite Hc. reflexivity.
    + destruct (Z.leb_spec (batchSize (w_h w))
                  (Z.of_nat (length (w_batch w ++ [(now t, mkSendBody event "event")]))))
        as [Hge | Hlow].
      * destruct Hspec as [_ Hs].
        destruct (send t); destruct Hs as [x Hx]; rewrite Hx in Hc; inversion Hc; subst w';
          simpl; unfold batch_limit; lia.
      * rewrite Hspec in Hc. inversion Hc; subst w'. simpl. unfold batch_limit. lia.
    + destruct (0 <? length (w_batch w)) eqn:Hlen.
      * destruct Hspec as [_ Hs].
        destruct (send t); destruct Hs as [x Hx]; rewrite Hx in Hc; inversion Hc; subst w';
          simpl; unfold batch_limit; lia.
      * rewrite Hspec in Hc. inversion Hc; subst w'. simpl. exact Hlt.
Qed.

(** X10.  The worker never sends an empty batch and never one larger than
    [batchSize] (than one event, when [batchSize] is below one). *)
Theorem batches_are_bounded (h : UmamiFeeder) (start : Z) (ticks : list Tick) :
  Forall (fun r => (1 <= Z.of_nat (length (rp_events r)) <= Z.max 1 (batchSize h))%Z)
         (w_reports (worker_of (fst (feeder_loop (mkWorker _ h [] [] start) ticks)))).
Proof.
  assert (Hgen : forall ticks w,
             (Z.of_nat (length (w_batch w)) < batch_limit (w_h w))%Z ->
             Forall (fun r => (1 <= Z.of_nat (length (rp_events r)) <= batch_limit (w_h w))%Z)
                    (w_reports w) ->
             Forall (fun r => (1 <= Z.of_nat (length (rp_events r)) <= batch_limit (w_h w))%Z)
                    (w_reports (worker_of (fst (feeder_loop w ticks))))).
  { clear. induction ticks as [| t ticks IH]; intros w Hlt Hold; simpl; [exact Hold |].
    destruct (feeder_iter_batches w t Hlt Hold) as (Hrep & Hlim & Hnext).
    destruct (feeder_iter w t) as [w1 | w1 | v w1] eqn:Hiter; simpl in *;
      [| exact Hrep | exact Hrep].
    rewrite <- Hlim. apply IH; rewrite Hlim; auto. }
  apply (Hgen ticks (mkWorker _ h [] [] start)).
  - simpl. unfold batch_limit. simpl. lia.
  - constructor.
Qed.

Lemma feeder_iter_cancel (w : Worker) (t : Tick) :
  sel t = SelCtxDone -> calm t ->
  exists h',
    same_settings (w_h w) h'
    /\ feeder_iter w t
       = ReturnNil (mkWorker _ h'
                     (w_reports w ++ (if 0 <? length (w_batch w)
                                      then [flush_of w (now t) (w_batch w)] else []))
                     (w_batch w) (w_armed w)).
Proof.
  intros Hsel Hcalm. unfold feeder_iter, flush_of, calm in *. rewrite Hsel.
  destruct (0 <? length (w_batch w)).
  - destruct (reportEventsToUmami_spec
                (debugf (w_h w) "worker shutting down (canceled)") (w_reports w) (now t)
                (w_batch w) (send t)) as (h' & Hs & ->).
    assert (Hhost : umamiHost (debugf (w_h w) "worker shutting down (canceled)")
                    = umamiHost (w_h w)) by apply same_settings_debugf.
    rewrite Hhost. exists h'. split.
    + eapply same_settings_trans; [apply same_settings_debugf | exact Hs].
    + destruct (send t); [reflexivity | reflexivity | contradiction].
  - eexists. split; [apply same_settings_debugf |]. rewrite app_nil_r. reflexivity.
Qed.

Lemma feeder_iter_same_traffic (w w' : Worker) (t t' : Tick) :
  same_traffic w w' -> same_pass t t' -> calm t -> calm t' ->
  match feeder_iter w t, feeder_iter w' t' with
  | Continue w1, Continue w1' => same_traffic w1 w1'
  | ReturnNil w1, ReturnNil w1' => same_traffic w1 w1'
  | _, _ => False
  end.
Proof.
  intros (Hr & Hb & Ha & Hset) [Hnow Hsel] Hcalm Hcalm'.
  destruct (feeder_iter_spec w t) as [Hs1 Hspec].
  destruct (feeder_iter_spec w' t') as [Hs1' Hspec'].
  assert (Hsettings : same_settings (w_h (worker_of (feeder_iter w t)))
                                    (w_h (worker_of (feeder_iter w' t')))).
  { destruct Hs1 as (A1 & B1 & C1), Hs1' as (A2 & B2 & C2), Hset as (A & B & C).
    repeat split; congruence. }
  assert (Hflush : forall n b, flush_of w' n b = flush_of w n b).
  { intros n b. unfold flush_of. destruct Hset as (_ & _ & Hhost). congruence. }
  rewrite <- Hsel in Hspec'. rewrite Hb, Hr, <- Hnow in Hspec'.
  destruct Hset as (Hsize & Hset'). rewrite Hsize in Hspec'.
  destruct (sel t) as [| event |] eqn:Hselt; cbv zeta in Hspec, Hspec'.
  - destruct (feeder_iter_cancel w t Hselt Hcalm) as (hx & Hsx & Ex).
    destruct (feeder_iter_cancel w' t' (eq_sym Hsel) Hcalm') as (hx' & Hsx' & Ex').
    rewrite Ex, Ex'. rewrite Ex, Ex' in Hsettings. simpl in Hsettings.
    unfold same_traffic. simpl. rewrite Hflush, Hb, Hr, <- Hnow.
    repeat split; auto; apply Hsettings.
  - unfold calm in Hcalm, Hcalm'. destruct (_ <=? _)%Z.
    + destruct Hspec as [_ Hs], Hspec' as [_ Hs'].
      destruct (send t); try contradiction; destruct (send t'); try contradiction;
        destruct Hs as [x Hx], Hs' as [x' Hx']; rewrite Hx in *; rewrite Hx' in *;
        simpl in *; (split; [rewrite Hflush; reflexivity |]);
        repeat split; auto; apply Hsettings.
    + rewrite Hspec, Hspec' in *. simpl in *. repeat split; auto; apply Hsettings.
  - unfold calm in Hcalm, Hcalm'. destruct (0 <? length (w_batch w)).
    + destruct Hspec as [_ Hs], Hspec' as [_ Hs'].
      destruct (send t); try contradiction; destruct (send t'); try contradiction;
        destruct Hs as [x Hx], Hs' as [x' Hx']; rewrite Hx in *; rewrite Hx' in *;
        simpl in *; (split; [rewrite Hflush; reflexivity |]);
        repeat split; auto; apply Hsettings.
    + rewrite Hspec, Hspec' in *. simpl in *. repeat split; auto; apply Hsettings.
Qed.

(** X11.  A failed outbound call changes nothing in what the worker sends
    afterwards: two runs over the same arrivals, timer events and
    cancellation that differ only in which outbound calls succeed and which
    fail (none faulting) make the same calls of [reportEventsToUmami], at
    the same times and with the same batches, and end with the same pending
    batch.  A batch whose call failed is not sent again. *)
Theorem failed_calls_are_not_retried (h : UmamiFeeder) (start : Z) (ticks ticks' : list Tick) :
  Forall2 same_pass ticks ticks' ->
  Forall calm ticks -> Forall calm ticks' ->
  let w := worker_of (fst (feeder_loop (mkWorker _ h [] [] start) ticks)) in
  let w' := worker_of (fst (feeder_loop (mkWorker _ h [] [] start) ticks')) in
  w_reports w' = w_reports w /\ w_batch w' = w_batch w.
Proof.
  assert (Hgen : forall ticks ticks', Forall2 same_pass ticks ticks' ->
             Forall calm ticks -> Forall calm ticks' ->
             forall w w', same_traffic w w' ->
             same_traffic (worker_of (fst (feeder_loop w ticks)))
                          (worker_of (fst (feeder_loop w' ticks')))).
  { clear. intros ticks ticks' Hsame.
    induction Hsame as [| t t' ticks ticks' Hpass Hrest IH];
      intros Hcalm Hcalm' w w' Htraffic; simpl; [exact Htraffic |].
    inversion Hcalm as [| ? ? Hc Hcs]; inversion Hcalm' as [| ? ? Hc' Hcs']; subst.
    pose proof (feeder_iter_same_traffic w w' t t' Htraffic Hpass Hc Hc') as Hstep.
    destruct (feeder_iter w t) as [w1 | w1 | v w1], (feeder_iter w' t') as [w1' | w1' | v' w1'];
      try contradiction; simpl; [apply IH; assumption | exact Hstep]. }
  intros Hsame Hcalm Hcalm' w w'.
  destruct (Hgen ticks ticks' Hsame Hcalm Hcalm' (mkWorker _ h [] [] start)
                 (mkWorker _ h [] [] start)) as (Hr & Hb & _).
  - repeat split.
  - split; [exact Hr | exact Hb].
Qed.

End Batches.

Lemma failed_calls_are_not_retried_witness :
  let ok := [tick_recv 1000000000; tick_timeout 6000000000; tick_recv 7000000000] in
  let failing := [tick_recv 1000000000;
                  mkTick 6000000000 SelTimeout (SendErr "connection refused");
                  tick_recv 7000000000] in
  let w := worker_of (fst (feeder_loop (mkWorker _ (feeder_batch 3) [] [] 0) ok)) in
  let w' := worker_of (fst (feeder_loop (mkWorker _ (feeder_batch 3) [] [] 0) failing)) in
  w_reports w' = w_reports w /\ w_batch w' = w_batch w.
Proof.
  apply (failed_calls_are_not_retried (feeder_batch 3) 0
           [tick_recv 1000000000; tick_timeout 6000000000; tick_recv 7000000000]
           [tick_recv 1000000000;
            mkTick 6000000000 SelTimeout (SendErr "connection refused");
            tick_recv 7000000000]).
  - repeat constructor.
  - repeat constructor.
  - repeat constructor.
Defined.

(** ** The request path: [ServeHTTP] and the response wrapper *)

Section RequestPath.
Context `{GoStd}.

Lemma wrapped_after_written (unixNow : Z) (created : result Website_) (ops : list HandlerOp) :
  forall h wr,
  wr_written wr = true ->
  fst (fold_left (wrapped_op unixNow created) ops (h, wr)) = h
  /\ status_calls (rw_calls (wr_inner (snd (fold_left (wrapped_op unixNow created) ops (h, wr)))))
     = status_calls (rw_calls (wr_inner wr))
  /\ written_bytes (rw_calls (wr_inner (snd (fold_left (wrapped_op unixNow created) ops (h, wr)))))
     = written_bytes (rw_calls (wr_inner wr)) ++ body_of ops.
Proof.
  induction ops as [| op ops IH]; intros h wr Hw; simpl.
  - rewrite app_nil_r. auto.
  - assert (Hstep : fst (wrapped_op unixNow created (h, wr) op) = h
                    /\ wr_written (snd (wrapped_op unixNow created (h, wr) op)) = true
                    /\ status_calls (rw_calls (wr_inner (snd (wrapped_op unixNow created (h, wr) op))))
                       = status_calls (rw_calls (wr_inner wr))
                    /\ written_bytes (rw_calls (wr_inner (snd (wrapped_op unixNow created (h, wr) op))))
                       = written_bytes (rw_calls (wr_inner wr)) ++ body_of [op]).
    { unfold status_calls, written_bytes, body_of.
      destruct op as [c | b | |]; simpl;
        unfold Wrapper_Write, Wrapper_WriteHeader, Wrapper_Flush, Wrapper_Hijack;
        rewrite ?Hw; simpl;
        repeat match goal with
               | |- context [if ?x then _ else _] => destruct x
               end; simpl; rewrite ?flat_map_app, ?app_nil_r; simpl;
        rewrite ?app_nil_r; auto. }
    destruct (wrapped_op unixNow created (h, wr) op) as [h1 wr1].
    simpl in Hstep. destruct Hstep as (-> & Hw1 & Hs1 & Hb1).
    destruct (IH h wr1 Hw1) as (Hh & Hs & Hb).
    rewrite Hh, Hs, Hb, Hs1, Hb1.
    split; [reflexivity |]. split; [reflexivity |].
    unfold body_of. simpl. rewrite app_nil_r, <- app_assoc. reflexivity.
Qed.

Lemma wrapped_run (unixNow : Z) (created : result Website_) (req : Request)
    (ops : list HandlerOp) :
  forall h rw,
  let r := fold_left (wrapped_op unixNow created) ops (h, mkResponseWrapper rw req false) in
  fst r = match first_status ops with
          | Some statusCode => report_status h req statusCode unixNow created
          | None => h
          end
  /\ status_calls (rw_calls (wr_inner (snd r)))
     = status_calls (rw_calls rw)
       ++ match first_status ops with Some statusCode => [statusCode] | None => [] end
  /\ written_bytes (rw_calls (wr_inner (snd r))) = written_bytes (rw_calls rw) ++ body_of ops.
Proof.
  induction ops as [| op ops IH]; intros h rw; simpl.
  - rewrite !app_nil_r. auto.
  - destruct op as [c | b | |]; simpl.
    + unfold Wrapper_WriteHeader at 1 2 3. simpl.
      destruct (shouldTrackStatus_logged h c) as [track h1] eqn:Hst.
      match goal with
      | |- context [fold_left _ ops (?hx, ?wx)] =>
        destruct (wrapped_after_written unixNow created ops hx wx eq_refl) as (Hh & Hs & Hb)
      end.
      rewrite Hh, Hs, Hb. simpl.
      unfold report_status, Wrapper_WriteHeader. simpl. rewrite Hst.
      unfold status_calls, written_bytes. rewrite !flat_map_app. simpl.
      rewrite !app_nil_r. auto.
    + unfold Wrapper_Write, Wrapper_WriteHeader. simpl.
      match goal with
      | |- context [fold_left _ ops (?hx, ?wx)] =>
        destruct (wrapped_after_written unixNow created ops hx wx) as (Hh & Hs & Hb);
          [unfold Wrapper_Flush; simpl; destruct (rw_flusher rw); reflexivity |]
      end.
      rewrite Hh, Hs, Hb.
      unfold report_status, Wrapper_WriteHeader. simpl.
      unfold Wrapper_Flush, status_calls, written_bytes. simpl.
      destruct (rw_flusher rw); simpl; rewrite !flat_map_app; simpl;
        rewrite ?flat_map_app; simpl; rewrite ?app_nil_r, <- ?app_assoc; auto.
    + unfold Wrapper_Flush. simpl. destruct (rw_flusher rw).
      * specialize (IH h (rw_call rw CallFlush)). simpl in IH.
        destruct IH as (Hh & Hs & Hb). rewrite Hh, Hs, Hb.
        unfold status_calls, written_bytes. rewrite !flat_map_app. simpl.
        rewrite !app_nil_r. auto.
      * apply (IH h rw).
    + unfold Wrapper_Hijack. simpl. destruct (rw_hijacker rw); simpl.
      * specialize (IH h (rw_call rw CallHijack)). simpl in IH.
        destruct IH as (Hh & Hs & Hb). rewrite Hh, Hs, Hb.
        unfold status_calls, written_bytes. rewrite !flat_map_app. simpl.
        rewrite !app_nil_r. auto.
      * apply (IH h rw).
Qed.

Lemma report_status_eq (h : UmamiFeeder) (req : Request) (statusCode unixNow : Z)
    (created : result Website_) :
  report_status h req statusCode unixNow created
  = if shouldTrackStatus h statusCode
    then submitToFeed h req statusCode unixNow created
    else debugf h "not reporting %d error".
Proof.
  unfold report_status, Wrapper_WriteHeader, shouldTrackStatus_logged, shouldTrackStatus.
  simpl. destruct (400 <=? statusCode)%Z; [destruct (trackErrors h) |]; reflexivity.
Qed.

Lemma direct_run_body (ops : list HandlerOp) :
  forall rw, written_bytes (rw_calls (fold_left direct_op ops rw))
             = written_bytes (rw_calls rw) ++ body_of ops.
Proof.
  induction ops as [| op ops IH]; intros rw; simpl; [rewrite app_nil_r; reflexivity |].
  rewrite IH. unfold body_of, written_bytes.
  destruct op as [c | b | |]; simpl;
    repeat match goal with
           | |- context [if ?x then _ else _] => destruct x
           end; simpl; rewrite ?flat_map_app; simpl; rewrite ?app_nil_r, <- ?app_assoc;
    reflexivity.
Qed.

Lemma queue_total_submit (h : UmamiFeeder) (req : Request) (statusCode unixNow : Z)
    (created : result Website_) :
  let q := queue h in
  let q' := queue (submitToFeed h req statusCode unixNow created) in
  length (Chan.buf q ++ Chan.handoff q)
  <= length (Chan.buf q' ++ Chan.handoff q')
  <= length (Chan.buf q ++ Chan.handoff q) + 1.
Proof.
  destruct (submitToFeed_cases h req statusCode unixNow created)
    as [(_ & h1 & [Hq _] & Heq) | (_ & h2 & event & [Hq _] & _ & _ & Hsend)]; simpl.
  - rewrite Heq, (proj1 (same_queue_error h1 _)), Hq. lia.
  - destruct (Chan.selectnbsend (queue h) event) as [q' | |] eqn:Hs; [| | contradiction].
    + rewrite Hsend. simpl.
      apply selectnbsend_sent in Hs
        as (_ & [(_ & _ & -> & ->) | (_ & _ & _ & -> & ->)]);
        rewrite !length_app; simpl; lia.
    + rewrite Hsend, (proj1 (same_queue_error h2 _)), Hq. lia.
Qed.

Lemma websites_error (h : UmamiFeeder) (m : string) : websites (error h m) = websites h.
Proof. unfold error. destruct (logHandler h); reflexivity. Qed.

Lemma shouldTrack_logged_spec (h : UmamiFeeder) (req : Request) :
  fst (shouldTrack_logged h req) = shouldTrack h req
  /\ (shouldTrack h req = true -> snd (shouldTrack_logged h req) = h)
  /\ (shouldTrack h req = false ->
      exists format, snd (shouldTrack_logged h req) = debugf h format).
Proof.
  unfold shouldTrack_logged, shouldTrackRequest_logged, shouldTrack, shouldTrackRequest.
  assert (Hreject : forall h1 : UmamiFeeder,
             (exists format, h1 = debugf h format) ->
             false = false /\ (false = true -> h1 = h)
             /\ (false = false -> exists format, h1 = debugf h format))
    by (intros h1 Hex; split; [reflexivity | split; [discriminate | intros _; exact Hex]]).
  assert (Haccept : true = true /\ (true = true -> h = h)
                    /\ (true = false -> exists format, h = debugf h format))
    by (split; [reflexivity | split; [reflexivity | discriminate]]).
  destruct (hostIgnored h req); simpl; [apply Hreject; eauto |].
  destruct (ipIgnored h req); simpl; [apply Hreject; eauto |].
  destruct (userAgentIgnored h req); simpl; [apply Hreject; eauto |].
  destruct (urlIgnored h req); simpl; [apply Hreject; eauto |].
  destruct (shouldTrackResource h (URL_Path req)); simpl; [| apply Hreject; eauto].
  destruct (createNewWebsites h); simpl; [exact Haccept |].
  destruct (websites h !! parseDomainFromHost (Host req)); simpl;
    [exact Haccept | apply Hreject; eauto].
Qed.

Lemma ServeHTTP_feeder (h : UmamiFeeder) (rw : ResponseWriter) (req : Request)
    (ops : list HandlerOp) (unixNow : Z) (created : result Website_) :
  fst (ServeHTTP h rw req ops unixNow created)
  = (if isEnabled h && shouldTrack h req then
       match first_status ops with
       | None => h
       | Some statusCode =>
         if shouldTrackStatus h statusCode
         then submitToFeed h req statusCode unixNow created
         else debugf h "not reporting %d error"
       end
     else turned_down h req).
Proof.
  unfold ServeHTTP, turned_down. destruct (isEnabled h); simpl; [| reflexivity].
  destruct (shouldTrack_logged_spec h req) as (Hfst & Hyes & _).
  destruct (shouldTrack_logged h req) as [track h0]. simpl in *. subst track.
  destruct (shouldTrack h req); [| reflexivity]. rewrite (Hyes eq_refl).
  destruct (wrapped_run unixNow created req ops h rw) as (Hh & _ & _).
  destruct (fold_left _ ops _) as [hx wr]. simpl in *. rewrite Hh.
  destruct (first_status ops); [apply report_status_eq | reflexivity].
Qed.

Lemma ServeHTTP_writer (h : UmamiFeeder) (rw : ResponseWriter) (req : Request)
    (ops : list HandlerOp) (unixNow : Z) (created : result Website_) :
  snd (ServeHTTP h rw req ops unixNow created)
  = if isEnabled h && shouldTrack h req
    then wr_inner (snd (fold_left (wrapped_op unixNow created) ops
                                  (h, mkResponseWrapper rw req false)))
    else fold_left direct_op ops rw.
Proof.
  unfold ServeHTTP. destruct (isEnabled h); simpl; [| reflexivity].
  destruct (shouldTrack_logged_spec h req) as (Hfst & Hyes & _).
  destruct (shouldTrack_logged h req) as [track h0]. simpl in *. subst track.
  destruct (shouldTrack h req); [| reflexivity]. rewrite (Hyes eq_refl).
  destruct (fold_left _ ops _) as [hx wr]. reflexivity.
Qed.

Lemma turned_down_same (h : UmamiFeeder) (req : Request) :
  isEnabled h && shouldTrack h req = false ->
  queue (turned_down h req) = queue h /\ websites (turned_down h req) = websites h.
Proof.
  unfold turned_down. intros Hoff. destruct (isEnabled h); [| auto]. simpl in Hoff.
  destruct (shouldTrack_logged_spec h req) as (_ & _ & Hno).
  destruct (Hno Hoff) as [format ->].
  split; [apply (proj1 (same_queue_debugf h _)) | apply websites_debugf].
Qed.

(** X12.  One request reports at most once, and by the status the handler
    sets first (200 when it writes before setting one): whatever the
    handler then does, the plugin instance after [ServeHTTP] is the one
    [submitToFeed] leaves for that status; it is the instance as it was
    when the handler never writes, and differs from it by a debug line at
    most when the plugin is disabled, the request is not to be tracked, or
    the status is an error and errors are not tracked.  So a request adds
    at most one event to the queue. *)
Theorem one_report_per_request (h : UmamiFeeder) (rw : ResponseWriter) (req : Request)
    (ops : list HandlerOp) (unixNow : Z) (created : result Website_) :
  let h' := fst (ServeHTTP h rw req ops unixNow created) in
  h' = (if isEnabled h && shouldTrack h req then
          match first_status ops with
          | None => h
          | Some statusCode =>
            if shouldTrackStatus h statusCode
            then submitToFeed h req statusCode unixNow created
            else debugf h "not reporting %d error"
          end
        else turned_down h req)
  /\ (isEnabled h && shouldTrack h req = false ->
      exists format, h' = h \/ h' = debugf h format)
  /\ length (Chan.buf (queue h) ++ Chan.handoff (queue h))
     <= length (Chan.buf (queue h') ++ Chan.handoff (queue h'))
     <= length (Chan.buf (queue h) ++ Chan.handoff (queue h)) + 1.
Proof.
  intros h'. pose proof (ServeHTTP_feeder h rw req ops unixNow created) as Heq.
  fold h' in Heq. split; [exact Heq |]. rewrite Heq. split.
  - intros Hoff. rewrite Hoff. unfold turned_down.
    destruct (isEnabled h); [| exists EmptyString; left; reflexivity]. simpl in Hoff.
    destruct (shouldTrack_logged_spec h req) as (_ & _ & Hno).
    destruct (Hno Hoff) as [format ->]. exists format. right. reflexivity.
  - destruct (isEnabled h && shouldTrack h req) eqn:Htracked.
    + destruct (first_status ops) as [statusCode |]; [| lia].
      destruct (shouldTrackStatus h statusCode); [apply queue_total_submit |].
      rewrite (proj1 (same_queue_debugf h _)). lia.
    + rewrite (proj1 (turned_down_same h req Htracked)). lia.
Qed.

(** X13.  The response passes through: with or without the wrapper the
    server's writer receives the body the handler writes, chunk by chunk in
    order.  Through the wrapper it receives one status, the first the
    handler sets (an explicit 200 when the handler writes first), and no
    later one. *)
Theorem response_passes_through (h : UmamiFeeder) (rw : ResponseWriter) (req : Request)
    (ops : list HandlerOp) (unixNow : Z) (created : result Website_) :
  let rw' := snd (ServeHTTP h rw req ops unixNow created) in
  written_bytes (rw_calls rw') = written_bytes (rw_calls rw) ++ body_of ops
  /\ (isEnabled h && shouldTrack h req = true ->
      status_calls (rw_calls rw')
      = status_calls (rw_calls rw)
        ++ match first_status ops with Some statusCode => [statusCode] | None => [] end)
  /\ (isEnabled h && shouldTrack h req = false -> rw' = fold_left direct_op ops rw).
Proof.
  simpl. rewrite ServeHTTP_writer. destruct (isEnabled h && shouldTrack h req).
  - destruct (wrapped_run unixNow created req ops h rw) as (_ & Hs & Hb).
    split; [exact Hb |]. split; [intros _; exact Hs | discriminate].
  - split; [apply direct_run_body |]. split; [discriminate | reflexivity].
Qed.

Lemma wrapper_independent (unixNow : Z) (created created' : result Website_)
    (ops : list HandlerOp) :
  forall h h' wr,
  snd (fold_left (wrapped_op unixNow created) ops (h, wr))
  = snd (fold_left (wrapped_op unixNow created') ops (h', wr)).
Proof.
  induction ops as [| op ops IH]; intros h h' wr; simpl; [reflexivity |].
  assert (Hstep : snd (wrapped_op unixNow created (h, wr) op)
                  = snd (wrapped_op unixNow created' (h', wr) op)).
  { destruct op as [c | b | |]; simpl; try reflexivity;
      unfold Wrapper_Write, Wrapper_WriteHeader; simpl;
      destruct (wr_written wr); simpl; try reflexivity;
      destruct (shouldTrackStatus_logged h _), (shouldTrackStatus_logged h' _); reflexivity. }
  destruct (wrapped_op unixNow created (h, wr) op) as [h1 wr1].
  destruct (wrapped_op unixNow created' (h', wr) op) as [h1' wr1'].
  simpl in Hstep. subst wr1'. apply IH.
Qed.

Lemma shouldTrack_known_host (h : UmamiFeeder) (req : Request) :
  shouldTrack h req = true -> createNewWebsites h = false ->
  exists websiteId, websites h !! parseDomainFromHost (Host req) = Some websiteId.
Proof.
  unfold shouldTrack. intros Ht Hc. rewrite Hc in Ht.
  destruct (shouldTrackRequest h req); [| discriminate].
  destruct (shouldTrackResource h (URL_Path req)); [| discriminate]. simpl in Ht.
  destruct (websites h !! parseDomainFromHost (Host req)) as [websiteId |];
    [eauto | discriminate].
Qed.

Lemma websites_capture (req : Request) (l : list (string * string)) :
  forall h d, websites (fst (fold_left (captureInto req) l (h, d))) = websites h.
Proof.
  induction l as [| kv l IH]; intros h d; [reflexivity |].
  simpl. unfold captureInto at 2. simpl.
  destruct (nonempty (Header_Get req (fst kv))); rewrite IH, ?websites_debugf; reflexivity.
Qed.

Lemma submitToFeed_known_host (h : UmamiFeeder) (req : Request) (statusCode unixNow : Z)
    (created created' : result Website_) (websiteId : string) :
  websites h !! parseDomainFromHost (Host req) = Some websiteId ->
  submitToFeed h req statusCode unixNow created
  = submitToFeed h req statusCode unixNow created'
  /\ websites (submitToFeed h req statusCode unixNow created) = websites h.
Proof.
  intros Hknown. unfold submitToFeed, getWebsiteId. rewrite Hknown.
  split; [reflexivity |].
  destruct (String.eqb websiteId ""); [apply websites_error |].
  match goal with
  | |- context [fold_left (captureInto req) ?l (h, ?d)] =>
    pose proof (websites_capture req l h d) as Hw;
    destruct (fold_left (captureInto req) l (h, d)) as [h2 data1]
  end.
  simpl in Hw.
  destruct (Chan.selectnbsend _ _); simpl; rewrite ?websites_error; exact Hw.
Qed.

(** X14.  With auto-creation off the request path never calls the
    collector: what [ServeHTTP] does is the same whatever a "create site"
    call would answer, and it leaves the site cache as it was. *)
Theorem request_path_without_autocreate (h : UmamiFeeder) (rw : ResponseWriter)
    (req : Request) (ops : list HandlerOp) (unixNow : Z) (created created' : result Website_) :
  createNewWebsites h = false ->
  ServeHTTP h rw req ops unixNow created = ServeHTTP h rw req ops unixNow created'
  /\ websites (fst (ServeHTTP h rw req ops unixNow created)) = websites h.
Proof.
  intros Hoff.
  pose proof (ServeHTTP_feeder h rw req ops unixNow created) as Hh.
  pose proof (ServeHTTP_feeder h rw req ops unixNow created') as Hh'.
  assert (Hw : snd (ServeHTTP h rw req ops unixNow created)
               = snd (ServeHTTP h rw req ops unixNow created')).
  { rewrite !ServeHTTP_writer. destruct (isEnabled h && shouldTrack h req); [| reflexivity].
    f_equal. apply wrapper_independent. }
  assert (Hboth : fst (ServeHTTP h rw req ops unixNow created)
                  = fst (ServeHTTP h rw req ops unixNow created')
                  /\ websites (fst (ServeHTTP h rw req ops unixNow created)) = websites h).
  { rewrite Hh, Hh'.
    destruct (isEnabled h && shouldTrack h req) eqn:Htracked;
      [| split; [reflexivity | apply (turned_down_same h req Htracked)]].
    apply andb_true_iff in Htracked as [_ Htrack].
    destruct (shouldTrack_known_host h req Htrack Hoff) as [websiteId Hknown].
    destruct (first_status ops) as [statusCode |]; [| auto].
    destruct (shouldTrackStatus h statusCode).
    - apply (submitToFeed_known_host h req statusCode unixNow created created' websiteId Hknown).
    - split; [reflexivity | apply websites_debugf]. }
  destruct Hboth as [Hfst Hsite]. split; [| exact Hsite].
  destruct (ServeHTTP h rw req ops unixNow created) as [a b],
           (ServeHTTP h rw req ops unixNow created') as [a' b'].
  simpl in *. congruence.
Qed.

End RequestPath.

Lemma request_path_without_autocreate_witness :
  let req := ExampleStd.request "example.org" "/about" in
  let rw := mkResponseWriter [] true false in
  let ops := [OpWrite "hello"; OpWriteHeader 500] in
  ServeHTTP feeder_site rw req ops 1700000000 (Err "connection refused")
  = ServeHTTP feeder_site rw req ops 1700000000
              (Ok (mkWebsite "site-9" "example" "" "example.org"))
  /\ websites (fst (ServeHTTP feeder_site rw req ops 1700000000 (Err "connection refused")))
     = websites feeder_site.
Proof.
  apply (request_path_without_autocreate feeder_site). reflexivity.
Defined.

(** ** Site resolver under concurrency: the read path, exclusion, repeated calls *)

Section ResolverMoreProofs.
Import Resolver ResolverSpec ResolverMore.
Variable remote : nat -> string -> result Website_.
Variable hostname : string.

Lemma read_path_step (websites0 : gmap string string) (websiteId : string)
    (st st' : State) (tid : nat) :
  websites0 !! hostname = Some websiteId ->
  cache st = websites0 /\ creates st = [] /\ writer st = false
  /\ Forall (fun pc => on_read_path websiteId pc = true) (pcs st) ->
  step remote hostname st tid = Some st' ->
  cache st' = websites0 /\ creates st' = [] /\ writer st' = false
  /\ Forall (fun pc => on_read_path websiteId pc = true) (pcs st').
Proof.
  intros Hknown (Hcache & Hcreates & Hwriter & Hall). unfold step.
  destruct (pcs st !! tid) as [pc |] eqn:Htid; [| discriminate].
  assert (Hpc : on_read_path websiteId pc = true).
  { rewrite Forall_forall in Hall. apply Hall. eapply list_elem_of_lookup_2. exact Htid. }
  assert (Hins : forall pc', on_read_path websiteId pc' = true ->
            Forall (fun pc => on_read_path websiteId pc = true) (set_pc st tid pc')).
  { intros pc' Hpc'. unfold set_pc. apply Forall_insert; assumption. }
  destruct pc as [| | r | | | | ret | ret]; simpl in Hpc; try discriminate.
  - rewrite Hwriter. intros [= <-]. simpl. auto.
  - intros [= <-]. simpl. repeat split; auto. apply Hins.
    rewrite Hcache, Hknown. simpl. apply String.eqb_refl.
  - destruct r as [x |]; [| discriminate]. intros [= <-]. simpl. repeat split; auto.
Qed.

(** X15.  The read path: when the hostname is in the cache, then in every
    interleaving and whatever the collector would answer, no "create site"
    call is made, the write lock is never taken, the cache is not written,
    and every goroutine that has returned has returned the cached
    identifier. *)
Theorem cached_host_resolves_locally (websites0 : gmap string string) (websiteId : string)
    (n : nat) (schedule : list nat) :
  websites0 !! hostname = Some websiteId ->
  let st := run remote hostname (init websites0 n) schedule in
  creates st = [] /\ writer st = false /\ cache st = websites0
  /\ (forall i ret, pcs st !! i = Some (Done ret) -> ret = websiteId).
Proof.
  intros Hknown st.
  assert (Hinv : cache st = websites0 /\ creates st = [] /\ writer st = false
                 /\ Forall (fun pc => on_read_path websiteId pc = true) (pcs st)).
  { subst st.
    assert (Hgen : forall schedule s,
               cache s = websites0 /\ creates s = [] /\ writer s = false
               /\ Forall (fun pc => on_read_path websiteId pc = true) (pcs s) ->
               cache (run remote hostname s schedule) = websites0
               /\ creates (run remote hostname s schedule) = []
               /\ writer (run remote hostname s schedule) = false
               /\ Forall (fun pc => on_read_path websiteId pc = true)
                         (pcs (run remote hostname s schedule))).
    { clear schedule. induction schedule as [| tid rest IH]; intros s Hs; simpl; [exact Hs |].
      destruct (step remote hostname s tid) as [s' |] eqn:Hstep; [| apply IH; exact Hs].
      apply IH. eapply read_path_step; eauto. }
    apply Hgen. simpl. repeat split; auto.
    apply Forall_forall. intros pc Hin. apply elem_of_replicate in Hin as [-> _]. reflexivity. }
  destruct Hinv as (Hc & Hcr & Hw & Hall).
  repeat split; auto.
  intros i ret Hl. rewrite Forall_forall in Hall.
  specialize (Hall (Done ret) (list_elem_of_lookup_2 _ _ _ Hl)). simpl in Hall.
  apply String.eqb_eq in Hall. exact Hall.
Qed.

Lemma Exclusion_init (websites0 : gmap string string) (n : nat) :
  Exclusion (init websites0 n).
Proof.
  assert (Hall : forall i pc, pcs (init websites0 n) !! i = Some pc -> pc = AtRLock).
  { simpl. intros i pc Hl. apply lookup_replicate in Hl as [-> _]. reflexivity. }
  constructor; simpl.
  - clear Hall. induction n as [| n IH]; [reflexivity | simpl; exact IH].
  - discriminate.
  - intros i pc Hl. rewrite (Hall i pc Hl). discriminate.
  - intros i j pci pcj Hi _. rewrite (Hall i pci Hi). discriminate.
Qed.

Lemma Exclusion_step (st st' : State) (tid : nat) :
  Exclusion st -> step remote hostname st tid = Some st' -> Exclusion st'.
Proof.
  intros [Hr Ha Hw Hs]. unfold step.
  destruct (pcs st !! tid) as [pc |] eqn:Htid; [| discriminate].
  assert (Hcount : forall y,
            length (List.filter holdsRead (<[tid := y]> (pcs st)))
            + (if holdsRead pc then 1 else 0)
            = length (List.filter holdsRead (pcs st)) + (if holdsRead y then 1 else 0))
    by (intros y; apply filter_insert_count; exact Htid).
  assert (Hother : forall y i pci, <[tid := y]> (pcs st) !! i = Some pci ->
            (i = tid /\ pci = y) \/ (i <> tid /\ pcs st !! i = Some pci)).
  { intros y i pci Hl. apply list_lookup_insert_Some in Hl.
    destruct Hl as [(-> & -> & _) | (Hne & Hl)]; [left | right]; auto. }
  assert (Hkeep : forall y, holdsWrite y = holdsWrite pc ->
            (forall i pci, <[tid := y]> (pcs st) !! i = Some pci -> holdsWrite pci = true ->
                           writer st = true)
            /\ (forall i j pci pcj, <[tid := y]> (pcs st) !! i = Some pci ->
                  <[tid := y]> (pcs st) !! j = Some pcj ->
                  holdsWrite pci = true -> holdsWrite pcj = true -> i = j)).
  { intros y Hy. split.
    - intros i pci Hl Hhw. destruct (Hother _ _ _ Hl) as [[-> ->] | [Hne Hl']].
      + apply (Hw tid pc Htid). congruence.
      + eauto.
    - intros i j pci pcj Hi Hj Hwi Hwj.
      destruct (Hother _ _ _ Hi) as [[-> ->] | [Hni Hi']];
        destruct (Hother _ _ _ Hj) as [[-> ->] | [Hnj Hj']]; try reflexivity.
      + symmetry. apply (Hs j tid pcj pc); auto. congruence.
      + apply (Hs i tid pci pc); auto. congruence.
      + eauto. }
  destruct pc as [| | r | | | | ret | ret].
  - destruct (writer st) eqn:Hwr; [discriminate |]. intros [= <-].
    destruct (Hkeep AtLookup eq_refl) as [Hw' Hs'].
    constructor; simpl; unfold set_pc; auto; [| discriminate].
    specialize (Hcount AtLookup). simpl in Hcount. lia.
  - intros [= <-]. destruct (Hkeep (AtRUnlock (cache st !! hostname)) eq_refl) as [Hw' Hs'].
    constructor; simpl; unfold set_pc; auto.
    specialize (Hcount (AtRUnlock (cache st !! hostname))). simpl in Hcount. lia.
  - intros [= <-].
    assert (Hwr : writer st = false).
    { destruct (writer st) eqn:Hwr; [| reflexivity].
      specialize (Ha eq_refl). specialize (Hcount AtLock). simpl in Hcount. lia. }
    match goal with
    | |- Exclusion (mkState _ _ _ _ _ (set_pc st tid ?y)) =>
      destruct (Hkeep y) as [Hw' Hs']; [destruct r; reflexivity |];
        specialize (Hcount y)
    end.
    constructor; simpl; unfold set_pc; auto; [| congruence].
    destruct r; simpl in Hcount; lia.
  - destruct (writer st) eqn:Hwr; [discriminate |].
    destruct (Nat.ltb_spec 0 (readers st)) as [| Hzero]; [discriminate |].
    simpl. intros [= <-].
    assert (Hnone : forall i pci, pcs st !! i = Some pci -> holdsWrite pci = false).
    { intros i pci Hl. destruct (holdsWrite pci) eqn:Hhw; [| reflexivity].
      pose proof (Hw i pci Hl Hhw) as Habs. congruence. }
    constructor; simpl; unfold set_pc.
    + specialize (Hcount AtRecheck). simpl in Hcount. lia.
    + intros _. lia.
    + reflexivity.
    + intros i j pci pcj Hi Hj Hwi Hwj.
      destruct (Hother _ _ _ Hi) as [[-> ->] | [Hni Hi']];
        destruct (Hother _ _ _ Hj) as [[-> ->] | [Hnj Hj']]; try reflexivity.
      * rewrite (Hnone _ _ Hj') in Hwj. discriminate Hwj.
      * rewrite (Hnone _ _ Hi') in Hwi. discriminate Hwi.
      * rewrite (Hnone _ _ Hi') in Hwi. discriminate Hwi.
  - intros [= <-].
    match goal with
    | |- Exclusion (mkState _ _ _ _ _ (set_pc st tid ?y)) =>
      destruct (Hkeep y) as [Hw' Hs']; [destruct (cache st !! hostname); reflexivity |];
        specialize (Hcount y)
    end.
    constructor; simpl; unfold set_pc; auto.
    destruct (cache st !! hostname); simpl in Hcount; lia.
  - destruct (remote (length (creates st)) hostname) as [website | e]; intros [= <-].
    + destruct (Hkeep (AtUnlock (ID website)) eq_refl) as [Hw' Hs'].
      constructor; simpl; unfold set_pc; auto.
      specialize (Hcount (AtUnlock (ID website))). simpl in Hcount. lia.
    + destruct (Hkeep (AtUnlock EmptyString) eq_refl) as [Hw' Hs'].
      constructor; simpl; unfold set_pc; auto.
      specialize (Hcount (AtUnlock EmptyString)). simpl in Hcount. lia.
  - intros [= <-]. constructor; simpl; unfold set_pc.
    + specialize (Hcount (Done ret)). simpl in Hcount. lia.
    + discriminate.
    + intros i pci Hl Hhw. exfalso.
      destruct (Hother _ _ _ Hl) as [[-> ->] | [Hne Hl']]; [discriminate Hhw |].
      apply Hne. apply (Hs i tid pci (AtUnlock ret)); auto.
    + intros i j pci pcj Hi Hj Hwi Hwj.
      destruct (Hother _ _ _ Hi) as [[-> ->] | [Hni Hi']]; [discriminate Hwi |].
      destruct (Hother _ _ _ Hj) as [[-> ->] | [Hnj Hj']]; [discriminate Hwj |]. eauto.
  - discriminate.
Qed.

Lemma filter_none (P : PC -> bool) (l : list PC) :
  length (List.filter P l) = 0 -> forall i pc, l !! i = Some pc -> P pc = false.
Proof.
  induction l as [| a l IH]; intros Hz i pc Hl; [discriminate |].
  simpl in Hz. destruct (P a) eqn:Ha; [discriminate |].
  destruct i as [| i]; simpl in Hl; [inversion Hl; subst; exact Ha | eauto].
Qed.

(** X16.  Reader/writer exclusion on the site cache, in every interleaving
    and whatever the collector answers: at most one goroutine is between
    [Lock] and [Unlock], and while one is, no goroutine is between [RLock]
    and [RUnlock]. *)
Theorem cache_lock_excludes (websites0 : gmap string string) (n : nat)
    (schedule : list nat) (i j : nat) (pci pcj : PC) :
  let st := run remote hostname (init websites0 n) schedule in
  pcs st !! i = Some pci -> pcs st !! j = Some pcj ->
  holdsWrite pci = true ->
  (holdsWrite pcj = true -> i = j) /\ holdsRead pcj = false.
Proof.
  intros st Hi Hj Hwi.
  assert (Hex : Exclusion st).
  { subst st. generalize (Exclusion_init websites0 n). generalize (init websites0 n).
    clear. induction schedule as [| tid rest IH]; intros s Hs; simpl; [exact Hs |].
    destruct (step remote hostname s tid) as [s' |] eqn:Hstep; [| apply IH; exact Hs].
    apply IH. eapply Exclusion_step; eauto. }
  destruct Hex as [Hr Ha Hw Hs]. split.
  - intros Hwj. eapply Hs; eauto.
  - pose proof (Hw i pci Hi Hwi) as Hwr. specialize (Ha Hwr).
    rewrite Hr in Ha. eapply filter_none; eauto.
Qed.

Lemma Unresolved_step (st st' : State) (tid : nat) :
  never_resolves remote hostname ->
  Unresolved hostname st -> step remote hostname st tid = Some st' ->
  Unresolved hostname st'.
Proof.
  intros Hnever (Hmiss & Hlen & Hall). unfold step, Unresolved.
  destruct (pcs st !! tid) as [pc |] eqn:Htid; [| discriminate].
  assert (Hcount : forall y,
            length (List.filter has_called (<[tid := y]> (pcs st)))
            + (if has_called pc then 1 else 0)
            = length (List.filter has_called (pcs st)) + (if has_called y then 1 else 0))
    by (intros y; apply filter_insert_count; exact Htid).
  assert (Hins : forall y, match y with AtRUnlock (Some _) => False | _ => True end ->
            Forall (fun pc => match pc with AtRUnlock (Some _) => False | _ => True end)
                   (<[tid := y]> (pcs st)))
    by (intros y Hy; apply Forall_insert; assumption).
  assert (Hpc : match pc with AtRUnlock (Some _) => False | _ => True end).
  { rewrite Forall_forall in Hall. apply Hall. eapply list_elem_of_lookup_2. exact Htid. }
  destruct pc as [| | r | | | | ret | ret].
  - destruct (writer st); [discriminate |]. intros [= <-]. simpl. unfold set_pc.
    specialize (Hcount AtLookup). simpl in Hcount. repeat split; auto; lia.
  - intros [= <-]. simpl. unfold set_pc. rewrite Hmiss.
    specialize (Hcount (AtRUnlock None)). simpl in Hcount. repeat split; auto; lia.
  - destruct r; [contradiction |]. intros [= <-]. simpl. unfold set_pc.
    specialize (Hcount AtLock). simpl in Hcount. repeat split; auto; lia.
  - destruct (writer st || (0 <? readers st)); [discriminate |]. intros [= <-].
    simpl. unfold set_pc.
    specialize (Hcount AtRecheck). simpl in Hcount. repeat split; auto; lia.
  - intros [= <-]. simpl. unfold set_pc. rewrite Hmiss.
    specialize (Hcount AtCreate). simpl in Hcount. repeat split; auto; lia.
  - specialize (Hnever (length (creates st))).
    destruct (remote (length (creates st)) hostname) as [website | e]; intros [= <-];
      simpl; unfold set_pc.
    + specialize (Hcount (AtUnlock (ID website))). simpl in Hcount.
      rewrite lookup_insert_ne by exact Hnever. rewrite length_app. simpl.
      repeat split; auto; lia.
    + specialize (Hcount (AtUnlock EmptyString)). simpl in Hcount.
      rewrite length_app. simpl. repeat split; auto; lia.
  - intros [= <-]. simpl. unfold set_pc.
    specialize (Hcount (Done ret)). simpl in Hcount. repeat split; auto; lia.
  - discriminate.
Qed.

Lemma all_returned_called (l : list PC) :
  forallb (fun pc => match pc with Done _ => true | _ => false end) l = true ->
  length (List.filter has_called l) = length l.
Proof.
  induction l as [| a l IH]; [reflexivity |].
  simpl. intros Hall. apply andb_true_iff in Hall as [Ha Hrest].
  destruct a; try discriminate. simpl. rewrite (IH Hrest). reflexivity.
Qed.

(** X17.  When the hostname is not in the cache and the collector never
    makes it known (each "create site" call fails, or answers with another
    domain, under which the result is cached), every goroutine makes its own
    call: the calls made are as many as the goroutines past their call, and
    once all [n] have returned there have been [n] calls. *)
Theorem unresolved_host_is_created_by_each (websites0 : gmap string string) (n : nat)
    (schedule : list nat) :
  websites0 !! hostname = None ->
  never_resolves remote hostname ->
  let st := run remote hostname (init websites0 n) schedule in
  cache st !! hostname = None
  /\ length (creates st) = length (List.filter has_called (pcs st))
  /\ (all_returned st = true -> length (creates st) = n).
Proof.
  intros Hmiss Hnever st.
  assert (Hun : Unresolved hostname st).
  { subst st.
    assert (Hinit : Unresolved hostname (init websites0 n)).
    { unfold Unresolved. simpl. split; [exact Hmiss |]. split.
      - clear. induction n as [| n IH]; [reflexivity | simpl; exact IH].
      - apply Forall_forall. intros pc Hin.
        apply elem_of_replicate in Hin as [-> _]. exact I. }
    revert Hinit. generalize (init websites0 n).
    induction schedule as [| tid rest IH]; intros s Hs; simpl; [exact Hs |].
    destruct (step remote hostname s tid) as [s' |] eqn:Hstep; [| apply IH; exact Hs].
    apply IH. eapply Unresolved_step; eauto. }
  destruct Hun as (Hc & Hlen & _). split; [exact Hc |]. split; [exact Hlen |].
  intros Hall. rewrite Hlen. unfold all_returned in Hall.
  rewrite (all_returned_called _ Hall). unfold st. rewrite run_length. simpl.
  apply length_replicate.
Qed.

End ResolverMoreProofs.

Lemma cached_host_resolves_locally_witness :
  let st := Resolver.run ResolverSpec.remote_flaky "example.org"
              (Resolver.init {[ "example.org" := "site-1" ]} 2) [0; 1; 1; 0; 0; 1] in
  Resolver.creates st = [] /\ Resolver.writer st = false
  /\ Resolver.cache st = {[ "example.org" := "site-1" ]}
  /\ (forall i ret, Resolver.pcs st !! i = Some (Resolver.Done ret) -> ret = "site-1").
Proof.
  apply (cached_host_resolves_locally ResolverSpec.remote_flaky "example.org"
           {[ "example.org" := "site-1" ]} "site-1" 2 [0; 1; 1; 0; 0; 1]).
  reflexivity.
Defined.

Lemma cache_lock_excludes_witness :
  let st := Resolver.run ResolverSpec.remote_ok "new.example.org"
              (Resolver.init ∅ 2) [0; 1; 0; 1; 0; 1; 0] in
  Resolver.pcs st = [Resolver.AtRecheck; Resolver.AtLock]
  /\ Resolver.holdsRead Resolver.AtLock = false.
Proof.
  intros st. split; [vm_compute; reflexivity |].
  apply (cache_lock_excludes ResolverSpec.remote_ok "new.example.org" ∅ 2
           [0; 1; 0; 1; 0; 1; 0] 0 1 Resolver.AtRecheck Resolver.AtLock).
  - vm_compute. reflexivity.
  - vm_compute. reflexivity.
  - reflexivity.
Defined.

Lemma unresolved_host_is_created_by_each_witness :
  let st := Resolver.run (fun _ _ => Err "connection refused") "new.example.org"
              (Resolver.init ∅ 2) [0; 1; 0; 1; 0; 1; 0; 0; 0; 0; 1; 1; 1; 1] in
  Resolver.cache st !! "new.example.org" = None
  /\ length (Resolver.creates st) = 2.
Proof.
  intros st.
  destruct (unresolved_host_is_created_by_each (fun _ _ => Err "connection refused")
              "new.example.org" ∅ 2 [0; 1; 0; 1; 0; 1; 0; 0; 0; 0; 1; 1; 1; 1])
    as (Hcache & _ & Hall).
  - reflexivity.
  - intros k. exact I.
  - split; [exact Hcache |]. apply Hall. vm_compute. reflexivity.
Defined.

(** ** Host names: case folding and the cache key *)

Section HostNames.
Import GoStrings.
Context `{GoStd}.

Lemma byte_val_range (c : ascii) : (0 <= byte_val c < 256)%Z.
Proof.
  unfold byte_val. pose proof (N_ascii_bounded c) as Hb. lia.
Qed.

Lemma byte_val_inj (a b : ascii) : byte_val a = byte_val b -> a = b.
Proof.
  unfold byte_val. intros Heq. apply N2Z.inj in Heq.
  rewrite <- (ascii_N_embedding a), <- (ascii_N_embedding b), Heq. reflexivity.
Qed.

Lemma byte_val_lowerByte (c : ascii) :
  byte_val (lowerByte c)
  = if is_upper (byte_val c) then (byte_val c + 32)%Z else byte_val c.
Proof.
  unfold lowerByte. destruct (is_upper (byte_val c)) eqn:Hu; [| reflexivity].
  unfold is_upper in Hu. apply andb_true_iff in Hu as [Hlo Hhi].
  apply Z.leb_le in Hlo, Hhi. unfold byte_val in *.
  rewrite N_ascii_embedding by lia. lia.
Qed.

Lemma lor_ascii (a b : Z) :
  (0 <= a < 128)%Z -> (0 <= b < 128)%Z -> (Z.lor a b < 128)%Z.
Proof.
  intros Ha Hb.
  assert (Hnn : (0 <= Z.lor a b)%Z) by (apply Z.lor_nonneg; lia).
  destruct (Z.eq_dec (Z.lor a b) 0%Z) as [Hz0 | Hnz]; [lia |].
  change 128%Z with (2 ^ 7)%Z. apply Z.log2_lt_pow2; [lia |].
  rewrite Z.log2_lor by lia.
  assert (Hla : (Z.log2 a < 7)%Z).
  { destruct (Z.eq_dec a 0%Z) as [-> | Hz]; [reflexivity |].
    apply Z.log2_lt_pow2; [lia |]. change (2 ^ 7)%Z with 128%Z. lia. }
  assert (Hlb : (Z.log2 b < 7)%Z).
  { destruct (Z.eq_dec b 0%Z) as [-> | Hz]; [reflexivity |].
    apply Z.log2_lt_pow2; [lia |]. change (2 ^ 7)%Z with 128%Z. lia. }
  lia.
Qed.

(** One step of the ASCII path of [strings.EqualFold] accepts two bytes
    exactly when they are the same letter up to case. *)
Lemma fold_step_ascii (a b : ascii) :
  (byte_val a < 128)%Z -> (byte_val b < 128)%Z ->
  ((byte_val b =? byte_val a)%Z || foldMatch (byte_val a) (byte_val b))
  = Ascii.eqb (lowerByte a) (lowerByte b).
Proof.
  intros Ha Hb.
  pose proof (byte_val_lowerByte a) as Hla. pose proof (byte_val_lowerByte b) as Hlb.
  destruct (Ascii.eqb_spec (lowerByte a) (lowerByte b)) as [Heq | Hne].
  - assert (Hv : byte_val (lowerByte a) = byte_val (lowerByte b)) by congruence.
    rewrite Hla, Hlb in Hv. unfold foldMatch, RuneSelf, is_upper in *.
    destruct (Z.eqb_spec (byte_val b) (byte_val a)); [reflexivity |]. simpl.
    repeat match goal with
           | |- context [(?x <? ?y)%Z] => destruct (Z.ltb_spec x y)
           | |- context [(?x <=? ?y)%Z] => destruct (Z.leb_spec x y)
           | |- context [(?x =? ?y)%Z] => destruct (Z.eqb_spec x y)
           | H : context [(?x <=? ?y)%Z] |- _ => destruct (Z.leb_spec x y)
           end; simpl in *; try reflexivity; try lia.
  - assert (Hv : byte_val (lowerByte a) <> byte_val (lowerByte b))
      by (intros Hv; apply Hne, byte_val_inj, Hv).
    rewrite Hla, Hlb in Hv. unfold foldMatch, RuneSelf, is_upper in *.
    destruct (Z.eqb_spec (byte_val b) (byte_val a)) as [Hsame | Hdiff].
    + exfalso. apply Hv. rewrite Hsame. reflexivity.
    + simpl.
      repeat match goal with
             | |- context [(?x <? ?y)%Z] => destruct (Z.ltb_spec x y)
             | |- context [(?x <=? ?y)%Z] => destruct (Z.leb_spec x y)
             | |- context [(?x =? ?y)%Z] => destruct (Z.eqb_spec x y)
             | H : context [(?x <=? ?y)%Z] |- _ => destruct (Z.leb_spec x y)
             end; simpl in *; try reflexivity; try lia.
Qed.

Lemma EqualFold_ascii (s : string) :
  forall t, isASCII s = true -> isASCII t = true ->
  EqualFold s t = String.eqb (lower_ascii s) (lower_ascii t).
Proof.
  unfold isASCII, lower_ascii.
  induction s as [| a s IH]; intros [| b t] Hs Ht; try reflexivity.
  simpl in Hs, Ht. apply andb_true_iff in Hs as [Ha Hs], Ht as [Hb Ht].
  apply Z.ltb_lt in Ha, Hb. unfold RuneSelf in Ha, Hb.
  cbn [EqualFold string_map]. simpl String.eqb.
  pose proof (byte_val_range a) as Ra. pose proof (byte_val_range b) as Rb.
  pose proof (lor_ascii (byte_val a) (byte_val b) ltac:(lia) ltac:(lia)) as Hlor.
  destruct (Z.leb_spec RuneSelf (Z.lor (byte_val a) (byte_val b))) as [Habs | _];
    [unfold RuneSelf in Habs; lia |].
  rewrite <- (fold_step_ascii a b Ha Hb), <- (IH t Hs Ht).
  destruct (byte_val b =? byte_val a)%Z; simpl; [reflexivity |].
  destruct (foldMatch (byte_val a) (byte_val b)); reflexivity.
Qed.

Lemma lower_ascii_no_upper (s : string) : no_upper s = true -> lower_ascii s = s.
Proof.
  unfold no_upper, lower_ascii. induction s as [| c s IH]; [reflexivity |].
  simpl. intros Hn. apply andb_true_iff in Hn as [Hc Hs].
  rewrite (IH Hs). unfold lowerByte. apply negb_true_iff in Hc. rewrite Hc. reflexivity.
Qed.

Lemma ToLower_ascii (s : string) : isASCII s = true -> ToLower s = lower_ascii s.
Proof.
  intros Hs. unfold ToLower. fold (isASCII s). rewrite Hs. fold (no_upper s).
  destruct (no_upper s) eqn:Hn; simpl; [| reflexivity].
  symmetry. apply lower_ascii_no_upper. exact Hn.
Qed.

(** X18.  For ASCII host names the host rule is an exact match up to letter
    case: the request is ignored by host exactly when its [Host] value and
    some configured entry have the same lower-case form. *)
Theorem host_rule_is_caseless_match (h : UmamiFeeder) (req : Request) :
  isASCII (Host req) = true ->
  Forall (fun entry => isASCII entry = true) (ignoreHosts h) ->
  hostIgnored h req
  = existsb (fun entry => String.eqb (ToLower (Host req)) (ToLower entry)) (ignoreHosts h).
Proof.
  intros Hhost Hall. unfold hostIgnored.
  assert (Hlen : forall (f : string -> bool) l, (0 <? length l) && existsb f l = existsb f l)
    by (intros f [| x l]; reflexivity).
  rewrite Hlen. induction Hall as [| entry rest Hentry Hrest IH]; [reflexivity |].
  simpl. rewrite IH, (EqualFold_ascii _ _ Hhost Hentry),
    (ToLower_ascii _ Hhost), (ToLower_ascii _ Hentry). reflexivity.
Qed.

Lemma forallb_substring (p : ascii -> bool) (s : string) :
  forall m, string_forallb p s = true -> string_forallb p (String.substring 0 m s) = true.
Proof.
  induction s as [| c s IH]; intros [| m] Hs; simpl in *; try reflexivity.
  apply andb_true_iff in Hs as [Hc Hs]. rewrite Hc, (IH m Hs). reflexivity.
Qed.

Lemma forallb_TrimSuffix (p : ascii -> bool) (s suffix : string) :
  string_forallb p s = true -> string_forallb p (TrimSuffix s suffix) = true.
Proof.
  intros Hs. unfold TrimSuffix. destruct (HasSuffix s suffix); [| exact Hs].
  apply forallb_substring. exact Hs.
Qed.

Lemma forallb_SplitByte_head (p : ascii -> bool) (sep : ascii) (s : string) :
  string_forallb p s = true ->
  match SplitByte s sep with
  | x :: _ => string_forallb p x = true
  | [] => True
  end.
Proof.
  induction s as [| c s IH]; intros Hs; simpl in *; [reflexivity |].
  apply andb_true_iff in Hs as [Hc Hs]. specialize (IH Hs).
  destruct (Ascii.eqb c sep); [reflexivity |].
  destruct (SplitByte s sep) as [| x xs]; simpl; rewrite Hc; [reflexivity | exact IH].
Qed.

Lemma SplitByte_head_no_colon (s : string) :
  match SplitByte s ":" with
  | x :: _ => no_colon x = true
  | [] => True
  end.
Proof.
  unfold no_colon. induction s as [| c s IH]; simpl; [reflexivity |].
  destruct (Ascii.eqb c ":") eqn:Hc; [reflexivity |].
  destruct (SplitByte s ":") as [| x xs]; simpl; rewrite Hc; [reflexivity | exact IH].
Qed.

Lemma no_colon_of_Contains (s : string) : Contains s ":" = false -> no_colon s = true.
Proof.
  unfold no_colon. induction s as [| c s IH]; [reflexivity |].
  cbn [Contains HasPrefix string_forallb]. intros Hc.
  apply orb_false_iff in Hc as [Hhead Hrest]. rewrite andb_true_r in Hhead.
  rewrite Hhead, (IH Hrest). reflexivity.
Qed.

Lemma lower_ascii_normal (s : string) :
  isASCII s = true ->
  isASCII (lower_ascii s) = true /\ no_upper (lower_ascii s) = true
  /\ no_colon (lower_ascii s) = no_colon s.
Proof.
  unfold isASCII, no_upper, no_colon, lower_ascii.
  induction s as [| c s IH]; intros Hs; simpl in *; [auto |].
  apply andb_true_iff in Hs as [Hc Hs]. destruct (IH Hs) as (Ia & Iu & Ic).
  rewrite Ia, Iu, Ic. apply Z.ltb_lt in Hc. unfold RuneSelf in *.
  pose proof (byte_val_lowerByte c) as Hl. pose proof (byte_val_range c) as Hr.
  assert (Hcolon : Ascii.eqb (lowerByte c) ":" = Ascii.eqb c ":").
  { destruct (Ascii.eqb_spec c ":") as [-> | Hne]; [reflexivity |].
    destruct (Ascii.eqb_spec (lowerByte c) ":") as [Heq | _]; [| reflexivity].
    exfalso. apply Hne. apply byte_val_inj.
    assert (Hv : byte_val (lowerByte c) = 58%Z) by (rewrite Heq; reflexivity).
    rewrite Hl in Hv. unfold is_upper in Hv.
    destruct (Z.leb_spec 65 (byte_val c)), (Z.leb_spec (byte_val c) 90);
      simpl in Hv; change (byte_val ":") with 58%Z; lia. }
  rewrite Hcolon. unfold is_upper in *. rewrite Hl.
  destruct (Z.leb_spec 65 (byte_val c)), (Z.leb_spec (byte_val c) 90); simpl;
    repeat match goal with
           | |- context [(?x <? ?y)%Z] => destruct (Z.ltb_spec x y)
           | |- context [(?x <=? ?y)%Z] => destruct (Z.leb_spec x y)
           end; simpl; auto; lia.
Qed.

(** X19.  The cache key of an ASCII host is normalised: what
    [parseDomainFromHost] returns has no colon (so no port), no upper-case
    letter, and only ASCII bytes. *)
Theorem cache_key_is_normalised (host : string) :
  isASCII host = true ->
  isASCII (parseDomainFromHost host) = true
  /\ no_colon (parseDomainFromHost host) = true
  /\ no_upper (parseDomainFromHost host) = true.
Proof.
  intros Hhost. unfold parseDomainFromHost.
  set (host1 := if Contains host ":"
                then match SplitByte host ":" with x :: _ => x | [] => EmptyString end
                else host).
  assert (H1 : isASCII host1 = true /\ no_colon host1 = true).
  { subst host1. destruct (Contains host ":") eqn:Hc.
    - pose proof (forallb_SplitByte_head _ ":" host Hhost) as Ha.
      pose proof (SplitByte_head_no_colon host) as Hn.
      destruct (SplitByte host ":") as [| x xs]; [split; reflexivity | auto].
    - split; [exact Hhost | apply no_colon_of_Contains; exact Hc]. }
  destruct H1 as [Ha Hn].
  assert (H2 : isASCII (TrimSuffix host1 ".") = true /\ no_colon (TrimSuffix host1 ".") = true)
    by (split; apply forallb_TrimSuffix; assumption).
  destruct H2 as [Ha2 Hn2].
  rewrite (ToLower_ascii _ Ha2).
  destruct (lower_ascii_normal _ Ha2) as (Ia & Iu & Ic).
  rewrite Ic. auto.
Qed.

End HostNames.

Lemma host_rule_is_caseless_match_witness :
  hostIgnored feeder_test_hosts (ExampleStd.request "LocalHost" "/about") = true.
Proof.
  rewrite (host_rule_is_caseless_match feeder_test_hosts
             (ExampleStd.request "LocalHost" "/about")).
  - vm_compute. reflexivity.
  - vm_compute. reflexivity.
  - repeat constructor.
Defined.

Lemma cache_key_is_normalised_witness :
  parseDomainFromHost "Shop.Example.ORG.:8443" = "shop.example.org"
  /\ no_colon (parseDomainFromHost "Shop.Example.ORG.:8443") = true
  /\ no_upper (parseDomainFromHost "Shop.Example.ORG.:8443") = true.
Proof.
  split; [vm_compute; reflexivity |].
  apply (cache_key_is_normalised "Shop.Example.ORG.:8443"). vm_compute. reflexivity.
Defined.

(** ** Producer: the event [submitToFeed] builds *)

Section EventData.
Context `{GoStd}.

Lemma captureHeaders_debugf (h : UmamiFeeder) (f : string) :
  captureHeaders (debugf h f) = captureHeaders h.
Proof. unfold debugf. destruct (logHandler h), (isDebug h); reflexivity. Qed.

Lemma captureHeaders_error (h : UmamiFeeder) (m : string) :
  captureHeaders (error h m) = captureHeaders h.
Proof. unfold error. destruct (logHandler h); reflexivity. Qed.

Lemma captureHeaders_getWebsiteId (h : UmamiFeeder) (hostname : string)
    (created : result Website_) :
  captureHeaders (snd (fst (getWebsiteId h hostname created))) = captureHeaders h.
Proof.
  unfold getWebsiteId. destruct (websites h !! hostname); [reflexivity |].
  destruct created; simpl; rewrite ?captureHeaders_debugf, ?captureHeaders_error; reflexivity.
Qed.

Lemma capture_none (req : Request) (l : list (string * string)) :
  forall h, snd (fold_left (captureInto req) l (h, None)) = None.
Proof.
  induction l as [| kv l IH]; intros h; [reflexivity |].
  simpl. unfold captureInto at 2. simpl.
  destruct (nonempty (Header_Get req (fst kv))); apply IH.
Qed.

Lemma capture_some (req : Request) (l : list (string * string)) :
  forall h (m0 : gmap string DataValue),
  exists m, snd (fold_left (captureInto req) l (h, Some m0)) = Some m
    /\ forall key v, m !! key = Some v ->
       m0 !! key = Some v
       \/ exists headerName, In (headerName, key) l
            /\ Header_Get req headerName <> EmptyString
            /\ v = DString (Header_Get req headerName).
Proof.
  induction l as [| kv l IH]; intros h m0; simpl.
  - exists m0. auto.
  - unfold captureInto at 2. simpl. unfold nonempty.
    destruct (String.eqb_spec (Header_Get req (fst kv)) "") as [He | Hne]; simpl.
    + destruct (IH h m0) as (m & Hm & Hkeys). exists m. split; [exact Hm |].
      intros key v Hv. destruct (Hkeys key v Hv) as [H0 | (hn & Hin & Hx)]; [auto |].
      right. exists hn. split; [right; exact Hin | exact Hx].
    + destruct (IH (debugf h "captured header %s=%s as %s")
                   (<[snd kv := DString (Header_Get req (fst kv))]> m0))
        as (m & Hm & Hkeys).
      exists m. split; [exact Hm |].
      intros key v Hv. destruct (Hkeys key v Hv) as [H0 | (hn & Hin & Hx)].
      * destruct (decide (snd kv = key)) as [<- | Hk].
        -- rewrite lookup_insert_eq in H0. injection H0 as <-.
           right. exists (fst kv). split; [left; destruct kv; reflexivity |].
           split; [exact Hne | reflexivity].
        -- rewrite lookup_insert_ne in H0 by exact Hk. auto.
      * right. exists hn. split; [right; exact Hin | exact Hx].
Qed.

(** X20.  What [submitToFeed] puts on the queue.  The queue is left as it
    was, or gains exactly one event.  That event carries the resolved
    hostname and the current time.  For a status of 400 or more its data
    has the status under "status_code", also when a captured header is
    configured under that key; below 400 with no capture headers
    configured it has no data; and every other entry of its data is the
    non-empty value of a configured header under that header's key. *)
Theorem submitted_event_data (h : UmamiFeeder) (req : Request) (statusCode unixNow : Z)
    (created : result Website_) :
  let h' := submitToFeed h req statusCode unixNow created in
  queue h' = queue h
  \/ exists event,
       enqueued (queue h) (queue h') event
       /\ Hostname event = parseDomainFromHost (Host req)
       /\ Timestamp event = unixNow
       /\ ((400 <= statusCode)%Z ->
           exists m, Data event = Some m /\ m !! "status_code" = Some (DInt statusCode))
       /\ ((statusCode < 400)%Z -> captureHeaders h = ∅ -> Data event = None)
       /\ (forall m key v, Data event = Some m -> m !! key = Some v ->
           ((400 <= statusCode)%Z /\ key = "status_code" /\ v = DInt statusCode)
           \/ exists headerName, captureHeaders h !! headerName = Some key
                /\ Header_Get req headerName <> EmptyString
                /\ v = DString (Header_Get req headerName)).
Proof.
  intros h'. subst h'. unfold submitToFeed.
  pose proof (same_queue_getWebsiteId h (parseDomainFromHost (Host req)) created) as Hq1.
  pose proof (captureHeaders_getWebsiteId h (parseDomainFromHost (Host req)) created) as Hc1.
  destruct (getWebsiteId h (parseDomainFromHost (Host req)) created)
    as [[websiteId h1] called]. simpl in Hq1, Hc1.
  destruct (String.eqb websiteId "").
  { left. rewrite (proj1 (same_queue_error h1 _)). exact (proj1 Hq1). }
  set (l := map_to_list (captureHeaders h1)).
  set (d0 := if (400 <=? statusCode)%Z || (0 <? size (captureHeaders h1))
             then Some ∅ else None).
  pose proof (same_queue_capture req l h1 d0) as Hq2.
  assert (Hdata : match snd (fold_left (captureInto req) l (h1, d0)) with
                  | None => d0 = None
                  | Some m => d0 <> None /\ forall key v, m !! key = Some v ->
                      exists headerName, captureHeaders h !! headerName = Some key
                        /\ Header_Get req headerName <> EmptyString
                        /\ v = DString (Header_Get req headerName)
                  end).
  { destruct d0 as [m0 |] eqn:Hd0.
    - assert (Hm0 : m0 = ∅) by (subst d0; destruct (_ || _); congruence). subst m0.
      destruct (capture_some req l h1 ∅) as (m & -> & Hkeys).
      split; [discriminate |]. intros key v Hv.
      destruct (Hkeys key v Hv) as [H0 | (hn & Hin & Hx)];
        [rewrite lookup_empty in H0; discriminate |].
      exists hn. split; [| exact Hx].
      rewrite <- Hc1. apply elem_of_map_to_list. apply list_elem_of_In. exact Hin.
    - rewrite capture_none. reflexivity. }
  destruct (fold_left (captureInto req) l (h1, d0)) as [h2 data1]. simpl in Hq2, Hdata.
  assert (Hq : queue h2 = queue h) by (rewrite (proj1 Hq2); exact (proj1 Hq1)).
  match goal with
  | |- context [Chan.selectnbsend (queue h2) ?ev] => set (event := ev)
  end.
  destruct (Chan.selectnbsend (queue h2) event) as [q' | |] eqn:Hs.
  - right. exists event. rewrite Hq in Hs.
    split.
    { simpl. apply selectnbsend_sent in Hs as (_ & [(_ & _ & Hb & Hh) | (_ & _ & _ & Hb & Hh)]);
        [right | left]; split; assumption. }
    split; [reflexivity |]. split; [reflexivity |].
    subst event. cbn [Data].
    assert (Hsize : captureHeaders h = ∅ -> (0 <? size (captureHeaders h1)) = false).
    { intros He. rewrite Hc1, He, map_size_empty. reflexivity. }
    destruct (Z.leb_spec 400 statusCode) as [Herr | Hok].
    + subst d0. simpl in Hdata.
      destruct data1 as [m |]; [| discriminate]. destruct Hdata as [_ Hkeys]. simpl.
      split; [intros _; exists (<["status_code" := DInt statusCode]> m);
              split; [reflexivity | apply lookup_insert_eq] |].
      split; [lia |].
      intros m' key v [= <-] Hv.
      destruct (decide ("status_code" = key)) as [<- | Hk].
      * rewrite lookup_insert_eq in Hv. injection Hv as <-. left. auto.
      * rewrite lookup_insert_ne in Hv by exact Hk. right. apply Hkeys. exact Hv.
    + split; [lia |]. split.
      * intros _ He. subst d0. simpl in Hdata. rewrite (Hsize He) in Hdata.
        destruct data1 as [m |]; [destruct Hdata; congruence | reflexivity].
      * intros m key v Hm Hv. subst data1. right. apply (proj2 Hdata). exact Hv.
  - left. rewrite (proj1 (same_queue_error h2 _)). exact Hq.
  - left. exact Hq.
Qed.

End EventData.

(** ** Request helpers, and the instance [New] returns *)

Section RequestHelpers.
Context `{GoStd}.

Lemma lang_run_split (s : string) :
  exists post, s = lang_run s +:+ post
    /\ GoStrings.string_forallb is_lang_byte (lang_run s) = true
    /\ match post with
       | EmptyString => True
       | String c _ => is_lang_byte c = false
       end.
Proof.
  induction s as [| c s (post & Hs & Hrun & Hpost)]; simpl.
  - exists EmptyString. auto.
  - destruct (is_lang_byte c) eqn:Hc; simpl.
    + exists post. rewrite Hc, Hrun, append_cons. split; [f_equal; exact Hs | auto].
    + exists (String c s). rewrite Hc. auto.
Qed.

(** X21.  [parseAcceptLanguage] returns the first language tag of the
    header: the input is some bytes that are neither letters nor hyphens,
    then the result, which consists of letters and hyphens only, then a
    rest that does not start with a letter or hyphen.  The result is empty
    only when the header has no letter or hyphen at all. *)
Theorem accept_language_is_first_tag (acceptLanguage : string) :
  exists pre post,
    acceptLanguage = pre +:+ parseAcceptLanguage acceptLanguage +:+ post
    /\ GoStrings.string_forallb (fun c => negb (is_lang_byte c)) pre = true
    /\ GoStrings.string_forallb is_lang_byte (parseAcceptLanguage acceptLanguage) = true
    /\ match post with
       | EmptyString => True
       | String c _ => is_lang_byte c = false
       end
    /\ (parseAcceptLanguage acceptLanguage = EmptyString ->
        pre = acceptLanguage /\ post = EmptyString).
Proof.
  induction acceptLanguage as [| c s (pre & post & Hs & Hpre & Hrun & Hpost & Hempty)].
  - exists EmptyString, EmptyString.
    split; [reflexivity |]. split; [reflexivity |]. split; [reflexivity |].
    split; [exact I |]. intros _. split; reflexivity.
  - cbn [parseAcceptLanguage]. destruct (is_lang_byte c) eqn:Hc.
    + destruct (lang_run_split (String c s)) as (post' & Hs' & Hrun' & Hpost').
      exists EmptyString, post'. rewrite append_nil_l.
      split; [exact Hs' |]. split; [reflexivity |]. split; [exact Hrun' |].
      split; [exact Hpost' |].
      intros He. simpl in He. rewrite Hc in He. discriminate He.
    + exists (String c pre), post. cbn [GoStrings.string_forallb]. rewrite Hc, Hpre, append_cons.
      split; [f_equal; exact Hs |]. split; [reflexivity |]. split; [exact Hrun |].
      split; [exact Hpost |]. intros He. destruct (Hempty He) as [-> ->]. auto.
Qed.

Lemma SplitByte_head (s : string) (sep : ascii) :
  exists first others rest,
    GoStrings.SplitByte s sep = first :: others
    /\ s = first +:+ rest
    /\ GoStrings.string_forallb (fun c => negb (Ascii.eqb c sep)) first = true
    /\ (rest = EmptyString /\ others = [] \/ exists tail, rest = String sep tail).
Proof.
  induction s as [| c s (first & others & rest & Hsplit & Hs & Hfirst & Hrest)]; simpl.
  - exists EmptyString, [], EmptyString.
    split; [reflexivity |]. split; [reflexivity |]. split; [reflexivity |]. left. auto.
  - destruct (Ascii.eqb_spec c sep) as [-> | Hne].
    + exists EmptyString, (GoStrings.SplitByte s sep), (String sep s). simpl.
      split; [reflexivity |]. split; [reflexivity |]. split; [reflexivity |]. right. eauto.
    + rewrite Hsplit. exists (String c first), others, rest. simpl.
      split; [reflexivity |]. rewrite append_cons. split; [f_equal; exact Hs |].
      split; [| exact Hrest].
      rewrite Hfirst. destruct (Ascii.eqb_spec c sep); [contradiction | reflexivity].
Qed.

(** X22.  When the CDN headers are absent and X-Forwarded-For is not empty,
    [extractRemoteIP] is decided by that header alone: the result is its
    first comma-separated entry with the surrounding white space removed,
    whatever X-Real-IP and the remote address are.  This holds also when
    that entry is blank, in which case the result is the trimmed blank. *)
Theorem forwarded_for_decides (req : Request) :
  Header_Get req "Cf-Connecting-Ip" = EmptyString ->
  Header_Get req "X-Vercel-Ip" = EmptyString ->
  Header_Get req "X-Forwarded-For" <> EmptyString ->
  exists first rest,
    Header_Get req "X-Forwarded-For" = first +:+ rest
    /\ GoStrings.string_forallb (fun c => negb (Ascii.eqb c ",")) first = true
    /\ (rest = EmptyString \/ exists tail, rest = String "," tail)
    /\ extractRemoteIP req = strings_TrimSpace first.
Proof.
  intros Hcf Hvercel Hxff. unfold extractRemoteIP, nonempty.
  rewrite Hcf, Hvercel. simpl.
  destruct (String.eqb_spec (Header_Get req "X-Forwarded-For") "") as [He | _];
    [contradiction |]. simpl.
  destruct (SplitByte_head (Header_Get req "X-Forwarded-For") ",")
    as (first & others & rest & Hsplit & Hs & Hfirst & Hrest).
  rewrite Hsplit. exists first, rest.
  split; [exact Hs |]. split; [exact Hfirst |]. split; [| reflexivity].
  destruct Hrest as [[-> _] | Htail]; auto.
Qed.

(** X23.  A plugin instance as [New] returns it is passive: it is not
    enabled, whatever the configuration says, so [ServeHTTP] hands the
    server's writer to the next handler unwrapped and leaves the instance
    (its queue and log included) as it was.  The bootstrap goroutine is
    started exactly when the configuration is enabled and not disabled,
    and the queue is empty with the configured capacity. *)
Theorem new_plugin_is_passive (config : Config) (name_ : string) (h : UmamiFeeder)
    (started : bool) (rw : ResponseWriter) (req : Request) (ops : list HandlerOp)
    (unixNow : Z) (created : result Website_) :
  New config name_ = Returns (h, started) ->
  isEnabled h = false
  /\ started = (Enabled config && negb (Disabled config))
  /\ queue h = Chan.make (Z.to_nat (QueueSize config))
  /\ ServeHTTP h rw req ops unixNow created = (h, fold_left direct_op ops rw).
Proof.
  unfold New. destruct (QueueSize config <? 0)%Z; [discriminate |].
  cbn [isEnabled]. intros Hnew.
  assert (Hoff : isEnabled h = false
                 /\ started = (Enabled config && negb (Disabled config))
                 /\ queue h = Chan.make (Z.to_nat (QueueSize config))).
  { destruct (Enabled config && negb (Disabled config)) eqn:He;
      injection Hnew as <- <-; simpl; auto. }
  destruct Hoff as (Hoff & Hstarted & Hqueue).
  split; [exact Hoff |]. split; [exact Hstarted |]. split; [exact Hqueue |].
  unfold ServeHTTP. rewrite Hoff. reflexivity.
Qed.

End RequestHelpers.

Lemma forwarded_for_decides_witness :
  exists first rest,
    " 203.0.113.9 , 10.0.0.1" = first +:+ rest
    /\ GoStrings.string_forallb (fun c => negb (Ascii.eqb c ",")) first = true
    /\ (rest = EmptyString \/ exists tail, rest = String "," tail)
    /\ extractRemoteIP (request_forwarded " 203.0.113.9 , 10.0.0.1")
       = strings_TrimSpace first.
Proof.
  apply (forwarded_for_decides (request_forwarded " 203.0.113.9 , 10.0.0.1")).
  - reflexivity.
  - reflexivity.
  - discriminate.
Defined.

Lemma new_plugin_is_passive_witness :
  let req := ExampleStd.request "example.org" "/about" in
  let rw := mkResponseWriter [] true false in
  isEnabled feeder_new = false
  /\ true = (Enabled CreateConfig && negb (Disabled CreateConfig))
  /\ queue feeder_new = Chan.make (Z.to_nat (QueueSize CreateConfig))
  /\ ServeHTTP feeder_new rw req [OpWrite "hello"] 1700000000 (Err "not called")
     = (feeder_new, fold_left direct_op [OpWrite "hello"] rw).
Proof.
  apply (new_plugin_is_passive CreateConfig "umami-feeder" feeder_new true).
  vm_compute. reflexivity.
Defined.

(** ** Matcher: the resource rule *)

Section Resources.
Import GoStrings.
Context `{GoStd}.

Lemma length_append (a b : string) :
  String.length (a +:+ b) = String.length a + String.length b.
Proof.
  induction a as [| c a IH]; [reflexivity |].
  rewrite append_cons. simpl. rewrite IH. reflexivity.
Qed.

Lemma substring_tail (a b : string) :
  String.substring (String.length a) (String.length b) (a +:+ b) = b.
Proof.
  induction a as [| c a IH]; [| exact IH]. rewrite append_nil_l. simpl.
  induction b as [| c b IHb]; simpl; [reflexivity | rewrite IHb; reflexivity].
Qed.

Lemma get_plain (s : string) :
  plain_name s = true ->
  forall i, i < String.length s ->
  exists c, String.get i s = Some c /\ Ascii.eqb c "/" = false /\ Ascii.eqb c "." = false.
Proof.
  unfold plain_name. induction s as [| a s IH]; simpl; intros Hs i Hi; [lia |].
  apply andb_true_iff in Hs as [Ha Hs]. apply andb_true_iff in Ha as [Ha1 Ha2].
  apply negb_true_iff in Ha1, Ha2.
  destruct i as [| i]; [exists a; auto |].
  apply (IH Hs i). lia.
Qed.

Lemma Ext_from_plain (path : string) (k : nat) :
  forall j,
  (forall i, k <= i < k + j ->
     exists c, String.get i path = Some c
       /\ Ascii.eqb c "/" = false /\ Ascii.eqb c "." = false) ->
  Ext_from path (k + j) = Ext_from path k.
Proof.
  induction j as [| j IH]; intros Hplain; [rewrite Nat.add_0_r; reflexivity |].
  rewrite Nat.add_succ_r. cbn [Ext_from].
  destruct (Hplain (k + j)) as (c & -> & -> & ->); [lia |].
  apply IH. intros i Hi. apply Hplain. lia.
Qed.

Lemma Ext_plain_tail (pre tail : string) :
  plain_name tail = true ->
  Ext (pre +:+ tail) = Ext_from (pre +:+ tail) (String.length pre).
Proof.
  intros Htail. unfold Ext. rewrite length_append. apply Ext_from_plain.
  intros i Hi.
  destruct (get_plain tail Htail (i - String.length pre)) as (c & Hc & Hx); [lia |].
  exists c. split; [| exact Hx].
  rewrite (append_correct2 pre tail (i - String.length pre)) in Hc.
  replace (i - String.length pre + String.length pre) with i in Hc by lia. exact Hc.
Qed.

Lemma Ext_dotted (pre e : string) :
  plain_name e = true -> Ext (pre +:+ String "." e) = String "." e.
Proof.
  intros He.
  assert (Hpath : pre +:+ String "." e = (pre +:+ ".") +:+ e).
  { clear. induction pre as [| c pre IH]; [reflexivity |].
    rewrite !append_cons. f_equal. exact IH. }
  rewrite Hpath, (Ext_plain_tail (pre +:+ ".") e He), <- Hpath.
  rewrite length_append, Nat.add_comm. cbn [String.length Nat.add Ext_from].
  pose proof (append_correct2 pre (String "." e) 0) as Hget. simpl in Hget.
  rewrite <- Hget. simpl.
  replace (String.length (pre +:+ String "." e) - String.length pre)
    with (String.length (String "." e)) by (rewrite length_append; lia).
  apply substring_tail.
Qed.

Lemma Ext_plain (dir seg : string) :
  plain_name seg = true ->
  dir = EmptyString \/ (exists d, dir = d +:+ "/") ->
  Ext (dir +:+ seg) = EmptyString.
Proof.
  intros Hseg Hdir. rewrite (Ext_plain_tail dir seg Hseg).
  destruct Hdir as [-> | [d ->]]; [reflexivity |].
  rewrite length_append, Nat.add_comm. cbn [String.length Nat.add Ext_from].
  assert (Hpath : (d +:+ "/") +:+ seg = d +:+ String "/" seg).
  { clear. induction d as [| c d IH]; [reflexivity |].
    rewrite !append_cons. f_equal. exact IH. }
  rewrite Hpath.
  pose proof (append_correct2 d (String "/" seg) 0) as Hget. simpl in Hget.
  rewrite <- Hget. reflexivity.
Qed.

(** X24.  Unless all resources are tracked, [shouldTrackResource] decides
    by the part of the path from the last dot of its last segment on: a
    path ending in ".e" is reported exactly when ".e" is among the reported
    extensions (the configured [trackExtensions], or the built-in content
    extensions when none is configured).  A path whose last segment has no
    dot counts as having the empty extension: it is reported by default,
    and with [trackExtensions] configured only when that list contains the
    empty string. *)
Theorem resource_rule_by_extension (h : UmamiFeeder) (pre e dir seg : string) :
  trackAllResources h = false ->
  plain_name e = true ->
  plain_name seg = true ->
  dir = EmptyString \/ (exists d, dir = d +:+ "/") ->
  shouldTrackResource h (pre +:+ String "." e)
  = existsb (String.eqb (String "." e)) (reported_extensions h)
  /\ shouldTrackResource h (dir +:+ seg)
     = (if 0 <? length (trackExtensions h)
        then existsb (String.eqb EmptyString) (trackExtensions h)
        else true).
Proof.
  intros Hall He Hseg Hdir. unfold shouldTrackResource, reported_extensions.
  rewrite Hall, (Ext_dotted pre e He), (Ext_plain dir seg Hseg Hdir).
  split; destruct (0 <? length (trackExtensions h)); reflexivity.
Qed.

End Resources.

Lemma resource_rule_by_extension_witness :
  shouldTrackResource feeder_site "/assets/app.min.js" = false
  /\ shouldTrackResource feeder_site "/docs/about" = true.
Proof.
  destruct (resource_rule_by_extension feeder_site "/assets/app.min" "js" "/docs/" "about")
    as [Hjs Hpage].
  - reflexivity.
  - reflexivity.
  - reflexivity.
  - right. exists "/docs". reflexivity.
  - split; [exact Hjs | exact Hpage].
Defined.
